(** * Stagehand: DOM grounding and action orchestration

    A shallow embedding of the parts of the repository that the
    specification talks about.  All of them are in [src/unnamed/part_001],
    which holds three modules of the repository one after the other:

    - [Inference]: the model-call pipeline (lines 38-788:
      [fillInVariables], [verifyActCompletion], [act], [extract]);
    - [A11y]: the accessibility-tree builder (lines 789-938:
      [formatSimplifiedTree], [cleanStructuralNodes],
      [buildHierarchicalTree]);
    - [Selector] and [Agent]: the agent handler (lines 1542-3228:
      [generateSelector], [getActiveElementSelector], [executeAction],
      [recordAction]).

    [src/lib/handlers/agentHandler.ts] is a later variant of the same
    handler, with a reworked selector synthesis; [executeAction] and
    [recordAction] are the same in both.

    JavaScript strings are modelled by [string] (a sequence of code units,
    here bytes, with the ASCII reading of case, white space and digits),
    and the JavaScript numbers that hold token counts, timestamps and
    indices by [Z] or [nat]. *)

From Stdlib Require Import ZArith Lia Bool List String Ascii.
From stdpp Require Import base option list strings pretty gmap.
From Equations Require Import Equations.
Import ListNotations.

Local Open Scope string_scope.
Local Open Scope Z_scope.
Local Open Scope list_scope.

(** ** JavaScript string primitives *)

Module JsString.

(** [s.startsWith(p)], returning what follows the prefix. *)
Fixpoint strip_prefix (p s : string) : option string :=
  match p with
  | EmptyString => Some s
  | String a p' =>
      match s with
      | EmptyString => None
      | String b s' => if Ascii.eqb a b then strip_prefix p' s' else None
      end
  end.

Definition startsWith (s p : string) : bool :=
  match strip_prefix p s with Some _ => true | None => false end.

(** The search of [s.indexOf(p)]: the text before the first occurrence of
    [p] in [s] and the text after it. *)
Fixpoint find_first (p s : string) : option (string * string) :=
  match strip_prefix p s with
  | Some post => Some (EmptyString, post)
  | None =>
      match s with
      | EmptyString => None
      | String c s' =>
          match find_first p s' with
          | Some (pre, post) => Some (String c pre, post)
          | None => None
          end
      end
  end.

Definition includes (s p : string) : bool :=
  match find_first p s with Some _ => true | None => false end.

(** Number of (possibly overlapping) occurrences of [p] in [s]. *)
Fixpoint occurrences (p s : string) : nat :=
  ((if startsWith s p then 1 else 0) +
   match s with
   | EmptyString => 0
   | String _ s' => occurrences p s'
   end)%nat.

(** [GetSubstitution] of ECMA-262 for a string pattern: there are no
    capture groups, so only [$$], [$&], [$`] and [$'] are expanded and
    every other [$] stays as it is. *)
Fixpoint getSubstitution (matched before after tpl : string) : string :=
  match tpl with
  | EmptyString => EmptyString
  | String a t =>
      if Ascii.eqb a "$" then
        match t with
        | String c rest =>
            if Ascii.eqb c "$" then "$" +:+ getSubstitution matched before after rest
            else if Ascii.eqb c "&" then matched +:+ getSubstitution matched before after rest
            else if Ascii.eqb c "`" then before +:+ getSubstitution matched before after rest
            else if Ascii.eqb c "'" then after +:+ getSubstitution matched before after rest
            else String a (getSubstitution matched before after t)
        | EmptyString => String a EmptyString
        end
      else String a (getSubstitution matched before after t)
  end.

(** [s.replace(p, v)] with a string pattern [p]: only the first
    occurrence is replaced. *)
Definition replace (s p v : string) : string :=
  match find_first p s with
  | None => s
  | Some (pre, post) => pre +:+ getSubstitution p pre post v +:+ post
  end.

(** [toUpperCase] / [toLowerCase] on the ASCII letters. *)
Definition upper_char (c : ascii) : ascii :=
  let n := nat_of_ascii c in
  if (97 <=? n)%nat && (n <=? 122)%nat then ascii_of_nat (n - 32) else c.

Definition lower_char (c : ascii) : ascii :=
  let n := nat_of_ascii c in
  if (65 <=? n)%nat && (n <=? 90)%nat then ascii_of_nat (n + 32) else c.

Fixpoint map_string (f : ascii -> ascii) (s : string) : string :=
  match s with
  | EmptyString => EmptyString
  | String c s' => String (f c) (map_string f s')
  end.

Definition toUpperCase := map_string upper_char.
Definition toLowerCase := map_string lower_char.

(** White space that [trim], [parseInt] and [\s] skip (the ASCII part of
    the JavaScript definition). *)
Definition is_space (c : ascii) : bool :=
  let n := nat_of_ascii c in
  ((9 <=? n)%nat && (n <=? 13)%nat) || (n =? 32)%nat.

Fixpoint trimStart (s : string) : string :=
  match s with
  | String c s' => if is_space c then trimStart s' else s
  | EmptyString => EmptyString
  end.

Fixpoint trimEnd (s : string) : string :=
  match s with
  | EmptyString => EmptyString
  | String c s' =>
      match trimEnd s' with
      | EmptyString => if is_space c then EmptyString else String c EmptyString
      | t => String c t
      end
  end.

Definition trim (s : string) : string := trimEnd (trimStart s).

(** Value of a character as a digit (any radix up to 36). *)
Definition digit_value (c : ascii) : option Z :=
  let n := Z.of_nat (nat_of_ascii c) in
  if (48 <=? n) && (n <=? 57) then Some (n - 48)
  else if (97 <=? n) && (n <=? 122) then Some (n - 87)
  else if (65 <=? n) && (n <=? 90) then Some (n - 55)
  else None.

(** The longest prefix of digits of radix [r], read as a number; [None]
    when there is no digit at all. *)
Fixpoint read_digits (r : Z) (acc : option Z) (s : string) : option Z :=
  match s with
  | EmptyString => acc
  | String c s' =>
      match digit_value c with
      | Some d =>
          if d <? r then read_digits r (Some (r * default 0 acc + d)) s' else acc
      | None => acc
      end
  end.

(** [parseInt(s, radix)]; [radix = None] is the one-argument call, which
    reads a [0x] prefix as hexadecimal.  [None] is [NaN]. *)
Definition parseInt (s : string) (radix : option Z) : option Z :=
  let s1 := trimStart s in
  let '(sign, s2) :=
    match s1 with
    | String "-" t => (-1, t)
    | String "+" t => (1, t)
    | _ => (1, s1)
    end in
  let '(r, s3) :=
    match radix, s2 with
    | None, String "0" (String x t) =>
        if Ascii.eqb x "x" || Ascii.eqb x "X" then (16, t) else (10, s2)
    | None, _ => (10, s2)
    | Some r, _ => (r, s2)
    end in
  z ← read_digits r None s3; Some (sign * z).

(** [parseInt(...) < 0]; a comparison with [NaN] is false. *)
Definition is_negative (n : option Z) : bool :=
  match n with Some z => z <? 0 | None => false end.

(** ["  ".repeat(n)] *)
Fixpoint repeat_string (s : string) (n : nat) : string :=
  match n with
  | O => EmptyString
  | S n' => s +:+ repeat_string s n'
  end.

(** [parts.join(sep)] *)
Fixpoint join (sep : string) (parts : list string) : string :=
  match parts with
  | [] => EmptyString
  | [x] => x
  | x :: rest => x +:+ sep +:+ join sep rest
  end.

(** [s.split(/\s+/).filter(Boolean)] *)
Fixpoint split_spaces (s cur : string) : list string :=
  match s with
  | EmptyString => if String.eqb cur EmptyString then [] else [cur]
  | String c s' =>
      if is_space c then
        if String.eqb cur EmptyString then split_spaces s' EmptyString
        else cur :: split_spaces s' EmptyString
      else split_spaces s' (cur +:+ String c EmptyString)
  end.

Definition words (s : string) : list string := split_spaces s EmptyString.

(** [s.slice(0, n)] *)
Definition slice0 (n : nat) (s : string) : string := String.substring 0 n s.

(** [s.replace(/c/g, by)] for a single character [c]. *)
Fixpoint replace_char (c : ascii) (by_ : string) (s : string) : string :=
  match s with
  | EmptyString => EmptyString
  | String x s' =>
      if Ascii.eqb x c then by_ +:+ replace_char c by_ s'
      else String x (replace_char c by_ s')
  end.

(** The double quote and the backslash. *)
Definition dq : string := String (ascii_of_nat 34) EmptyString.
Definition bs : string := String (ascii_of_nat 92) EmptyString.

Definition hex_digit (n : nat) : ascii :=
  if (n <? 10)%nat then ascii_of_nat (48 + n) else ascii_of_nat (87 + n).

(** [n.toString(16)] for a code unit below 256. *)
Definition hex_string (n : nat) : string :=
  if (n <? 16)%nat then String (hex_digit n) EmptyString
  else String (hex_digit (n / 16)) (String (hex_digit (n mod 16)) EmptyString).

Definition is_digit (c : ascii) : bool :=
  let n := nat_of_ascii c in (48 <=? n)%nat && (n <=? 57)%nat.
Definition is_letter (c : ascii) : bool :=
  let n := nat_of_ascii c in
  ((65 <=? n)%nat && (n <=? 90)%nat) || ((97 <=? n)%nat && (n <=? 122)%nat).

(** [CSS.escape(value)], the serialisation of an identifier of CSSOM. *)
Fixpoint css_escape_from (whole : string) (index : nat) (s : string) : string :=
  match s with
  | EmptyString => EmptyString
  | String c s' =>
      let n := nat_of_ascii c in
      let first_is_dash :=
        match whole with String "-" _ => true | _ => false end in
      let piece :=
        if (n =? 0)%nat then
          String (ascii_of_nat 239) (String (ascii_of_nat 191)
            (String (ascii_of_nat 189) EmptyString))
        else if ((1 <=? n)%nat && (n <=? 31)%nat) || (n =? 127)%nat
                || ((index =? 0)%nat && is_digit c)
                || ((index =? 1)%nat && is_digit c && first_is_dash)
        then bs +:+ hex_string n +:+ " "
        else if (index =? 0)%nat && (String.length whole =? 1)%nat && Ascii.eqb c "-"
        then bs +:+ String c EmptyString
        else if (128 <=? n)%nat || Ascii.eqb c "-" || Ascii.eqb c "_"
                || is_digit c || is_letter c
        then String c EmptyString
        else bs +:+ String c EmptyString in
      piece +:+ css_escape_from whole (S index) s'
  end.

Definition css_escape (value : string) : string := css_escape_from value 0 value.

(** Declarative reading of "the first occurrence of [p] in [s]". *)
Definition first_occurrence (p s pre post : string) : Prop :=
  s = pre +:+ p +:+ post /\
  forall pre' post', s = pre' +:+ p +:+ post' ->
                     (String.length pre <= String.length pre')%nat.

Definition no_occurrence (p s : string) : Prop :=
  forall pre post, s <> pre +:+ p +:+ post.

End JsString.

(** ** Regular expressions

    The tests [/.../.test(s)] of the source, decided with derivatives. *)

Module Regex.

Inductive Regex : Type :=
| RNone
| REps
| RChar (p : ascii -> bool)
| RSeq (a b : Regex)
| RAlt (a b : Regex)
| RStar (a : Regex).

Fixpoint nullable (r : Regex) : bool :=
  match r with
  | RNone => false
  | REps => true
  | RChar _ => false
  | RSeq a b => nullable a && nullable b
  | RAlt a b => nullable a || nullable b
  | RStar _ => true
  end.

Fixpoint deriv (c : ascii) (r : Regex) : Regex :=
  match r with
  | RNone => RNone
  | REps => RNone
  | RChar p => if p c then REps else RNone
  | RSeq a b =>
      if nullable a then RAlt (RSeq (deriv c a) b) (deriv c b)
      else RSeq (deriv c a) b
  | RAlt a b => RAlt (deriv c a) (deriv c b)
  | RStar a => RSeq (deriv c a) (RStar a)
  end.

(** Keeps the derivatives small. *)
Fixpoint simplify (r : Regex) : Regex :=
  match r with
  | RSeq a b =>
      match simplify a, simplify b with
      | RNone, _ => RNone
      | _, RNone => RNone
      | REps, b' => b'
      | a', b' => RSeq a' b'
      end
  | RAlt a b =>
      match simplify a, simplify b with
      | RNone, b' => b'
      | a', RNone => a'
      | a', b' => RAlt a' b'
      end
  | _ => r
  end.

Fixpoint matches (r : Regex) (s : string) : bool :=
  match s with
  | EmptyString => nullable r
  | String c s' => matches (simplify (deriv c r)) s'
  end.

(** Pieces of the concrete syntax. *)
Definition range (lo hi : ascii) : ascii -> bool :=
  fun c => (nat_of_ascii lo <=? nat_of_ascii c)%nat && (nat_of_ascii c <=? nat_of_ascii hi)%nat.
Definition chr (x : ascii) : ascii -> bool := Ascii.eqb x.
Definition orc (p q : ascii -> bool) : ascii -> bool := fun c => p c || q c.

Definition lower : ascii -> bool := range "a" "z".
Definition upper : ascii -> bool := range "A" "Z".
Definition digit : ascii -> bool := range "0" "9".
Definition alpha : ascii -> bool := orc lower upper.
Definition alnum : ascii -> bool := orc alpha digit.
Definition lower_alnum : ascii -> bool := orc lower digit.
Definition hex_lower : ascii -> bool := orc digit (range "a" "f").
(** [.] matches everything but a line terminator. *)
Definition dot : ascii -> bool :=
  fun c => negb (Ascii.eqb c (ascii_of_nat 10) || Ascii.eqb c (ascii_of_nat 13)).
Definition anything : ascii -> bool := fun _ => true.

Fixpoint lit (s : string) : Regex :=
  match s with
  | EmptyString => REps
  | String c s' => RSeq (RChar (chr c)) (lit s')
  end.

Definition plus (r : Regex) : Regex := RSeq r (RStar r).
Definition opt (r : Regex) : Regex := RAlt REps r.
Fixpoint at_least (n : nat) (r : Regex) : Regex :=
  match n with
  | O => RStar r
  | S n' => RSeq r (at_least n' r)
  end.
Fixpoint alts (rs : list Regex) : Regex :=
  match rs with
  | [] => RNone
  | [r] => r
  | r :: rest => RAlt r (alts rest)
  end.
Fixpoint seqs (rs : list Regex) : Regex :=
  match rs with
  | [] => REps
  | [r] => r
  | r :: rest => RSeq r (seqs rest)
  end.

(** [/^r$/.test(s)], [/^r/.test(s)] and [/r/.test(s)] *)
Definition test_whole (r : Regex) (s : string) : bool := matches r s.
Definition test_prefix (r : Regex) (s : string) : bool :=
  matches (RSeq r (RStar (RChar anything))) s.
Definition test_anywhere (r : Regex) (s : string) : bool :=
  matches (RSeq (RStar (RChar anything)) (RSeq r (RStar (RChar anything)))) s.

End Regex.

(** ** State and exceptions *)

Module Effects.

Inductive Res (A : Type) : Type :=
| Ok (a : A)
| Throw (error : string).
Arguments Ok {A} a.
Arguments Throw {A} error.

(** A computation over a state [S] that returns or raises. *)
Definition M (S A : Type) : Type := S -> Res A * S.

Section Monad.
Context {S : Type}.

Definition ret {A} (a : A) : M S A := fun st => (Ok a, st).
Definition throw {A} (e : string) : M S A := fun st => (Throw e, st).
Definition bind {A B} (m : M S A) (k : A -> M S B) : M S B :=
  fun st =>
    match m st with
    | (Ok a, st') => k a st'
    | (Throw e, st') => (Throw e, st')
    end.

(** [try { m } catch (e) { handler e }] *)
Definition try_catch {A} (m : M S A) (handler : string -> M S A) : M S A :=
  fun st =>
    match m st with
    | (Ok a, st') => (Ok a, st')
    | (Throw e, st') => handler e st'
    end.

(** [try { m } finally { f }]: an error raised by [f] replaces the outcome
    of [m]. *)
Definition finally {A} (m : M S A) (f : M S unit) : M S A :=
  fun st =>
    match m st with
    | (r, st') =>
        match f st' with
        | (Ok _, st'') => (r, st'')
        | (Throw e, st'') => (Throw e, st'')
        end
    end.

Definition when (b : bool) (m : M S unit) : M S unit :=
  if b then m else ret tt.

End Monad.

#[global] Instance M_ret {S} : MRet (M S) := @ret S.
#[global] Instance M_bind {S} : MBind (M S) := fun A B k m => bind m k.

End Effects.

(** ** JavaScript values *)

Module JsValue.

(** JSON-shaped JavaScript values; an object is the list of its own
    properties in insertion order. *)
#[warnings="-register-all"]
Inductive JSValue : Type :=
| JUndefined
| JNull
| JBool (b : bool)
| JNum (n : Z)
| JStr (s : string)
| JArr (items : list JSValue)
| JObj (fields : list (string * JSValue)).

(** [typeof v === "object"] *)
Definition typeof_object (v : JSValue) : bool :=
  match v with
  | JNull | JArr _ | JObj _ => true
  | _ => false
  end.

(** JavaScript truthiness ([!v] is its negation). *)
Definition truthy (v : JSValue) : bool :=
  match v with
  | JUndefined | JNull => false
  | JBool b => b
  | JNum n => negb (n =? 0)
  | JStr s => negb (String.eqb s EmptyString)
  | JArr _ | JObj _ => true
  end.

Fixpoint get_field (k : string) (fields : list (string * JSValue)) : JSValue :=
  match fields with
  | [] => JUndefined
  | (k', v) :: rest => if String.eqb k k' then v else get_field k rest
  end.

(** Writing a property keeps the position of an existing key and appends
    a new one. *)
Fixpoint set_field (k : string) (v : JSValue) (fields : list (string * JSValue))
  : list (string * JSValue) :=
  match fields with
  | [] => [(k, v)]
  | (k', v') :: rest =>
      if String.eqb k k' then (k, v) :: rest else (k', v') :: set_field k v rest
  end.

Fixpoint indexed {A} (i : nat) (l : list A) : list (string * A) :=
  match l with
  | [] => []
  | x :: rest => (pretty i, x) :: indexed (S i) rest
  end.

Fixpoint chars (s : string) : list JSValue :=
  match s with
  | EmptyString => []
  | String c s' => JStr (String c EmptyString) :: chars s'
  end.

(** The own enumerable properties that the spread [{...v}] copies. *)
Definition own_entries (v : JSValue) : list (string * JSValue) :=
  match v with
  | JObj fields => fields
  | JArr items => indexed 0 items
  | JStr s => indexed 0 (chars s)
  | _ => []
  end.

(** The object literal [{...v, k1: v1, ..., kn: vn}]. *)
Definition object_literal (spread : JSValue) (props : list (string * JSValue))
  : list (string * JSValue) :=
  fold_left (fun o '(k, v) => set_field k v o) (own_entries spread ++ props) [].

(** An object in the JavaScript sense: neither a primitive nor [null]. *)
Definition is_object (v : JSValue) : bool :=
  match v with
  | JObj _ | JArr _ => true
  | _ => false
  end.

(** [v === null || v === undefined] and [v === "s"] *)
Definition nullish (v : JSValue) : bool :=
  match v with
  | JUndefined | JNull => true
  | _ => false
  end.

Definition is_string (v : JSValue) (s : string) : bool :=
  match v with
  | JStr x => String.eqb x s
  | _ => false
  end.

(** [k in v] for an object or array [v]. *)
Definition has_field (k : string) (v : JSValue) : bool :=
  existsb (fun kv => String.eqb k kv.1) (own_entries v).

(** [v.k]; reading a property of [null] or [undefined] raises. *)
Definition prop (v : JSValue) (k : string) : Effects.Res JSValue :=
  match v with
  | JUndefined | JNull => Effects.Throw "TypeError"
  | _ => Effects.Ok (get_field k (own_entries v))
  end.

(** [const { k = d } = v]: the default replaces [undefined]. *)
Definition field_or (k : string) (d : JSValue) (fields : list (string * JSValue))
  : JSValue :=
  match get_field k fields with
  | JUndefined => d
  | v => v
  end.

End JsValue.

(** ** The inference pipeline *)

Module Inference.
Import JsString Effects JsValue.

(** [fillInVariables(text, variables)] (lines 66-76); [variables] is the
    list that [Object.entries(variables)] yields. *)
Definition placeholder (key : string) : string :=
  "<|" +:+ toUpperCase key +:+ "|>".

Definition fillInVariables (text : string) (variables : list (string * string)) : string :=
  fold_left
    (fun processedText '(key, value) =>
       replace processedText (placeholder key) value)
    variables text.

(** *** Responses and the effects of a staged call *)

Record LLMUsage := {
  prompt_tokens : Z;
  completion_tokens : Z;
  total_tokens : Z
}.

Record ToolCall := {
  function_name : string;
  function_arguments : string
}.

Record Message := { tool_calls : option (list ToolCall) }.
Record Choice := { message : option Message }.

(** What [llmClient.createChatCompletion] resolves to. *)
Record LLMResponse := {
  data : JSValue;
  usage : option LLMUsage;
  choices : option (list Choice)
}.

(** [usage?.prompt_tokens ?? 0] and [usage?.completion_tokens ?? 0] *)
Definition prompt_or_0 (u : option LLMUsage) : Z :=
  match u with Some u => prompt_tokens u | None => 0 end.
Definition completion_or_0 (u : option LLMUsage) : Z :=
  match u with Some u => completion_tokens u | None => 0 end.

(** The collaborators of one run: the model client answers its k-th call
    with [responses k], and the k-th reading of [Date.now()] is
    [clock k].  The messages of a call come from the prompt builders,
    which are not part of these modules; the answer of the client is
    taken as it comes. *)
Record World := {
  responses : nat -> LLMResponse;
  clock : nat -> Z
}.

Inductive Event : Type :=
| EvLog (category msg : string)
| EvWriteFile (directory prefix : string)
| EvSummary (kind inference_type : string) (prompt completion time_ms : Z)
| EvActMetrics (prompt completion time_ms : Z).

Record St := {
  calls : nat;
  ticks : nat;
  events : list Event
}.

Definition st0 : St := {| calls := 0; ticks := 0; events := [] |}.

Definition emit (e : Event) : Effects.M St unit :=
  fun st => (Ok tt, {| calls := calls st; ticks := ticks st;
                       events := events st ++ [e] |}).

(** A computation that only appends events. *)
Definition quiet (m : Effects.M St unit) : Prop :=
  forall s, exists s', m s = (Ok tt, s') /\ calls s' = calls s /\ ticks s' = ticks s.

Local Abbreviation M := (Effects.M St).

Section Calls.
Variable w : World.

Definition Date_now : M Z :=
  fun st => (Ok (clock w (ticks st)),
             {| calls := calls st; ticks := S (ticks st); events := events st |}).

Definition createChatCompletion : M LLMResponse :=
  fun st => (Ok (responses w (calls st)),
             {| calls := S (calls st); ticks := ticks st; events := events st |}).

(** The common shape of a staged call: optional call file, the timed
    model call, and the response. *)
Definition timed_call (logInferenceToFile : bool) (dir call_prefix : string)
  : M (LLMResponse * Z) :=
  when logInferenceToFile (emit (EvWriteFile dir call_prefix));;
  start ← Date_now;
  rawResponse ← createChatCompletion;
  end_ ← Date_now;
  ret (rawResponse, end_ - start).

(** *** verifyActCompletion (lines 100-212) *)

Record VerifyActCompletionResult := {
  v_completed : JSValue;
  v_prompt_tokens : Z;
  v_completion_tokens : Z;
  v_inference_time_ms : Z
}.

Variable JSON_stringify : LLMResponse -> string.

Definition verifyActCompletion (logInferenceToFile : bool)
  : M VerifyActCompletionResult :=
  r ← timed_call logInferenceToFile "act_summary" "verify_call";
  let '(parsedResponse, inferenceTimeMs) := r in
  let verificationData := data parsedResponse in
  let verificationUsage := usage parsedResponse in
  when logInferenceToFile
    (emit (EvWriteFile "act_summary" "verify_response");;
     emit (EvSummary "act" "verifyActCompletion"
             (prompt_or_0 verificationUsage)
             (completion_or_0 verificationUsage) inferenceTimeMs));;
  let result c := {| v_completed := c;
                     v_prompt_tokens := prompt_or_0 verificationUsage;
                     v_completion_tokens := completion_or_0 verificationUsage;
                     v_inference_time_ms := inferenceTimeMs |} in
  if negb (truthy verificationData) || negb (typeof_object verificationData) then
    emit (EvLog "VerifyAct"
            ("Unexpected response format: " +:+ JSON_stringify parsedResponse));;
    ret (result (JBool false))
  else
    match get_field "completed" (own_entries verificationData) with
    | JUndefined =>
        emit (EvLog "VerifyAct" "Missing 'completed' field in response");;
        ret (result (JBool false))
    | c => ret (result c)
    end.

(** *** act (lines 214-331) *)

(** The parameters of [act] that do not only feed the prompt. *)
Record ActParams := {
  logInferenceToFile : bool;
  (** whether the caller passed an [onActMetrics] callback *)
  onActMetrics : bool
}.

(** [JSON.parse]; [None] stands for the [SyntaxError] it raises. *)
Variable JSON_parse : string -> option JSValue.

(** [rawResponse.choices?.[0]?.message?.tool_calls] *)
Definition first_tool_calls (rawResponse : LLMResponse) : option (list ToolCall) :=
  match choices rawResponse with
  | Some (c :: _) =>
      match message c with
      | Some m => tool_calls m
      | None => None
      end
  | _ => None
  end.

(** [!(toolCalls && toolCalls.length > 0)] *)
Definition no_tool_calls (rawResponse : LLMResponse) : bool :=
  match first_tool_calls rawResponse with
  | Some (_ :: _) => false
  | _ => true
  end.

(** Everything [act] does up to and including the metrics callback. *)
Definition act_call (p : ActParams) : M LLMResponse :=
  r ← timed_call (logInferenceToFile p) "act_summary" "act_call";
  let '(rawResponse, inferenceTimeMs) := r in
  when (logInferenceToFile p) (emit (EvWriteFile "act_summary" "act_response"));;
  let usageData := usage rawResponse in
  let promptTokens := prompt_or_0 usageData in
  let completionTokens := completion_or_0 usageData in
  when (logInferenceToFile p)
    (emit (EvSummary "act" "act" promptTokens completionTokens inferenceTimeMs));;
  when (onActMetrics p)
    (emit (EvActMetrics promptTokens completionTokens inferenceTimeMs));;
  mret rawResponse.

(** [act({..., retries})]: the result is the parsed arguments of the first
    tool call, or [JNull]. *)
Equations? act (p : ActParams) (retries : nat) (st : St) : Res JSValue * St
  by wf (2 - retries)%nat lt :=
act p retries st with act_call p st => {
  | (Throw e, st1) => (Throw e, st1);
  | (Ok rawResponse, st1) with first_tool_calls rawResponse => {
    | Some (tc :: _) =>
        if String.eqb (function_name tc) "skipSection" then (Ok JNull, st1)
        else match JSON_parse (function_arguments tc) with
             | Some v => (Ok v, st1)
             | None => (Throw "SyntaxError", st1)
             end;
    | _ with le_lt_dec 2 retries => {
      | left _ =>
          (emit (EvLog "Act" "No tool calls found in response after multiple retries.");;
           mret JNull) st1;
      | right _ => act p (S retries) st1 } } }.
Proof. all: lia. Qed.

(** *** extract (lines 333-624) *)

Definition extract (logToFile : bool) : M (list (string * JSValue)) :=
  r1 ← timed_call logToFile "extract_summary" "extract_call";
  let '(extractionResponse, extractTime) := r1 in
  let extractedData := data extractionResponse in
  let extractUsage := usage extractionResponse in
  when logToFile
    (emit (EvWriteFile "extract_summary" "extract_response");;
     emit (EvSummary "extract" "extract" (prompt_or_0 extractUsage)
             (completion_or_0 extractUsage) extractTime));;
  r2 ← timed_call logToFile "extract_summary" "refine_call";
  let '(refinedResponse, refineTime) := r2 in
  let refinedResponseData := data refinedResponse in
  let refinedResponseUsage := usage refinedResponse in
  when logToFile
    (emit (EvWriteFile "extract_summary" "refine_response");;
     emit (EvSummary "extract" "refine" (prompt_or_0 refinedResponseUsage)
             (completion_or_0 refinedResponseUsage) refineTime));;
  r3 ← timed_call logToFile "extract_summary" "metadata_call";
  let '(metadataResponse, metadataTime) := r3 in
  let metadataResponseUsage := usage metadataResponse in
  match data metadataResponse with
  | JUndefined | JNull => throw "TypeError"
  | metadata =>
      let metadataResponseCompleted := get_field "completed" (own_entries metadata) in
      let metadataResponseProgress := get_field "progress" (own_entries metadata) in
      when logToFile
        (emit (EvWriteFile "extract_summary" "metadata_response");;
         emit (EvSummary "extract" "metadata" (prompt_or_0 metadataResponseUsage)
                 (completion_or_0 metadataResponseUsage) metadataTime));;
      let totalPromptTokens :=
        prompt_or_0 extractUsage + prompt_or_0 refinedResponseUsage
        + prompt_or_0 metadataResponseUsage in
      let totalCompletionTokens :=
        completion_or_0 extractUsage + completion_or_0 refinedResponseUsage
        + completion_or_0 metadataResponseUsage in
      let totalInferenceTimeMs := extractTime + refineTime + metadataTime in
      mret (object_literal refinedResponseData
              [("metadata", JObj [("completed", metadataResponseCompleted);
                                  ("progress", metadataResponseProgress)]);
               ("prompt_tokens", JNum totalPromptTokens);
               ("completion_tokens", JNum totalCompletionTokens);
               ("inference_time_ms", JNum totalInferenceTimeMs)])
  end.

End Calls.

End Inference.

(** ** The accessibility-tree builder *)

Module A11y.
Import JsString.

(** One entry of the flat snapshot.  The objects that the builder stores in
    its map are entries without [parentId] and [childIds]. *)
Record AccessibilityNode := {
  role : string;
  nodeId : string;
  name : option string;
  description : option string;
  value : option string;
  backendDOMNodeId : option Z;
  parentId : option string;
  childIds : option (list string);
  xpath : option string
}.

(** A node of the hierarchy: the entry and its [children] array. *)
#[warnings="-register-all"]
Inductive TreeNode : Type :=
| Node (n : AccessibilityNode) (children : option (list TreeNode)).

Definition node_of (t : TreeNode) : AccessibilityNode :=
  match t with Node n _ => n end.
Definition children_of (t : TreeNode) : option (list TreeNode) :=
  match t with Node _ c => c end.

Record TreeResult := {
  tree : list TreeNode;
  simplified : string
}.

(** [s && ...] on an optional string: present and not empty. *)
Definition truthy_string (o : option string) : option string :=
  match o with
  | Some s => if String.eqb s EmptyString then None else Some s
  | None => None
  end.

Definition is_structural (r : string) : bool :=
  String.eqb r "generic" || String.eqb r "none".

(** [formatSimplifiedTree(node, level)] (lines 799-814) *)
Fixpoint formatSimplifiedTree (node : TreeNode) (level : nat) : string :=
  match node with
  | Node n children =>
      let indent := repeat_string "  " level in
      let result :=
        indent +:+ "[" +:+ nodeId n +:+ "] " +:+ role n +:+
        match truthy_string (name n) with
        | Some nm => ": " +:+ nm
        | None => EmptyString
        end +:+ String (ascii_of_nat 10) EmptyString in
      match children with
      | Some cs =>
          result +:+
          join EmptyString ((fix each (l : list TreeNode) : list string :=
                      match l with
                      | [] => []
                      | c :: r => formatSimplifiedTree c (S level) :: each r
                      end) cs)
      | None => result
      end
  end.

(** [cleanStructuralNodes(node)] (lines 823-858); [None] is [null]. *)
Fixpoint cleanStructuralNodes (node : TreeNode) : option TreeNode :=
  match node with
  | Node n children =>
      if negb (String.eqb (nodeId n) EmptyString) && is_negative (parseInt (nodeId n) None)
      then None
      else
        match children with
        | None => if is_structural (role n) then None else Some node
        | Some cs =>
            let cleanedChildren :=
              (fix each (l : list TreeNode) : list TreeNode :=
                 match l with
                 | [] => []
                 | c :: r =>
                     match cleanStructuralNodes c with
                     | Some c' => c' :: each r
                     | None => each r
                     end
                 end) cs in
            if is_structural (role n) then
              match cleanedChildren with
              | [only] => Some only
              | _ :: _ :: _ => Some (Node n (Some cleanedChildren))
              | [] => None
              end
            else
              match cleanedChildren with
              | _ :: _ => Some (Node n (Some cleanedChildren))
              | [] => Some node
              end
        end
  end.

(** The objects of [nodeMap]: an entry and, once the link pass has pushed
    to it, its [children] array.  An element of that array is a reference
    to another object of the map and is kept as that object's key. *)
Definition Stored : Type := AccessibilityNode * option (list string).

(** First pass: the meaningful nodes. *)
Definition first_pass_step (nodeMap : gmap string Stored) (node : AccessibilityNode)
  : gmap string Stored :=
  if is_negative (parseInt (nodeId node) (Some 10)) then nodeMap
  else
    let hasChildren :=
      match childIds node with Some (_ :: _) => true | _ => false end in
    let hasValidName :=
      match truthy_string (name node) with
      | Some nm => negb (String.eqb (trim nm) EmptyString)
      | None => false
      end in
    let isInteractive :=
      negb (String.eqb (role node) "none") &&
      negb (String.eqb (role node) "generic") &&
      negb (String.eqb (role node) "InlineTextBox") in
    if negb hasValidName && negb hasChildren && negb isInteractive then nodeMap
    else
      <[ nodeId node :=
           ({| role := role node;
               nodeId := nodeId node;
               name := if hasValidName then name node else None;
               description := truthy_string (description node);
               value := truthy_string (value node);
               backendDOMNodeId := backendDOMNodeId node;
               parentId := None;
               childIds := None;
               xpath := truthy_string (xpath node) |}, None) ]> nodeMap.

(** Second pass: push each stored node to its stored parent. *)
Definition second_pass_step (nodeMap : gmap string Stored) (node : AccessibilityNode)
  : gmap string Stored :=
  match truthy_string (parentId node), nodeMap !! nodeId node with
  | Some pid, Some _ =>
      match nodeMap !! pid with
      | Some (parentNode, children) =>
          <[ pid := (parentNode, Some (default [] children ++ [nodeId node])) ]> nodeMap
      | None => nodeMap
      end
  | _, _ => nodeMap
  end.

(** The object graph below a stored node, read as a tree.  The fuel bounds
    the depth; it runs out only on a cycle of [children] links. *)
Fixpoint tree_of (fuel : nat) (nodeMap : gmap string Stored) (id : string)
  : option TreeNode :=
  match fuel with
  | O => None
  | S fuel' =>
      '(n, children) ← nodeMap !! id;
      match children with
      | None => Some (Node n None)
      | Some ids =>
          cs ← mapM (tree_of fuel' nodeMap) ids;
          Some (Node n (Some cs))
      end
  end.

(** The root objects after the link pass, as trees.  The result is [None]
    when the linked objects form a cycle below a root, which takes a
    repeated [nodeId] in the input; the recursion of [cleanStructuralNodes]
    has no finite result there. *)
Definition linked_roots (nodes : list AccessibilityNode) : option (list TreeNode) :=
  let nodeMap := fold_left first_pass_step nodes ∅ in
  let nodeMap := fold_left second_pass_step nodes nodeMap in
  let roots :=
    filter (fun node => truthy_string (parentId node) = None
                        /\ is_Some (nodeMap !! nodeId node)) nodes in
  mapM (fun node => tree_of (S (size nodeMap)) nodeMap (nodeId node)) roots.

(** [buildHierarchicalTree(nodes)] (lines 866-938) *)
Definition buildHierarchicalTree (nodes : list AccessibilityNode) : option TreeResult :=
  rootTrees ← linked_roots nodes;
  let finalTree := omap cleanStructuralNodes rootTrees in
  let simplifiedFormat :=
    join (String (ascii_of_nat 10) EmptyString)
      (map (fun node => formatSimplifiedTree node 0) finalTree) in
  Some {| tree := finalTree; simplified := simplifiedFormat |}.

(** The two properties that the specification asks of every node of the
    result, children included. *)
Definition childless_structural (t : TreeNode) : bool :=
  is_structural (role (node_of t))
  && match children_of t with
     | None | Some [] => true
     | _ => false
     end.

Fixpoint anywhere (P : TreeNode -> bool) (t : TreeNode) : bool :=
  P t ||
  match t with
  | Node _ (Some cs) =>
      (fix each (l : list TreeNode) : bool :=
         match l with
         | [] => false
         | c :: r => anywhere P c || each r
         end) cs
  | Node _ None => false
  end.

(** An id that reads as a negative integer, in base 10 as the first pass
    reads it. *)
Definition negative_id (t : TreeNode) : bool :=
  is_negative (parseInt (nodeId (node_of t)) (Some 10)).

(** No object of the map has such an id. *)
Definition stored_ok (m : gmap string Stored) : Prop :=
  forall k n ch, m !! k = Some (n, ch) ->
                 is_negative (parseInt (nodeId n) (Some 10)) = false.

End A11y.

(** ** The agent handler: selector synthesis

    [generateSelector] (lines 2549-2741) and [getActiveElementSelector]
    (lines 2746-2911) of [src/unnamed/part_001]. *)

Module Selector.
Import JsString Effects Regex.

(** What the in-page script reads of the document.  [ancestors e] is the
    chain of [parentElement] links from [e] upwards, nearest first.
    [querySelectorAll] and [evaluate] are the browser's selector and XPath
    engines; [None] is the exception they raise on a string they cannot
    parse. *)
Record Document (Elem : Type) := {
  (** [document.body], which is [null] in a document without one *)
  body : option Elem;
  elementFromPoint : Z -> Z -> option Elem;
  activeElement : option Elem;
  id : Elem -> string;
  tagName : Elem -> string;
  (** [None] when [className] is not a string (SVG elements) *)
  className : Elem -> option string;
  getAttribute : Elem -> string -> option string;
  textContent : Elem -> string;
  ancestors : Elem -> list Elem;
  children : Elem -> list Elem;
  querySelectorAll : string -> option (list Elem);
  evaluate : string -> option (list Elem)
}.
Arguments body {Elem}.
Arguments elementFromPoint {Elem}.
Arguments activeElement {Elem}.
Arguments id {Elem}.
Arguments tagName {Elem}.
Arguments className {Elem}.
Arguments getAttribute {Elem}.
Arguments textContent {Elem}.
Arguments ancestors {Elem}.
Arguments children {Elem}.
Arguments querySelectorAll {Elem}.
Arguments evaluate {Elem}.

(** The section of [generateSelector] that produced the selector. *)
Inductive Tier : Type :=
| IdTier | DataAttrTier | AriaTier | FormTier | ClassTier
| TextTier | CssPathTier | FullPathTier.

(** The tiers whose candidates are accepted through [isSelectorUnique]. *)
Definition verified (t : Tier) : bool :=
  match t with
  | TextTier | FullPathTier => false
  | _ => true
  end.

(** A value that is present and not the empty string. *)
Definition nonempty (o : option string) : option string :=
  match o with
  | Some s => if String.eqb s EmptyString then None else Some s
  | None => None
  end.

(** IDs that should never be used verbatim. *)
Definition isLikelyDynamicId (id : string) : bool :=
  includes id ":" ||
  test_prefix (lit "radix-") id ||
  test_whole (seqs [plus (RChar alpha); lit "-"; at_least 6 (RChar hex_lower)]) id.

Definition stabiliseIdSelector (sel : string) : string :=
  match strip_prefix "#" sel with
  | None => sel
  | Some rest =>
      let raw :=
        (fix unescape (s : string) : string :=
           match s with
           | String a ((String b t) as s') =>
               if Ascii.eqb a (ascii_of_nat 92) && Ascii.eqb b ":"
               then String ":" (unescape t)
               else String a (unescape s')
           | _ => s
           end) rest in
      if startsWith raw "radix-" then "[id^=" +:+ dq +:+ "radix-" +:+ dq +:+ "]:visible"
      else if includes raw ":" then "[id=" +:+ dq +:+ raw +:+ dq +:+ "]:visible"
      else sel
  end.

(** Variant and hashed classes. *)
Definition isLikelyDynamicClass (cls : string) : bool :=
  includes cls ":" ||
  test_whole (plus (RChar lower_alnum)) cls ||
  test_whole (seqs [plus (RChar lower);
                    at_least 2 (RSeq (lit "-") (plus (RChar lower_alnum)))]) cls ||
  test_whole (seqs [plus (RChar lower); lit "-"; at_least 4 (RChar alnum)]) cls ||
  test_anywhere (RSeq (lit "css-") (plus (RChar alnum))) cls ||
  test_prefix (RSeq (alts [lit "ng"; lit "vue"; lit "jsx"]) (lit "-")) cls.

(** [sibs.indexOf(cur) + 1] *)
Fixpoint index_plus_1 {A} `{EqDecision A} (cur : A) (sibs : list A) : nat :=
  match sibs with
  | [] => 0
  | x :: rest =>
      if decide (x = cur) then 1
      else match index_plus_1 cur rest with
           | O => 0
           | S i => S (S i)
           end
  end.

Definition nth_child_segment (tag : string) (idx : nat) : string :=
  tag +:+ ":nth-child(" +:+ pretty idx +:+ ")".

Section Synthesis.
Context {Elem : Type} `{EqDecision Elem}.
Variable document : Document Elem.
Variable element : Elem.

Definition isSelectorUnique (sel : string) : bool :=
  match querySelectorAll document sel with
  | Some [e] => bool_decide (e = element)
  | _ => false
  end.

Definition tag : string := toLowerCase (tagName document element).

(** The candidates of a loop over attribute names, in order. *)
Definition attr_candidates (mk : string -> string -> string) (attrs : list string)
  : list string :=
  omap (fun attr =>
          val ← nonempty (getAttribute document element attr);
          Some (mk attr (css_escape val))) attrs.

Definition attr_selector (attr val : string) : string :=
  "[" +:+ attr +:+ "=" +:+ dq +:+ val +:+ dq +:+ "]".
Definition tag_attr_selector (attr val : string) : string :=
  tag +:+ attr_selector attr val.

Definition testAttrs : list string :=
  ["data-testid"; "data-test"; "data-cy"; "data-automation-id"; "data-qa";
   "data-test-id"].
Definition ariaAttrs : list string :=
  ["aria-label"; "aria-labelledby"; "aria-describedby"; "aria-controls"; "role"].
Definition formAttrs : list string := ["name"; "placeholder"; "for"].

(** 1) id selector *)
Definition id_tier : option string :=
  let i := id document element in
  if negb (String.eqb i EmptyString) && negb (isLikelyDynamicId i) then
    let idSel := "#" +:+ css_escape i in
    if isSelectorUnique idSel then Some idSel else None
  else None.

(** 2) data-* attrs, 3) aria attrs, 4) form attrs *)
Definition data_tier : option string :=
  List.find isSelectorUnique (attr_candidates attr_selector testAttrs).
Definition aria_tier : option string :=
  List.find isSelectorUnique (attr_candidates tag_attr_selector ariaAttrs).
Definition form_tier : option string :=
  List.find isSelectorUnique (attr_candidates tag_attr_selector formAttrs).

(** 5) stable classes *)
Definition class_tier : option string :=
  match nonempty (className document element) with
  | None => None
  | Some cn =>
      let classes := words cn in
      let stable := List.filter (fun c => negb (isLikelyDynamicClass c)) classes in
      match stable with
      | [] => None
      | _ =>
          let core := take 3 stable in
          let allSel := tag +:+ "." +:+ join "." (map css_escape core) in
          if isSelectorUnique allSel then Some allSel
          else List.find isSelectorUnique
                 (map (fun cls => tag +:+ "." +:+ css_escape cls) core)
      end
  end.

(** 6) text-based xpath; an XPath string that the engine rejects raises. *)
Definition xpath_tags : Regex :=
  alts [lit "button"; lit "a"; RSeq (lit "h") (RChar (range "1" "6"));
        lit "label"; lit "li"; lit "span"; lit "p"; lit "div"].

Definition text_tier : Res (option string) :=
  let text := trim (textContent document element) in
  if negb (String.eqb text EmptyString) && (String.length text <? 50)%nat
     && test_whole xpath_tags tag then
    let quote s := replace_char (ascii_of_nat 34) (bs +:+ dq) s in
    let exact := "//" +:+ tag +:+ "[text()=" +:+ dq +:+ quote text +:+ dq +:+ "]" in
    match evaluate document exact with
    | None => Throw "SyntaxError"
    | Some found =>
        if (length found =? 1)%nat then Ok (Some exact)
        else
          let partial :=
            "//" +:+ tag +:+ "[contains(text()," +:+ dq +:+ quote (slice0 20 text)
            +:+ dq +:+ ")]" in
          match evaluate document partial with
          | None => Throw "SyntaxError"
          | Some found' =>
              if (length found' =? 1)%nat then Ok (Some partial) else Ok None
          end
    end
  else Ok None.

(** 7) css path best-effort: the loop, with [cur] and the ancestors of
    [cur] that are left. *)
Fixpoint css_path_loop (cur : Elem) (up : list Elem) (path : list string)
  : option string :=
  if decide (Some cur = body document) then None
  else
    match up with
    | [] => None
    | parent :: up' =>
        let sel := join " > " path in
        if isSelectorUnique sel then Some sel
        else
          let sibs := children document parent in
          let path' :=
            if (1 <? length sibs)%nat then
              <[ 0%nat := nth_child_segment (toLowerCase (tagName document cur))
                            (index_plus_1 cur sibs) ]> path
            else path in
          if (1 <? length sibs)%nat && isSelectorUnique (join " > " path')
          then Some (join " > " path')
          else css_path_loop parent up' (toLowerCase (tagName document parent) :: path')
    end.

Definition css_path_tier : option string :=
  css_path_loop element (ancestors document element) [tag].

(** 8) guaranteed full path *)
Fixpoint full_path_loop (cur : Elem) (up : list Elem) (segs : list string)
  : list string :=
  if decide (Some cur = body document) then segs
  else
    match up with
    | [] => segs
    | parent :: up' =>
        full_path_loop parent up'
          (nth_child_segment (toLowerCase (tagName document cur))
             (index_plus_1 cur (children document parent)) :: segs)
    end.

Definition full_path_tier : string :=
  stabiliseIdSelector
    (join " > " ("body" :: full_path_loop element (ancestors document element) [])).

(** The script of [generateSelector] once the element is acquired. *)
Definition selector_for_element : Res (Tier * string) :=
  match id_tier with
  | Some sel => Ok (IdTier, sel)
  | None =>
  match data_tier with
  | Some sel => Ok (DataAttrTier, sel)
  | None =>
  match aria_tier with
  | Some sel => Ok (AriaTier, sel)
  | None =>
  match form_tier with
  | Some sel => Ok (FormTier, sel)
  | None =>
  match class_tier with
  | Some sel => Ok (ClassTier, sel)
  | None =>
  match text_tier with
  | Throw e => Throw e
  | Ok (Some sel) => Ok (TextTier, sel)
  | Ok None =>
  match css_path_tier with
  | Some sel => Ok (CssPathTier, sel)
  | None => Ok (FullPathTier, full_path_tier)
  end end end end end end end.

End Synthesis.

(** [generateSelector(x, y)]: an error of the in-page script is logged and
    turned into [null]. *)
Definition generateSelector {Elem} `{EqDecision Elem} (document : Document Elem)
    (x y : Z) : option string :=
  match elementFromPoint document x y with
  | None => None
  | Some element =>
      match selector_for_element document element with
      | Ok (_, sel) => Some sel
      | Throw _ => None
      end
  end.

(** The tier that answers, next to the selector. *)
Definition generateSelector_tier {Elem} `{EqDecision Elem} (document : Document Elem)
    (x y : Z) : option (Tier * string) :=
  match elementFromPoint document x y with
  | None => None
  | Some element =>
      match selector_for_element document element with
      | Ok r => Some r
      | Throw _ => None
      end
  end.

(** *** getActiveElementSelector *)

Section ActiveElement.
Context {Elem : Type} `{EqDecision Elem}.
Variable document : Document Elem.

(** Common dynamic class patterns. *)
Definition isDynamicClass (className : string) : bool :=
  test_whole (RSeq (lit "css-") (plus (RChar lower_alnum))) className ||
  test_whole (seqs [alts [lit "sc"; lit "e"]; lit "-"; plus (RChar lower_alnum)]) className ||
  (test_whole (seqs [plus (RChar lower); lit ":"; RStar (RChar dot)]) className
   && includes className ":") ||
  test_whole (seqs [lit "_ng"; alts [lit "content"; lit "host"]; lit "-";
                    plus (RChar (orc lower_alnum (chr "-")))]) className ||
  test_whole (RSeq (lit "v-") (plus (RChar lower_alnum))) className ||
  test_whole (seqs [plus (RChar dot); lit "--"; plus (RChar alnum)]) className ||
  test_whole (seqs [plus (RChar dot); RChar (orc (chr "_") (chr "-"));
                    at_least 4 (RChar hex_lower)]) className.

(** The framework patterns, in the order of [Object.entries]. *)
Definition frameworkPatterns : list (string -> bool) :=
  [ test_whole (seqs [lit "Mui"; RChar upper; plus (RChar alpha); lit "-";
                      plus (RChar lower)]);
    test_whole (seqs [lit "ant-"; plus (RChar lower); opt (lit "-"); RStar (RChar lower)]);
    test_whole (seqs [lit "chakra-"; plus (RChar lower); opt (lit "-");
                      RStar (RChar lower)]);
    test_whole (RSeq (alts [lit "btn"; lit "form"; lit "nav"; lit "card"; lit "modal";
                            lit "container"; lit "row"; lit "col"])
                     (RStar (RSeq (lit "-") (plus (RChar lower)))));
    test_prefix (alts [lit "rb-"; lit "react-bootstrap-"]);
    test_prefix (alts [lit "tw-"; lit "tailwind-"]) ].

Definition semanticAttributes : list string :=
  ["aria-label"; "aria-describedby"; "aria-controls"; "aria-labelledby";
   "aria-haspopup"; "aria-selected"; "aria-expanded"; "aria-checked"; "title";
   "placeholder"; "for"; "alt"; "name"].

Definition interactiveElements : list string :=
  ["button"; "a"; "h1"; "h2"; "h3"; "h4"; "h5"; "h6"].

Definition raw_attr_selector (attr val : string) : string :=
  "[" +:+ attr +:+ "=" +:+ dq +:+ val +:+ dq +:+ "]".

(** The first attribute of the list that the element carries with a value. *)
Definition first_attr (element : Elem) (attrs : list string) : option (string * string) :=
  head (omap (fun attr => val ← nonempty (getAttribute document element attr);
                          Some (attr, val)) attrs).

(** 5. stable classes from UI frameworks *)
Definition active_class_selector (element : Elem) : option string :=
  match nonempty (className document element) with
  | None => None
  | Some cn =>
      if String.eqb (trim cn) EmptyString then None
      else
        let classNames := words (trim cn) in
        let tag := toLowerCase (tagName document element) in
        let framework :=
          omap (fun pattern => head (List.filter pattern classNames)) frameworkPatterns in
        match framework with
        | cls :: _ => Some (tag +:+ "[class*=" +:+ dq +:+ cls +:+ dq +:+ "]")
        | [] =>
            match List.filter (fun c => negb (isDynamicClass c)) classNames with
            | [] => None
            | stableClasses => Some (tag +:+ "." +:+ join "." stableClasses)
            end
        end
  end.

(** 6. text content for interactive elements, 7. tag name *)
Definition active_text_or_tag (element : Elem) : string :=
  let tag := toLowerCase (tagName document element) in
  let textContent := trim (textContent document element) in
  if negb (String.eqb textContent EmptyString)
     && (String.length textContent <? 50)%nat
     && bool_decide (tag ∈ interactiveElements)
  then
    if (String.length textContent <? 20)%nat
    then "//" +:+ tag +:+ "[text()=" +:+ dq +:+ textContent +:+ dq +:+ "]"
    else "//" +:+ tag +:+ "[contains(text(), " +:+ dq +:+ slice0 20 textContent
         +:+ dq +:+ ")]"
  else tag.

(** The in-page script of [getActiveElementSelector]. *)
Definition getActiveElementSelector : string :=
  match activeElement document with
  | None => "body"
  | Some element =>
      if decide (Some element = body document) then "body"
      else
        let tag := toLowerCase (tagName document element) in
        (* 1. testing attributes *)
        match first_attr element ["data-testid"; "data-cy"; "data-test";
                                  "data-automation-id"] with
        | Some (attr, val) => raw_attr_selector attr val
        | None =>
        (* 2. id attribute *)
        if negb (String.eqb (id document element) EmptyString)
        then "#" +:+ id document element
        else
        (* 3. ARIA and semantic attributes *)
        match first_attr element semanticAttributes with
        | Some (attr, val) => tag +:+ raw_attr_selector attr val
        | None =>
        (* 4. role attribute *)
        match nonempty (getAttribute document element "role") with
        | Some role =>
            if negb (bool_decide (role ∈ ["button"; "link"; "presentation"; "none"]))
            then raw_attr_selector "role" role
            else
              match active_class_selector element with
              | Some sel => sel
              | None => active_text_or_tag element
              end
        | None =>
            match active_class_selector element with
            | Some sel => sel
            | None => active_text_or_tag element
            end
        end end end
  end.

End ActiveElement.

End Selector.

(** ** A document as a tree, with a selector engine

    Concrete documents for the examples: an HTML tree, elements named by
    their position, and the fragment of CSS selectors and XPath that the
    handler emits. *)

Module Dom.
Import JsString Selector.

#[warnings="-register-all"]
Inductive DomNode : Type :=
| Text (data : string)
| Element (tag : string) (attrs : list (string * string)) (childNodes : list DomNode).

(** An element is named by the indices that lead to it from the root
    element, which is [[]]. *)
Definition Path : Type := list nat.

Fixpoint node_at (root : DomNode) (p : Path) : option DomNode :=
  match p with
  | [] => Some root
  | i :: p' =>
      match root with
      | Element _ _ kids => kid ← kids !! i; node_at kid p'
      | Text _ => None
      end
  end.

Fixpoint attr_of (name : string) (attrs : list (string * string)) : option string :=
  match attrs with
  | [] => None
  | (n, v) :: rest => if String.eqb n name then Some v else attr_of name rest
  end.

Definition el_attr (root : DomNode) (p : Path) (name : string) : option string :=
  match node_at root p with
  | Some (Element _ attrs _) => attr_of name attrs
  | _ => None
  end.

Definition el_tag (root : DomNode) (p : Path) : string :=
  match node_at root p with
  | Some (Element t _ _) => t
  | _ => EmptyString
  end.

(** Indices of the child nodes that are elements. *)
Fixpoint element_indices (i : nat) (kids : list DomNode) : list nat :=
  match kids with
  | [] => []
  | Element _ _ _ :: rest => i :: element_indices (S i) rest
  | Text _ :: rest => element_indices (S i) rest
  end.

Definition el_children (root : DomNode) (p : Path) : list Path :=
  match node_at root p with
  | Some (Element _ _ kids) => map (fun i => p ++ [i]) (element_indices 0 kids)
  | _ => []
  end.

(** [parentElement] links, nearest first: the proper prefixes of the path,
    longest first. *)
Definition ancestors_of (p : Path) : list Path :=
  map (fun n => take n p) (rev (seq 0 (length p))).

Fixpoint text_of (n : DomNode) : string :=
  match n with
  | Text d => d
  | Element _ _ kids =>
      (fix each (l : list DomNode) : string :=
         match l with
         | [] => EmptyString
         | k :: r => text_of k +:+ each r
         end) kids
  end.

Definition el_text (root : DomNode) (p : Path) : string :=
  match node_at root p with
  | Some n => text_of n
  | None => EmptyString
  end.

(** All elements in document order. *)
Fixpoint elements_below (n : DomNode) (p : Path) : list Path :=
  match n with
  | Text _ => []
  | Element _ _ kids =>
      p :: (fix each (i : nat) (l : list DomNode) : list Path :=
              match l with
              | [] => []
              | k :: r => elements_below k (p ++ [i]) ++ each (S i) r
              end) 0%nat kids
  end.

Definition all_elements (root : DomNode) : list Path := elements_below root [].

(** *** Selectors *)

Inductive AttrOp : Type := AttrEquals | AttrPrefix | AttrContains.

Inductive Simple : Type :=
| STag (t : string)
| SId (i : string)
| SClass (c : string)
| SAttr (op : AttrOp) (name val : string)
| SNthChild (n : nat).

Inductive Combinator : Type := Child | Descendant.

(** A complex selector, rightmost compound first. *)
Definition Complex : Type := (list Simple * list (Combinator * list Simple))%type.

Definition is_ident_char (c : ascii) : bool :=
  is_letter c || is_digit c || Ascii.eqb c "-" || Ascii.eqb c "_"
  || (128 <=? nat_of_ascii c)%nat.

(** Up to six hexadecimal digits of an escape. *)
Fixpoint read_hex (n : nat) (acc : Z) (s : string) : Z * string :=
  match n, s with
  | S n', String c s' =>
      match digit_value c with
      | Some d => if d <? 16 then read_hex n' (16 * acc + d) s' else (acc, s)
      | None => (acc, s)
      end
  | _, _ => (acc, s)
  end.

(** The character that a backslash introduces, and the rest. *)
Definition read_escape (s : string) : option (ascii * string) :=
  match s with
  | EmptyString => None
  | String c s' =>
      match digit_value c with
      | Some d =>
          if d <? 16 then
            let '(code, rest) := read_hex 6 0 s in
            let rest' :=
              match rest with
              | String w r => if is_space w then r else rest
              | _ => rest
              end in
            if (0 <? code) && (code <? 256)
            then Some (ascii_of_nat (Z.to_nat code), rest') else None
          else Some (c, s')
      | None => Some (c, s')
      end
  end.

(** The characters of an identifier (or, with [stop], of a quoted string). *)
Fixpoint read_chars (fuel : nat) (stop : option ascii) (s : string)
  : option (string * string) :=
  match fuel with
  | O => None
  | S fuel' =>
      match s with
      | EmptyString => match stop with None => Some (EmptyString, s) | Some _ => None end
      | String c s' =>
          if Ascii.eqb c (ascii_of_nat 92) then
            '(x, rest) ← read_escape s';
            '(more, rest') ← read_chars fuel' stop rest;
            Some (String x more, rest')
          else
            match stop with
            | Some q =>
                if Ascii.eqb c q then Some (EmptyString, s')
                else '(more, rest') ← read_chars fuel' stop s';
                     Some (String c more, rest')
            | None =>
                if is_ident_char c
                then '(more, rest') ← read_chars fuel' stop s';
                     Some (String c more, rest')
                else Some (EmptyString, s)
            end
      end
  end.

(** An identifier: not empty, and no digit in front unless escaped. *)
Definition read_ident (s : string) : option (string * string) :=
  match s with
  | String c _ =>
      if is_digit c then None
      else
        '(name, rest) ← read_chars (S (String.length s)) None s;
        if String.eqb name EmptyString then None else Some (name, rest)
  | EmptyString => None
  end.

Definition read_number (s : string) : option (nat * string) :=
  (fix go (fuel : nat) (acc : option nat) (s : string) : option (nat * string) :=
     match fuel, s with
     | S fuel', String c s' =>
         if is_digit c
         then go fuel' (Some (10 * default 0%nat acc + (nat_of_ascii c - 48))%nat) s'
         else n ← acc; Some (n, s)
     | _, _ => n ← acc; Some (n, s)
     end) (S (String.length s)) None s.

(** One simple selector after the type selector. *)
Definition read_simple (s : string) : option (Simple * string) :=
  match s with
  | String "#" s' => '(i, rest) ← read_ident s'; Some (SId i, rest)
  | String "." s' => '(c, rest) ← read_ident s'; Some (SClass c, rest)
  | String "[" s' =>
      '(name, rest) ← read_ident s';
      '(op, rest1) ←
        match rest with
        | String "=" r => Some (AttrEquals, r)
        | String "^" (String "=" r) => Some (AttrPrefix, r)
        | String "*" (String "=" r) => Some (AttrContains, r)
        | _ => None
        end;
      match rest1 with
      | String q r =>
          if Ascii.eqb q (ascii_of_nat 34) then
            '(val, rest2) ← read_chars (S (String.length r)) (Some q) r;
            match rest2 with
            | String "]" rest3 => Some (SAttr op name val, rest3)
            | _ => None
            end
          else None
      | _ => None
      end
  | String ":" s' =>
      rest ← strip_prefix "nth-child(" s';
      '(n, rest1) ← read_number rest;
      match rest1 with
      | String ")" rest2 => Some (SNthChild n, rest2)
      | _ => None
      end
  | _ => None
  end.

Definition starts_simple (s : string) : bool :=
  match s with
  | String c _ =>
      Ascii.eqb c "#" || Ascii.eqb c "." || Ascii.eqb c "[" || Ascii.eqb c ":"
  | _ => false
  end.

Fixpoint read_simples (fuel : nat) (s : string) : option (list Simple * string) :=
  match fuel with
  | O => None
  | S fuel' =>
      if starts_simple s then
        '(x, rest) ← read_simple s;
        '(xs, rest') ← read_simples fuel' rest;
        Some (x :: xs, rest')
      else Some ([], s)
  end.

Definition read_compound (s : string) : option (list Simple * string) :=
  match s with
  | String c _ =>
      if starts_simple s then
        '(xs, rest) ← read_simples (S (String.length s)) s;
        Some (xs, rest)
      else
        '(t, rest) ← read_ident s;
        '(xs, rest') ← read_simples (S (String.length rest)) rest;
        Some (STag t :: xs, rest')
  | EmptyString => None
  end.

(** The compounds of a complex selector, leftmost first, each with the
    combinator that precedes it. *)
Fixpoint read_rest (fuel : nat) (s : string)
  : option (list (Combinator * list Simple)) :=
  match fuel with
  | O => None
  | S fuel' =>
      match s with
      | EmptyString => Some []
      | String c _ =>
          if is_space c || Ascii.eqb c ">" then
            let s1 := trimStart s in
            let '(comb, s2) :=
              match s1 with
              | String ">" r => (Child, trimStart r)
              | _ => (Descendant, s1)
              end in
            '(compound, rest) ← read_compound s2;
            more ← read_rest fuel' rest;
            Some ((comb, compound) :: more)
          else None
      end
  end.

Definition parse_selector (s : string) : option Complex :=
  '(first, rest) ← read_compound s;
  more ← read_rest (S (String.length rest)) rest;
  (* turn "leftmost first" into "rightmost first" *)
  Some (fold_left
          (fun (acc : Complex) (step : Combinator * list Simple) =>
             let '(last, before) := acc in
             (step.2, (step.1, last) :: before))
          more (first, [])).

(** *** Matching *)

Definition parent_path (p : Path) : option Path := head (ancestors_of p).

(** Position among the element children of the parent, from 1. *)
Definition child_position (root : DomNode) (p : Path) : nat :=
  match parent_path p with
  | None => 1
  | Some q => index_plus_1 p (el_children root q)
  end.

Definition matches_simple (root : DomNode) (p : Path) (x : Simple) : bool :=
  match x with
  | STag t => String.eqb (toLowerCase (el_tag root p)) (toLowerCase t)
  | SId i => bool_decide (el_attr root p "id" = Some i)
  | SClass c => bool_decide (c ∈ words (default EmptyString (el_attr root p "class")))
  | SAttr op name val =>
      match el_attr root p name with
      | None => false
      | Some actual =>
          match op with
          | AttrEquals => String.eqb actual val
          | AttrPrefix => negb (String.eqb val EmptyString) && startsWith actual val
          | AttrContains => negb (String.eqb val EmptyString) && includes actual val
          end
      end
  | SNthChild n => (child_position root p =? n)%nat
  end.

Definition matches_compound (root : DomNode) (p : Path) (c : list Simple) : bool :=
  forallb (matches_simple root p) c.

Fixpoint matches_left (root : DomNode) (before : list (Combinator * list Simple))
    (p : Path) : bool :=
  match before with
  | [] => true
  | (comb, c) :: before' =>
      let ok q := matches_compound root q c && matches_left root before' q in
      match comb with
      | Child => match parent_path p with Some q => ok q | None => false end
      | Descendant => existsb ok (ancestors_of p)
      end
  end.

Definition matches_complex (root : DomNode) (cx : Complex) (p : Path) : bool :=
  matches_compound root p cx.1 && matches_left root cx.2 p.

(** [document.querySelectorAll(sel)]; [None] for a string outside the
    fragment, on which the browser raises a syntax error. *)
Definition query (root : DomNode) (sel : string) : option (list Path) :=
  cx ← parse_selector sel;
  Some (List.filter (matches_complex root cx) (all_elements root)).

(** *** XPath: [//tag[text()="..."]] and [//tag[contains(text(),"...")]] *)

Inductive XPathTest : Type :=
| TextEquals (lit : string)
| TextContains (lit : string).

Fixpoint until_char (stop : ascii) (s : string) : option (string * string) :=
  match s with
  | EmptyString => None
  | String c s' =>
      if Ascii.eqb c stop then Some (EmptyString, s')
      else '(before, after) ← until_char stop s'; Some (String c before, after)
  end.

Definition parse_xpath (s : string) : option (string * XPathTest) :=
  s1 ← strip_prefix "//" s;
  '(tag, s2) ← until_char "[" s1;
  if String.eqb tag EmptyString then None
  else
    match strip_prefix "text()=" s2 with
    | Some s3 =>
        s4 ← strip_prefix dq s3;
        '(lit, s5) ← until_char (ascii_of_nat 34) s4;
        if String.eqb s5 "]" then Some (tag, TextEquals lit) else None
    | None =>
        s3 ← strip_prefix "contains(text()," s2;
        s4 ← strip_prefix dq (trimStart s3);
        '(lit, s5) ← until_char (ascii_of_nat 34) s4;
        if String.eqb s5 ")]" then Some (tag, TextContains lit) else None
    end.

Definition text_children (root : DomNode) (p : Path) : list string :=
  match node_at root p with
  | Some (Element _ _ kids) =>
      omap (fun k => match k with Text d => Some d | _ => None end) kids
  | _ => []
  end.

Definition xpath_holds (root : DomNode) (t : XPathTest) (p : Path) : bool :=
  match t with
  | TextEquals lit => existsb (String.eqb lit) (text_children root p)
  | TextContains lit =>
      String.eqb lit EmptyString
      || includes (default EmptyString (head (text_children root p))) lit
  end.

(** [document.evaluate(xpath, document, ...)] as an ordered snapshot. *)
Definition xpath (root : DomNode) (s : string) : option (list Path) :=
  '(tag, t) ← parse_xpath s;
  Some (List.filter
          (fun p => String.eqb (toLowerCase (el_tag root p)) tag && xpath_holds root t p)
          (all_elements root)).

(** *** The document that the script sees *)

(** [document.body]: the first [body] child of the root element. *)
Definition body_of (root : DomNode) : option Path :=
  head (List.filter (fun p => String.eqb (toLowerCase (el_tag root p)) "body")
          (el_children root [])).

(** A page: the tree, what lies under each point, and the focus. *)
Record Page := {
  root : DomNode;
  hit : Z -> Z -> option Path;
  focus : option Path
}.

Definition document_of (pg : Page) : Document Path := {|
  body := body_of (root pg);
  elementFromPoint := hit pg;
  activeElement := focus pg;
  id := fun p => default EmptyString (el_attr (root pg) p "id");
  tagName := fun p => toUpperCase (el_tag (root pg) p);
  className := fun p => Some (default EmptyString (el_attr (root pg) p "class"));
  getAttribute := el_attr (root pg);
  textContent := el_text (root pg);
  ancestors := ancestors_of;
  children := el_children (root pg);
  querySelectorAll := query (root pg);
  evaluate := xpath (root pg)
|}.

End Dom.

(** ** The agent handler: executing and recording one action

    [executeAction] (lines 1794-2281) and [recordAction] (lines 2923-3188)
    of [src/unnamed/part_001].  The driver calls of the cases of the
    [switch] are not followed one by one: a case that calls the driver
    either completes with a result or raises.  The cases [wait] and
    [screenshot] make no driver call. *)

Module Agent.
Import JsString Effects JsValue.

(** An action of the agent: its [type] and the remaining properties. *)
Record AgentAction := {
  action_type : string;
  action_fields : list (string * JSValue)
}.

Record ActionExecutionResult := {
  success : bool;
  error : option string
}.

(** An entry of the session.  [r_selector] is [None] when the entry has
    no [selector] property and [Some None] when it is [null]. *)
Record RecordedAction := {
  r_action : string;
  r_timestamp : string;
  r_success : bool;
  r_selector : option (option string);
  r_details : list (string * JSValue)
}.

(** What running one case of the [switch] against the page comes to: the
    values assigned to [selector] and [targetElement] on the way, and the
    result, or the error that a driver call raised. *)
Record Performed := {
  p_selector : option string;
  p_targetElement : option string;
  p_outcome : Res ActionExecutionResult
}.

(** The browser driver and the file system during one [executeAction]. *)
Record Driver := {
  (** the error of [fs.mkdirSync], if it raises *)
  mkdir_error : option string;
  (** the error of the first and of the second [page.screenshot] *)
  before_screenshot_error : option string;
  after_screenshot_error : option string;
  perform : AgentAction -> Performed;
  (** [new Date().toISOString()] *)
  timestamp : string;
  (** [this.getActiveElementSelector()] and [this.generateSelector(x, y)]
      on the page as it is when the action is recorded *)
  active_selector : option string;
  selector_at : JSValue -> JSValue -> option string;
  (** the [page.evaluate] that reads the cursor position *)
  cursor_position : Res (JSValue * JSValue)
}.

Inductive Event : Type :=
| EvScreenshot (file : string)
| EvDispatch (type : string)
| EvLog (msg : string)
| EvRecord (type : string).

Record AgentState := {
  recordedActions : list RecordedAction;
  trace : list Event
}.

Local Abbreviation M := (Effects.M AgentState).

Definition emit (e : Event) : M unit :=
  fun st => (Ok tt, {| recordedActions := recordedActions st;
                       trace := trace st ++ [e] |}).

Definition push (r : RecordedAction) : M unit :=
  fun st => (Ok tt, {| recordedActions := recordedActions st ++ [r];
                       trace := trace st |}).

Definition lift {A} (r : Res A) : M A := fun st => (r, st).

Definition raise_if (e : option string) : M unit :=
  match e with
  | Some msg => throw msg
  | None => ret tt
  end.

Definition supported_types : list string :=
  ["click"; "double_click"; "doubleClick"; "type"; "keypress"; "scroll"; "drag";
   "move"; "wait"; "screenshot"; "function"; "key"].

Section Handler.
Variable drv : Driver.

(** *** recordAction *)

Definition with_selector (r : RecordedAction) (name : string)
    (sel : option string) (details : list (string * JSValue)) : RecordedAction :=
  {| r_action := name; r_timestamp := r_timestamp r; r_success := r_success r;
     r_selector := Some sel; r_details := details |}.

Definition with_details (r : RecordedAction) (name : string)
    (details : list (string * JSValue)) : RecordedAction :=
  {| r_action := name; r_timestamp := r_timestamp r; r_success := r_success r;
     r_selector := r_selector r; r_details := details |}.

(** The body of the [try] block; [None] is the early [return] that skips a
    screenshot action. *)
Definition record_entry (action : AgentAction) (result : ActionExecutionResult)
    (selector : option string) : M (option RecordedAction) :=
  let ty := action_type action in
  let fields := action_fields action in
  let recordedAction :=
    {| r_action := ty; r_timestamp := timestamp drv; r_success := success result;
       r_selector := None; r_details := [] |} in
  if bool_decide (ty ∈ ["click"; "double_click"; "doubleClick"]) then
    let x := get_field "x" fields in
    let y := get_field "y" fields in
    let button := field_or "button" (JStr "left") fields in
    emit (EvLog "Recording click action");;
    mret (Some (with_selector recordedAction ty selector
                  [("button", button); ("x", x); ("y", y)]))
  else if String.eqb ty "type" then
    mret (Some (with_selector recordedAction ty (active_selector drv)
                  [("text", get_field "text" fields)]))
  else if bool_decide (ty ∈ ["keypress"; "key"]) then
    let keys :=
      match String.eqb ty "keypress", get_field "keys" fields with
      | true, JArr ks => JArr ks
      | _, _ =>
          match String.eqb ty "key", get_field "text" fields with
          | true, JStr t => JArr [JStr t]
          | _, _ => JArr []
          end
      end in
    mret (Some (with_selector recordedAction "keypress" (active_selector drv)
                  [("keys", keys)]))
  else if String.eqb ty "scroll" then
    let scroll_x := field_or "scroll_x" (JNum 0) fields in
    let scroll_y := field_or "scroll_y" (JNum 0) fields in
    cursorPosition ← lift (cursor_position drv);
    let '(cx, cy) := cursorPosition in
    mret (Some (with_selector recordedAction "scrollElement" (selector_at drv cx cy)
                  [("deltaX", scroll_x); ("deltaY", scroll_y); ("x", cx); ("y", cy)]))
  else if String.eqb ty "drag" then
    match get_field "path" fields with
    | JArr ((startPoint :: _ :: _) as path) =>
        let endPoint := List.last path JUndefined in
        sx ← lift (prop startPoint "x");
        sy ← lift (prop startPoint "y");
        ex ← lift (prop endPoint "x");
        ey ← lift (prop endPoint "y");
        mret (Some (with_selector recordedAction ty (selector_at drv sx sy)
                      [("start", JObj [("x", sx); ("y", sy)]);
                       ("end", JObj [("x", ex); ("y", ey)]);
                       ("path", JArr path);
                       ("targetSelector",
                        match selector_at drv ex ey with
                        | Some s => JStr s
                        | None => JNull
                        end)]))
    | _ => mret (Some recordedAction)
    end
  else if String.eqb ty "move" then
    let x := get_field "x" fields in
    let y := get_field "y" fields in
    mret (Some (with_selector recordedAction "hover" (selector_at drv x y)
                  [("x", x); ("y", y)]))
  else if String.eqb ty "wait" then
    mret (Some (with_details recordedAction ty [("duration", JNum 1000)]))
  else if String.eqb ty "function" then
    let name := get_field "name" fields in
    let args := field_or "arguments" (JObj []) fields in
    if is_string name "goto" && typeof_object args && negb (nullish args)
       && has_field "url" args
    then mret (Some (with_details recordedAction "goto"
                       [("url", get_field "url" (own_entries args))]))
    else if is_string name "back" then
      mret (Some (with_details recordedAction "goBack" []))
    else if is_string name "forward" then
      mret (Some (with_details recordedAction "goForward" []))
    else if is_string name "reload" then
      mret (Some (with_details recordedAction "reload" []))
    else mret (Some recordedAction)
  else if String.eqb ty "screenshot" then mret None
  else mret (Some recordedAction).

(** Whether the body raises: the cursor read of a scroll fails, or an end
    point of a drag path is [null] or [undefined]. *)
Definition recording_raises (action : AgentAction) : bool :=
  if String.eqb (action_type action) "scroll" then
    match cursor_position drv with
    | Throw _ => true
    | Ok _ => false
    end
  else if String.eqb (action_type action) "drag" then
    match get_field "path" (action_fields action) with
    | JArr ((startPoint :: _ :: _) as path) =>
        nullish startPoint || nullish (List.last path JUndefined)
    | _ => false
    end
  else false.

Definition recordAction (action : AgentAction) (result : ActionExecutionResult)
    (capturedElement selector : option string) : M unit :=
  emit (EvRecord (action_type action));;
  try_catch
    (entry ← record_entry action result selector;
     match entry with
     | Some recordedAction => push recordedAction
     | None => mret tt
     end)
    (fun e => emit (EvLog ("Error recording action: " +:+ e))).

(** *** executeAction *)

(** The [switch]: a case for each supported type, and the default.  The
    cases [wait] (a pause of one second) and [screenshot] (left to the
    agent client) set the result and touch neither the page nor
    [selector] and [targetElement]. *)
Definition dispatch (action : AgentAction) : Performed :=
  if bool_decide (action_type action ∈ ["wait"; "screenshot"]) then
    {| p_selector := None; p_targetElement := None;
       p_outcome := Ok {| success := true; error := None |} |}
  else if bool_decide (action_type action ∈ supported_types) then perform drv action
  else {| p_selector := None; p_targetElement := None;
          p_outcome := Ok {| success := false;
                             error := Some ("Unsupported action type: "
                                            +:+ action_type action) |} |}.

Definition executeAction (action : AgentAction) : M ActionExecutionResult :=
  raise_if (mkdir_error drv);;
  raise_if (before_screenshot_error drv);;
  emit (EvScreenshot "before.png");;
  let performed := dispatch action in
  result ←
    finally
      (try_catch
         (emit (EvDispatch (action_type action));;
          lift (p_outcome performed))
         (fun errorMessage =>
            emit (EvLog ("Error executing action " +:+ action_type action +:+ ": "
                         +:+ errorMessage));;
            mret {| success := false; error := Some errorMessage |}))
      (raise_if (after_screenshot_error drv);;
       emit (EvScreenshot "after.png"));
  recordAction action result (p_targetElement performed) (p_selector performed);;
  mret result.

End Handler.

End Agent.

(** ** Example inputs *)

Module Examples.
Import JsString Effects JsValue.

(** *** Mocked model clients *)

Definition response_with (tcs : option (list Inference.ToolCall)) (payload : JSValue)
    (u : option Inference.LLMUsage) : Inference.LLMResponse :=
  {| Inference.data := payload;
     Inference.usage := u;
     Inference.choices :=
       Some [ {| Inference.message := Some {| Inference.tool_calls := tcs |} |} ] |}.

Definition click_call : Inference.ToolCall :=
  {| Inference.function_name := "doAction";
     Inference.function_arguments := "{method:click}" |}.

Definition skip_call : Inference.ToolCall :=
  {| Inference.function_name := "skipSection";
     Inference.function_arguments := "{}" |}.

Definition steady_clock : nat -> Z := fun k => 100 * Z.of_nat k.

(** No tool call on the first two calls, one on the third. *)
Definition answers_third : Inference.World :=
  {| Inference.responses := fun k =>
       match k with
       | 2%nat => response_with (Some [click_call]) JUndefined None
       | _ => response_with (Some []) JUndefined None
       end;
     Inference.clock := steady_clock |}.

Definition never_answers : Inference.World :=
  {| Inference.responses := fun _ => response_with None JUndefined None;
     Inference.clock := steady_clock |}.

Definition skips : Inference.World :=
  {| Inference.responses := fun _ => response_with (Some [skip_call]) JUndefined None;
     Inference.clock := steady_clock |}.

Definition mock_parse (s : string) : option JSValue :=
  if String.eqb s "{method:click}" then Some (JObj [("method", JStr "click")])
  else None.

Definition act_params : Inference.ActParams :=
  {| Inference.logInferenceToFile := false; Inference.onActMetrics := true |}.

(** Every stage answers with 10 prompt and 5 completion tokens after
    100 ms. *)
Definition staged : Inference.World :=
  {| Inference.responses := fun _ =>
       response_with None
         (JObj [("title", JStr "x"); ("prompt_tokens", JNum 7)])
         (Some {| Inference.prompt_tokens := 10; Inference.completion_tokens := 5;
                  Inference.total_tokens := 15 |});
     Inference.clock := fun k => 50 * Z.of_nat (k / 2) + 100 * Z.of_nat (k mod 2) |}.

(** The payload [{}]. *)
Definition empty_payload : Inference.World :=
  {| Inference.responses := fun _ => response_with None (JObj []) None;
     Inference.clock := steady_clock |}.

(** *** Flat accessibility snapshots *)

Definition ax (id role : string) (name parent : option string)
    (kids : option (list string)) : A11y.AccessibilityNode :=
  {| A11y.role := role; A11y.nodeId := id; A11y.name := name;
     A11y.description := None; A11y.value := None; A11y.backendDOMNodeId := None;
     A11y.parentId := parent; A11y.childIds := kids; A11y.xpath := None |}.

(** An icon button, [<button><span><i></i></span></button>]: a button over
    a generic node over an unnamed, childless generic node. *)
Definition button_over_generic : list A11y.AccessibilityNode :=
  [ ax "1" "button" None None (Some ["2"]);
    ax "2" "generic" None (Some "1") (Some ["3"]);
    ax "3" "generic" None (Some "2") None ].

(** A generic root over a button that has a childless generic child and a
    link. *)
Definition generic_over_button : list A11y.AccessibilityNode :=
  [ ax "1" "generic" None None (Some ["2"]);
    ax "2" "button" None (Some "1") (Some ["3"; "4"]);
    ax "3" "generic" (Some "x") (Some "2") None;
    ax "4" "link" (Some "l") (Some "2") None ].

(** A generic root over a single named link. *)
Definition generic_over_link : A11y.TreeNode :=
  A11y.Node (ax "1" "generic" None None None)
    (Some [A11y.Node (ax "2" "link" (Some "home") None None) None]).

(** *** Drivers *)

Definition succeeds : Agent.Performed :=
  {| Agent.p_selector := Some "#save"; Agent.p_targetElement := None;
     Agent.p_outcome := Effects.Ok {| Agent.success := true; Agent.error := None |} |}.

Definition fails : Agent.Performed :=
  {| Agent.p_selector := None; Agent.p_targetElement := None;
     Agent.p_outcome := Effects.Throw "Target closed" |}.

Definition driver (before : option string) (performed : Agent.Performed) : Agent.Driver :=
  {| Agent.mkdir_error := None;
     Agent.before_screenshot_error := before;
     Agent.after_screenshot_error := None;
     Agent.perform := fun _ => performed;
     Agent.timestamp := "2025-01-01T00:00:00.000Z";
     Agent.active_selector := Some "body";
     Agent.selector_at := fun _ _ => Some "#save";
     Agent.cursor_position := Effects.Ok (JNum 0, JNum 0) |}.

Definition click_action : Agent.AgentAction :=
  {| Agent.action_type := "click";
     Agent.action_fields := [("x", JNum 10); ("y", JNum 20)] |}.

(** A driver whose second capture fails. *)
Definition driver_without_after (performed : Agent.Performed) : Agent.Driver :=
  {| Agent.mkdir_error := None;
     Agent.before_screenshot_error := None;
     Agent.after_screenshot_error := Some "Target closed";
     Agent.perform := fun _ => performed;
     Agent.timestamp := "2025-01-01T00:00:00.000Z";
     Agent.active_selector := Some "body";
     Agent.selector_at := fun _ _ => Some "#save";
     Agent.cursor_position := Effects.Ok (JNum 0, JNum 0) |}.

Definition fresh_session : Agent.AgentState :=
  {| Agent.recordedActions := []; Agent.trace := [] |}.

(** *** Pages *)

(** [<html><head></head><body><div id="main">
      <button id="save" data-testid="save-btn">Save</button>
      <input id="radix-:r3:"></div></body></html>] *)
Definition form_tree : Dom.DomNode :=
  Dom.Element "html" []
    [ Dom.Element "head" [] [];
      Dom.Element "body" []
        [ Dom.Element "div" [("id", "main")]
            [ Dom.Element "button" [("id", "save"); ("data-testid", "save-btn")]
                [Dom.Text "Save"];
              Dom.Element "input" [("id", "radix-:r3:")] [] ] ] ].

Definition html_element : Dom.Path := [].
Definition body_element : Dom.Path := [1%nat].
Definition save_button : Dom.Path := [1%nat; 0%nat; 0%nat].
Definition radix_input : Dom.Path := [1%nat; 0%nat; 1%nat].

(** The page with the element [target] under every point and in focus. *)
Definition form_page (target : Dom.Path) : Selector.Document Dom.Path :=
  Dom.document_of
    {| Dom.root := form_tree; Dom.hit := fun _ _ => Some target; Dom.focus := Some target |}.

(** [<html><head></head><body><div><span>Hello</span></div><div>Hello</div>
    </body></html>] *)
Definition text_tree : Dom.DomNode :=
  Dom.Element "html" []
    [ Dom.Element "head" [] [];
      Dom.Element "body" []
        [ Dom.Element "div" [] [Dom.Element "span" [] [Dom.Text "Hello"]];
          Dom.Element "div" [] [Dom.Text "Hello"] ] ].

Definition outer_div : Dom.Path := [1%nat; 0%nat].
Definition plain_div : Dom.Path := [1%nat; 1%nat].

Definition text_page : Selector.Document Dom.Path :=
  Dom.document_of
    {| Dom.root := text_tree; Dom.hit := fun _ _ => Some outer_div; Dom.focus := None |}.

End Examples.

(** * Further functions of the modules *)

(** ** Conversions of JavaScript values *)

Module JsConvert.
Import JsString JsValue.

(** [String(v)]; for a value that is neither [null] nor [undefined] this
    is [v.toString()]. *)
Fixpoint toString (v : JSValue) : string :=
  match v with
  | JUndefined => "undefined"
  | JNull => "null"
  | JBool true => "true"
  | JBool false => "false"
  | JNum n => pretty n
  | JStr s => s
  | JArr items =>
      join ","
        (map (fun item =>
                match item with
                | JUndefined | JNull => EmptyString
                | _ => toString item
                end) items)
  | JObj _ => "[object Object]"
  end.

(** [v?.toString()] *)
Definition toString_opt (v : JSValue) : option string :=
  if nullish v then None else Some (toString v).

(** The strings that [for (const char of text)] yields. *)
Fixpoint characters (text : string) : list string :=
  match text with
  | EmptyString => []
  | String c rest => String c EmptyString :: characters rest
  end.

End JsConvert.

(** ** The inference pipeline: observe

    [observe] (lines 626-788 of [src/unnamed/part_001]). *)

Module Observe.
Import JsString Effects JsValue JsConvert Inference.

Local Abbreviation M := (Effects.M St).

Section Observe.
Variable w : World.
(** [Number(v)] *)
Variable Number : JSValue -> JSValue.

Definition lift {A} (r : Res A) : M A := fun st => (r, st).

(** The callback of [elements.map]. *)
Definition parsed_element (returnAction : bool) (el : JSValue) : Res JSValue :=
  if nullish el then Throw "TypeError"
  else
    let fields := own_entries el in
    let base :=
      [("elementId", Number (get_field "elementId" fields));
       ("description", JStr (toString (get_field "description" fields)))] in
    if returnAction then
      Ok (JObj (object_literal (JObj base)
                  [("method", JStr (toString (get_field "method" fields)));
                   ("arguments", get_field "arguments" fields)]))
    else Ok (JObj base).

(** [elements.map(callback)]: the first callback that raises ends it. *)
Fixpoint map_elements (returnAction : bool) (elements : list JSValue)
  : Res (list JSValue) :=
  match elements with
  | [] => Ok []
  | el :: rest =>
      match parsed_element returnAction el with
      | Throw e => Throw e
      | Ok parsed =>
          match map_elements returnAction rest with
          | Throw e => Throw e
          | Ok others => Ok (parsed :: others)
          end
      end
  end.

(** [observeData.elements?.map(...) ?? []] *)
Definition parsed_elements (returnAction : bool) (observeData : JSValue)
  : Res (list JSValue) :=
  if nullish observeData then Throw "TypeError"
  else
    match get_field "elements" (own_entries observeData) with
    | JUndefined | JNull => Ok []
    | JArr elements => map_elements returnAction elements
    | _ => Throw "TypeError"
    end.

Definition observe (returnAction logInferenceToFile : bool)
  : M (list (string * JSValue)) :=
  r ← timed_call w logInferenceToFile "observe_summary" "observe_call";
  let '(rawResponse, usageTimeMs) := r in
  let observeData := data rawResponse in
  let observeUsage := usage rawResponse in
  let promptTokens := prompt_or_0 observeUsage in
  let completionTokens := completion_or_0 observeUsage in
  when logInferenceToFile
    (emit (EvWriteFile "observe_summary" "observe_response");;
     emit (EvSummary "observe" "observe" promptTokens completionTokens usageTimeMs));;
  parsedElements ← lift (parsed_elements returnAction observeData);
  mret [("elements", JArr parsedElements);
        ("prompt_tokens", JNum promptTokens);
        ("completion_tokens", JNum completionTokens);
        ("inference_time_ms", JNum usageTimeMs)].

End Observe.

(** The shape of an output element. *)
Definition parsed_from (Number : JSValue -> JSValue) (returnAction : bool)
    (el parsed : JSValue) : Prop :=
  let fields := own_entries el in
  parsed =
  JObj ([("elementId", Number (get_field "elementId" fields));
         ("description", JStr (toString (get_field "description" fields)))]
        ++ if returnAction
           then [("method", JStr (toString (get_field "method" fields)));
                 ("arguments", get_field "arguments" fields)]
           else []).

End Observe.

(** ** The accessibility-tree builder: views of a tree *)

Module A11yViews.
Import JsString A11y.

(** The entries of a tree, the node's own first. *)
Fixpoint entries (t : TreeNode) : list AccessibilityNode :=
  match t with
  | Node n children =>
      n :: match children with
           | Some cs =>
               (fix each (l : list TreeNode) : list AccessibilityNode :=
                  match l with
                  | [] => []
                  | c :: r => entries c ++ each r
                  end) cs
           | None => []
           end
  end.

(** What the first pass stores of an input entry. *)
Definition stored_from (x n : AccessibilityNode) : Prop :=
  nodeId n = nodeId x /\ role n = role x /\
  backendDOMNodeId n = backendDOMNodeId x /\
  (name n = name x \/ name n = None) /\
  description n = truthy_string (description x) /\
  value n = truthy_string (value x) /\
  xpath n = truthy_string (xpath x) /\
  parentId n = None /\ childIds n = None.

Definition from_input (nodes : list AccessibilityNode) (m : gmap string Stored) : Prop :=
  forall k n ch, m !! k = Some (n, ch) -> exists x, x ∈ nodes /\ stored_from x n.

End A11yViews.

(** ** Fetching the accessibility tree

    [getAccessibilityTree] (lines 943-1094), [getXPathByResolvedObjectId]
    (lines 1148-1162) and [findScrollableElementIds] (lines 1182-1225) of
    [src/unnamed/part_001]. *)

Module AxTree.
Import JsString Effects A11y.

(** A node of [Accessibility.getFullAXTree]; [ax_role] is
    [node.role?.value], and likewise for the name, the description and
    the value. *)
Record AXNode := {
  ax_role : option string;
  ax_name : option string;
  ax_description : option string;
  ax_value : option string;
  ax_nodeId : string;
  ax_backendDOMNodeId : option Z;
  ax_parentId : option string;
  ax_childIds : option (list string);
  ax_xpath : option string
}.

(** The browser behind the CDP session.  A call resolves with [Ok] or
    rejects with the message of its error. *)
Record Browser := {
  (** [page.enableCDP("Accessibility")] and [page.disableCDP("Accessibility")] *)
  enableCDP : Res unit;
  disableCDP : Res unit;
  (** [window.getScrollableElementXpaths()] *)
  scrollable_xpaths : Res (list string);
  (** [Runtime.evaluate] of [document.evaluate(xpath, ...)]: [result?.objectId] *)
  evaluate_xpath : string -> Res (option string);
  (** [DOM.describeNode]: [node?.backendNodeId] *)
  describeNode : string -> Res (option Z);
  (** [Accessibility.getFullAXTree] *)
  getFullAXTree : Res (list AXNode);
  (** [DOM.resolveNode]: [object.objectId], if there is an object with one *)
  resolveNode : Z -> Res (option string);
  (** [Runtime.callFunctionOn] with [getNodePath]: [result.value] *)
  node_path : string -> Res (option string);
  (** [Runtime.callFunctionOn] with the tag name function: [result?.value] *)
  tag_name : string -> Res (option string)
}.

(** The calls that switch the accessibility domain on and off, and the
    lines that are logged. *)
Inductive Event : Type :=
| EnableCDP
| DisableCDP
| Log (message : string) (level : Z).

Local Abbreviation M := (Effects.M (list Event)).

Definition lift {A} (r : Res A) : M A := fun events => (r, events).
Definition emit (e : Event) : M unit := fun events => (Ok tt, events ++ [e]).
Definition logger (message : string) (level : Z) : M unit := emit (Log message level).

Section Fetch.
Variable browser : Browser.

(** [findScrollableElementIds(page)] *)
Fixpoint scrollable_ids (xpaths : list string) (ids : gset Z) : Res (gset Z) :=
  match xpaths with
  | [] => Ok ids
  | xpath :: rest =>
      if String.eqb xpath EmptyString then scrollable_ids rest ids
      else
        match evaluate_xpath browser xpath with
        | Throw e => Throw e
        | Ok objectId =>
            match truthy_string objectId with
            | Some objectId =>
                match describeNode browser objectId with
                | Throw e => Throw e
                | Ok (Some backendNodeId) =>
                    scrollable_ids rest
                      (if Z.eqb backendNodeId 0 then ids else {[ backendNodeId ]} ∪ ids)
                | Ok None => scrollable_ids rest ids
                end
            | None => scrollable_ids rest ids
            end
        end
  end.

Definition findScrollableElementIds : Res (gset Z) :=
  match scrollable_xpaths browser with
  | Throw e => Throw e
  | Ok xpaths => scrollable_ids xpaths ∅
  end.

(** [getXPathByResolvedObjectId(client, objectId)]: [result.value || EmptyString] *)
Definition getXPathByResolvedObjectId (objectId : string) : Res string :=
  match node_path browser objectId with
  | Throw e => Throw e
  | Ok value => Ok (default EmptyString value)
  end.

Definition with_role (node : AXNode) (r : option string) : AXNode :=
  {| ax_role := r; ax_name := ax_name node; ax_description := ax_description node;
     ax_value := ax_value node; ax_nodeId := ax_nodeId node;
     ax_backendDOMNodeId := ax_backendDOMNodeId node; ax_parentId := ax_parentId node;
     ax_childIds := ax_childIds node; ax_xpath := ax_xpath node |}.

Definition with_xpath (node : AXNode) (x : string) : AXNode :=
  {| ax_role := ax_role node; ax_name := ax_name node;
     ax_description := ax_description node;
     ax_value := ax_value node; ax_nodeId := ax_nodeId node;
     ax_backendDOMNodeId := ax_backendDOMNodeId node; ax_parentId := ax_parentId node;
     ax_childIds := ax_childIds node; ax_xpath := Some x |}.

(** Steps 1 to 3 of the loop body for a node with a [backendDOMNodeId];
    [role] is the role that the node had when the body began. *)
Definition resolve_node (role : option string) (backendDOMNodeId : Z) (node : AXNode)
  : M AXNode :=
  try_catch
    (object ← lift (resolveNode browser backendDOMNodeId);
     match truthy_string object with
     | Some objectId =>
         node ←
           try_catch
             (xpath ← lift (getXPathByResolvedObjectId objectId);
              mret (with_xpath node xpath))
             (fun xpathError =>
                logger ("Error fetching XPath for node " +:+ pretty backendDOMNodeId) 2;;
                mret node);
         if bool_decide (role = Some "generic" \/ role = Some "none") then
           try_catch
             (result ← lift (tag_name browser objectId);
              match truthy_string result with
              | Some tagName => mret (with_role node (Some tagName))
              | None => mret node
              end)
             (fun tagNameError =>
                logger ("Could not fetch tagName for node "
                        +:+ pretty backendDOMNodeId) 2;;
                mret node)
         else mret node
     | None => mret node
     end)
    (fun resolveError =>
       logger ("Could not resolve DOM node ID " +:+ pretty backendDOMNodeId) 2;;
       mret node).

(** The label of a scrollable node. *)
Definition label_scrollable (scrollableBackendIds : gset Z) (node : AXNode) : AXNode :=
  match ax_backendDOMNodeId node with
  | Some id =>
      if negb (Z.eqb id 0) && bool_decide (id ∈ scrollableBackendIds) then
        let existingRole := default "unknown" (truthy_string (ax_role node)) in
        with_role node (Some ("Scrollable, " +:+ existingRole))
      else node
  | None => node
  end.

(** The body of [for (const node of nodes)]. *)
Definition enrich (scrollableBackendIds : gset Z) (node : AXNode) : M AXNode :=
  let role := ax_role node in
  node ←
    match ax_backendDOMNodeId node with
    | Some id => resolve_node role id node
    | None => mret node
    end;
  mret (label_scrollable scrollableBackendIds node).

Fixpoint enrich_all (scrollableBackendIds : gset Z) (nodes : list AXNode)
  : M (list AXNode) :=
  match nodes with
  | [] => mret []
  | node :: rest =>
      node ← enrich scrollableBackendIds node;
      rest ← enrich_all scrollableBackendIds rest;
      mret (node :: rest)
  end.

(** The entry that the builder is given.  A node without a role reaches
    it with [role] undefined, which the builder compares with role names
    and prints; for both it is the text [undefined]. *)
Definition source (node : AXNode) : AccessibilityNode :=
  {| role := default "undefined" (ax_role node);
     name := ax_name node;
     description := ax_description node;
     value := ax_value node;
     nodeId := ax_nodeId node;
     backendDOMNodeId := ax_backendDOMNodeId node;
     parentId := ax_parentId node;
     childIds := ax_childIds node;
     xpath := ax_xpath node |}.

(** [getAccessibilityTree(page, logger)]; the result is [None] where
    [buildHierarchicalTree] has none. *)
Definition getAccessibilityTree : M (option TreeResult) :=
  emit EnableCDP;;
  lift (enableCDP browser);;
  finally
    (try_catch
       (scrollableBackendIds ← lift findScrollableElementIds;
        nodes ← lift (getFullAXTree browser);
        nodes ← enrich_all scrollableBackendIds nodes;
        mret (buildHierarchicalTree (map source nodes)))
       (fun error =>
          logger "Error getting accessibility tree" 1;;
          throw error))
    (emit DisableCDP;; lift (disableCDP browser)).

End Fetch.

(** What the loop leaves as it is: everything but the role and the XPath. *)
Definition same_links (node node' : AXNode) : Prop :=
  ax_nodeId node' = ax_nodeId node /\
  ax_parentId node' = ax_parentId node /\
  ax_childIds node' = ax_childIds node /\
  ax_backendDOMNodeId node' = ax_backendDOMNodeId node /\
  ax_name node' = ax_name node /\
  ax_description node' = ax_description node /\
  ax_value node' = ax_value node.

Definition is_log (e : Event) : Prop :=
  match e with Log _ _ => True | _ => False end.

End AxTree.

(** ** The XPath of a node

    [getNodePath] (lines 1098-1146 of [src/unnamed/part_001]), the
    function that is sent to the page, on the trees of [Dom].  The nodes
    are attached: each has a [parentNode]. *)

Module NodePath.
Import JsString Dom.

(** [node.nodeName] *)
Definition nodeName (n : DomNode) : string :=
  match n with
  | Text _ => "#text"
  | Element t _ _ => toUpperCase t
  end.

(** [a.nodeType === b.nodeType && a.nodeName === b.nodeName] *)
Definition same_type (a b : DomNode) : bool :=
  match a, b with
  | Text _, Text _ | Element _ _ _, Element _ _ _ =>
      String.eqb (nodeName a) (nodeName b)
  | _, _ => false
  end.

Definition childNodes (n : DomNode) : list DomNode :=
  match n with
  | Element _ _ kids => kids
  | Text _ => []
  end.

(** The loop over the siblings; [current] is the sibling at position
    [target], and [pos] is the position of the head of [siblings].
    [hasSameTypeSiblings] is set where [index] is incremented, so it is
    [true] exactly when the result is not 0. *)
Fixpoint sibling_index (current : DomNode) (target pos : nat) (siblings : list DomNode)
    (index : nat) : nat :=
  match siblings with
  | [] => index
  | sibling :: rest =>
      if same_type sibling current then
        if Nat.eqb pos target then S index
        else sibling_index current target (S pos) rest (S index)
      else sibling_index current target (S pos) rest index
  end.

(** A part of the path: the tag name and the index, 0 for none. *)
Definition Part : Type := string * nat.

(** The [while] loop.  [up] is the path of [current], last index first;
    the path of its [parentElement] is the rest of [up]. *)
Fixpoint parts_from (root : DomNode) (up : list nat) (parts : list Part) : list Part :=
  match node_at root (rev up) with
  | None => parts
  | Some current =>
      let index :=
        match up with
        | i :: above =>
            match node_at root (rev above) with
            | Some parent => sibling_index current i 0 (childNodes parent) 0
            | None => 0%nat
            end
        | [] => 0%nat
        end in
      if String.eqb (toLowerCase (nodeName current)) "html" then ("html", 0%nat) :: parts
      else
        let parts :=
          match current with
          | Text _ => parts
          | Element _ _ _ => (toLowerCase (nodeName current), index) :: parts
          end in
        match up with
        | [] => parts
        | _ :: above => parts_from root above parts
        end
  end.

(** [`${tagName}${pathIndex}`] *)
Definition segment (part : Part) : string :=
  part.1 +:+ if Nat.eqb part.2 0 then EmptyString else "[" +:+ pretty part.2 +:+ "]".

Definition getNodePath_parts (root : DomNode) (el : Path) : list Part :=
  match node_at root el with
  | None => []
  | Some _ => parts_from root (rev el) []
  end.

Definition getNodePath (root : DomNode) (el : Path) : string :=
  match getNodePath_parts root el with
  | [] => EmptyString
  | parts => "/" +:+ join "/" (map segment parts)
  end.

(** *** Following a path of child steps

    What the XPath engine does with [/a/b[2]/c]: a step selects, among
    the child elements with the name, the one at the index, or the first
    one when there is no index. *)

Definition named (tag : string) (n : DomNode) : bool :=
  match n with
  | Element t _ _ => String.eqb (toLowerCase t) tag
  | Text _ => false
  end.

(** The position of the n-th child (from 0) with the name. *)
Fixpoint nth_named (tag : string) (n pos : nat) (kids : list DomNode) : option nat :=
  match kids with
  | [] => None
  | kid :: rest =>
      if named tag kid then
        match n with
        | O => Some pos
        | S n' => nth_named tag n' (S pos) rest
        end
      else nth_named tag n (S pos) rest
  end.

Fixpoint descend (n : DomNode) (steps : list Part) : option Path :=
  match steps with
  | [] => Some []
  | (tag, index) :: rest =>
      i ← nth_named tag (pred index) 0 (childNodes n);
      kid ← childNodes n !! i;
      p ← descend kid rest;
      Some (i :: p)
  end.

(** From the document: the first step selects the root element. *)
Definition follow (root : DomNode) (steps : list Part) : option Path :=
  match steps with
  | [] => None
  | (tag, index) :: rest =>
      if named tag root && (index <=? 1)%nat then descend root rest else None
  end.

End NodePath.

(** ** Acting on a located element

    [performPlaywrightMethod] (lines 1227-1541 of [src/unnamed/part_001]). *)

Module Playwright.
Import JsString JsValue JsConvert.

Inductive Exception : Type :=
| PlaywrightCommandException (message : string)
| PlaywrightCommandMethodNotSupportedException (message : string)
(** an error of the driver or of the engine, as it was raised *)
| Error (message : string).

Definition message_of (e : Exception) : string :=
  match e with
  | PlaywrightCommandException m
  | PlaywrightCommandMethodNotSupportedException m
  | Error m => m
  end.

(** The calls on the locator, the keyboard, the page and a new tab. *)
Inductive PageCall : Type :=
| ScrollIntoView
| Fill (value : string)
| Click
| KeyboardType (char : string)
| KeyboardPress (key : option string)
| LocatorMethod (method : string) (args : list string)
| CloseTab
| Goto (url : string)
| WaitForLoadState (state : string).

Inductive Event : Type :=
| Log (message : string) (level : Z)
| Call (c : PageCall).

(** The page during one run, given the events so far: [rejects] is the
    message of the error with which a call rejects, if it does;
    [new_tab] is the URL of the tab that opens within 1.5 s of a click,
    if one does; [url] is [stagehandPage.url()]; [has_method m] is
    [typeof locator[m] === "function"], and [not_iterable] is the message
    of the engine's [TypeError] for iterating [undefined]. *)
Record Page := {
  has_method : string -> bool;
  rejects : list Event -> PageCall -> option string;
  new_tab : list Event -> option string;
  url : list Event -> string;
  not_iterable : string
}.

Inductive Outcome (A : Type) : Type :=
| Done (a : A)
| Raise (e : Exception).
Arguments Done {A} a.
Arguments Raise {A} e.

Definition P (A : Type) : Type := list Event -> Outcome A * list Event.

#[global] Instance P_ret : MRet P := fun A a events => (Done a, events).
#[global] Instance P_bind : MBind P :=
  fun A B k m events =>
    match m events with
    | (Done a, events') => k a events'
    | (Raise e, events') => (Raise e, events')
    end.

Definition raise {A} (e : Exception) : P A := fun events => (Raise e, events).

(** [try { m } catch (e) { handler e }] *)
Definition try_catch {A} (m : P A) (handler : Exception -> P A) : P A :=
  fun events =>
    match m events with
    | (Done a, events') => (Done a, events')
    | (Raise e, events') => handler e events'
    end.

Definition logger (message : string) (level : Z) : P unit :=
  fun events => (Done tt, events ++ [Log message level]).

Section Perform.
Variable page : Page.

(** A call is made, and then resolves or rejects. *)
Definition call (c : PageCall) : P unit :=
  fun events =>
    match rejects page events c with
    | Some msg => (Raise (Error msg), events ++ [Call c])
    | None => (Done tt, events ++ [Call c])
    end.

Definition page_url : P string := fun events => (Done (url page events), events).
Definition opened_tab : P (option string) :=
  fun events => (Done (new_tab page events), events).

(** [try { m } catch (e) { logger(...); throw new PlaywrightCommandException(e.message) }] *)
Definition guarded (label : string) (m : P unit) : P unit :=
  try_catch m
    (fun e => logger label 1;;
              raise (PlaywrightCommandException (message_of e))).

Fixpoint type_each (chars : list string) : P unit :=
  match chars with
  | [] => mret tt
  | char :: rest => call (KeyboardType char);; type_each rest
  end.

Definition performPlaywrightMethod (method : string) (args : list JSValue) : P unit :=
  initialUrl ← page_url;
  logger "performing playwright method" 2;;
  if String.eqb method "scrollIntoView" then
    logger "scrolling element into view" 2;;
    guarded "error scrolling element into view"
      (try_catch (call ScrollIntoView)
         (fun e => logger "error scrolling element into view" 1))
  else if String.eqb method "fill" || String.eqb method "type" then
    guarded "error filling element"
      (call (Fill EmptyString);;
       call Click;;
       match head args ≫= toString_opt with
       | Some text => type_each (characters text)
       | None => raise (Error (not_iterable page))
       end)
  else if String.eqb method "press" then
    guarded "error pressing key"
      (call (KeyboardPress (head args ≫= toString_opt)))
  else if has_method page method then
    logger "page URL before action" 2;;
    guarded "error performing method"
      (call (LocatorMethod method
               (map (fun arg => match toString_opt arg with
                                | Some s => s
                                | None => EmptyString
                                end) args)));;
    if String.eqb method "click" then
      logger "clicking element, checking for page navigation" 1;;
      newOpenedTab ← opened_tab;
      logger "clicked element" 1;;
      match newOpenedTab with
      | Some tabUrl =>
          logger "new page detected (new tab) with URL" 1;;
          call CloseTab;;
          call (Goto tabUrl);;
          call (WaitForLoadState "domcontentloaded")
      | None => mret tt
      end;;
      try_catch (call (WaitForLoadState "networkidle"))
        (fun e => logger "network idle timeout hit" 1);;
      logger "finished waiting for (possible) page navigation" 1;;
      currentUrl ← page_url;
      if String.eqb currentUrl initialUrl then mret tt
      else logger "new page detected with URL" 1
    else mret tt
  else
    logger "chosen method is invalid" 1;;
    raise (PlaywrightCommandMethodNotSupportedException
             ("Method " +:+ method +:+ " not supported")).

End Perform.

(** The calls among the events. *)
Definition calls_of (events : list Event) : list PageCall :=
  omap (fun e => match e with Call c => Some c | Log _ _ => None end) events.


End Playwright.

(** ** The agent handler: keyboard actions

    [convertKeyName] (lines 2489-2523) and the [type], [keypress] and
    [key] cases of [executeAction] (lines 1982-2056, 2227-2244) of
    [src/unnamed/part_001]. *)

Module Keys.
Import JsString Effects.

(** The table of [convertKeyName]; [darwin] is
    [process.platform === "darwin"]. *)
Definition keyMap (darwin : bool) : list (string * string) :=
  [ ("ENTER", "Enter"); ("ESCAPE", "Escape"); ("BACKSPACE", "Backspace");
    ("TAB", "Tab"); ("SPACE", " ");
    ("ARROWUP", "ArrowUp"); ("ARROWDOWN", "ArrowDown");
    ("ARROWLEFT", "ArrowLeft"); ("ARROWRIGHT", "ArrowRight");
    ("UP", "ArrowUp"); ("DOWN", "ArrowDown"); ("LEFT", "ArrowLeft");
    ("RIGHT", "ArrowRight");
    ("SHIFT", if darwin then "Meta" else "Control");
    ("CONTROL", if darwin then "Meta" else "Control");
    ("ALT", "Alt"); ("META", "Meta"); ("COMMAND", "Meta"); ("CMD", "Meta");
    ("DELETE", "Delete"); ("HOME", "Home"); ("END", "End");
    ("PAGEUP", "PageUp"); ("PAGEDOWN", "PageDown") ].

(** [keyMap[k]] *)
Fixpoint entry (k : string) (table : list (string * string)) : option string :=
  match table with
  | [] => None
  | (k', v) :: rest => if String.eqb k k' then Some v else entry k rest
  end.

(** [keyMap[upperKey] || key] *)
Definition convertKeyName (darwin : bool) (key : string) : string :=
  let upperKey := toUpperCase key in
  match entry upperKey (keyMap darwin) with
  | Some v => if String.eqb v EmptyString then key else v
  | None => key
  end.

(** The calls on [page.keyboard]. *)
Inductive KeyEvent : Type :=
| KeyType (text : string)
| KeyDown (key : string)
| KeyUp (key : string)
| KeyPress (key : string).

(** The keyboard of the page: [key_error sent e] is the message of the
    error with which the call [e] rejects after the calls [sent] have
    been made, if it does. *)
Record Keyboard := {
  key_error : list KeyEvent -> KeyEvent -> option string
}.

(** The state is the list of the calls that went through. *)
Local Abbreviation K := (Effects.M (list KeyEvent)).

Section Cases.
Variable darwin : bool.
Variable kb : Keyboard.

Definition send (e : KeyEvent) : K unit :=
  fun sent =>
    match key_error kb sent e with
    | Some msg => (Throw msg, sent)
    | None => (Ok tt, sent ++ [e])
    end.

(** [for (const key of keys) { await f(key) }] *)
Fixpoint for_each {A} (f : A -> K unit) (l : list A) : K unit :=
  match l with
  | [] => ret tt
  | x :: rest => f x;; for_each f rest
  end.

(** case "type" *)
Definition type_case (text : string) : K unit := send (KeyType text).

Definition hasModifier (keys : list string) : bool :=
  existsb (fun key => includes key "CTRL" || includes key "CMD"
                      || includes key "COMMAND") keys.

(** The key of a combination. *)
Definition combination_key (key : string) : string :=
  if includes key "CTRL" then "Meta"
  else if includes key "CMD" || includes key "COMMAND" then "Meta"
  else convertKeyName darwin key.

(** The key that is pressed for an individual key. *)
Definition individual_key (key : string) : string :=
  if includes key "ENTER" then "Enter"
  else if includes key "SPACE" then " "
  else if includes key "TAB" then "Tab"
  else if includes key "ESCAPE" || includes key "ESC" then "Escape"
  else if includes key "BACKSPACE" then "Backspace"
  else if includes key "DELETE" then "Delete"
  else if includes key "ARROW_UP" then "ArrowUp"
  else if includes key "ARROW_DOWN" then "ArrowDown"
  else if includes key "ARROW_LEFT" then "ArrowLeft"
  else if includes key "ARROW_RIGHT" then "ArrowRight"
  else convertKeyName darwin key.

(** case "keypress"; [keys] is [None] when [action.keys] is not an array.
    The pause of 100 ms between pressing and releasing a combination
    makes no call. *)
Definition keypress_case (keys : option (list string)) : K unit :=
  match keys with
  | Some keys =>
      if hasModifier keys then
        let playwrightKeys := map combination_key keys in
        for_each (fun key => send (KeyDown key)) playwrightKeys;;
        for_each (fun key => send (KeyUp key)) (rev playwrightKeys)
      else
        for_each (fun key => send (KeyPress (individual_key key))) keys
  | None => ret tt
  end.

(** case "key" *)
Definition key_case (text : string) : K unit :=
  if String.eqb text "Return" || String.eqb text "Enter" then send (KeyPress "Enter")
  else if String.eqb text "Tab" then send (KeyPress "Tab")
  else if String.eqb text "Escape" || String.eqb text "Esc" then send (KeyPress "Escape")
  else if String.eqb text "Backspace" then send (KeyPress "Backspace")
  else send (KeyPress text).

End Cases.

(** A keyboard on which no call fails. *)
Definition steady : Keyboard := {| key_error := fun _ _ => None |}.

(** The keys that are down after a list of calls, latest first; releasing
    a key that is not the latest one held is a fault. *)
Fixpoint held (events : list KeyEvent) (down : list string) : option (list string) :=
  match events with
  | [] => Some down
  | KeyDown k :: rest => held rest (k :: down)
  | KeyUp k :: rest =>
      match down with
      | k' :: down' => if String.eqb k k' then held rest down' else None
      | [] => None
      end
  | _ :: rest => held rest down
  end.

End Keys.

(** ** Further example inputs *)

Module InferenceMoreExamples.
Import JsValue Inference Examples.

(** A model that answers the verification with a text. *)
Definition completed_text : World :=
  {| responses := fun _ => response_with None (JObj [("completed", JStr "yes")]) None;
     clock := steady_clock |}.

(** A tool call whose arguments are not JSON. *)
Definition garbled_call : ToolCall :=
  {| function_name := "doAction"; function_arguments := "{method:" |}.

Definition garbled : World :=
  {| responses := fun _ => response_with (Some [garbled_call]) JUndefined None;
     clock := steady_clock |}.

End InferenceMoreExamples.

Module ObserveExamples.
Import JsValue Inference Examples.

(** A model that answers with two elements, each with a method. *)
Definition two_elements : World :=
  {| responses := fun _ =>
       response_with None
         (JObj [("elements",
                 JArr [JObj [("elementId", JNum 12); ("description", JStr "Sign in");
                             ("method", JStr "click"); ("arguments", JArr [])];
                       JObj [("elementId", JNum 40); ("description", JStr "Search");
                             ("method", JStr "fill");
                             ("arguments", JArr [JStr "tea"])]])])
         (Some {| prompt_tokens := 10; completion_tokens := 5; total_tokens := 15 |});
     clock := steady_clock |}.

(** [Number] on the numbers. *)
Definition number_of (v : JSValue) : JSValue := v.

End ObserveExamples.

Module A11yMoreExamples.
Import A11y Examples.

(** A generic root over a button and a link. *)
Definition generic_over_two : list AccessibilityNode :=
  [ ax "1" "generic" None None (Some ["2"; "3"]);
    ax "2" "button" (Some "a") (Some "1") None;
    ax "3" "link" (Some "b") (Some "1") None ].

End A11yMoreExamples.

Module AxTreeExamples.
Import Effects A11y AxTree.

Definition ax_node (id role : string) (backend : Z) (parent : option string)
    (kids : option (list string)) : AXNode :=
  {| ax_role := Some role; ax_name := None; ax_description := None; ax_value := None;
     ax_nodeId := id; ax_backendDOMNodeId := Some backend; ax_parentId := parent;
     ax_childIds := kids; ax_xpath := None |}.

(** A page with a scrollable [div] over a button, on which no node can be
    resolved. *)
Definition unresolved_page : Browser :=
  {| enableCDP := Ok tt;
     disableCDP := Ok tt;
     scrollable_xpaths := Ok ["/html/body/div"];
     evaluate_xpath := fun _ => Ok (Some "obj-7");
     describeNode := fun _ => Ok (Some 7);
     getFullAXTree := Ok [ax_node "1" "generic" 7 None (Some ["2"]);
                          ax_node "2" "button" 8 (Some "1") None];
     resolveNode := fun _ => Throw "No node with given id found";
     node_path := fun _ => Throw "Cannot find context";
     tag_name := fun _ => Throw "Cannot find context" |}.

End AxTreeExamples.

Module NodePathExamples.
Import Dom.

(** [<html><head></head><body><div></div>text<div><p></p></div></body></html>] *)
Definition two_divs : DomNode :=
  Element "html" []
    [Element "head" [] [];
     Element "body" []
       [Element "div" [] []; Text "text"; Element "div" [] [Element "p" [] []]]].

End NodePathExamples.

Module PlaywrightExamples.
Import JsValue Playwright.

(** A page on which every call resolves and no tab opens. *)
Definition calm_page : Page :=
  {| has_method := fun m => bool_decide (m ∈ ["click"; "hover"; "check"]);
     rejects := fun _ _ => None;
     new_tab := fun _ => None;
     url := fun _ => "https://example.com/";
     not_iterable := "text is not iterable" |}.


(** A page on which a click opens a tab and the navigation to its URL
    fails. *)
Definition offline_page : Page :=
  {| has_method := fun m => bool_decide (m ∈ ["click"; "hover"; "check"]);
     rejects := fun _ c => match c with
                           | Goto _ => Some "net::ERR_INTERNET_DISCONNECTED"
                           | _ => None
                           end;
     new_tab := fun _ => Some "https://example.com/help";
     url := fun _ => "https://example.com/";
     not_iterable := "text is not iterable" |}.

End PlaywrightExamples.

(** * Properties *)

(** ** Strings *)

Module JsStringFacts.
Import JsString.

Lemma append_cons (x : ascii) (a b : string) :
  String x a +:+ b = String x (a +:+ b).
Proof. reflexivity. Qed.

Lemma append_nil (b : string) : EmptyString +:+ b = b.
Proof. reflexivity. Qed.

Lemma append_assoc (a b c : string) : (a +:+ b) +:+ c = a +:+ (b +:+ c).
Proof.
  induction a as [|x a IH]; [reflexivity|].
  now rewrite !append_cons, IH.
Qed.

Lemma strip_prefix_Some (p s t : string) :
  strip_prefix p s = Some t <-> s = p +:+ t.
Proof.
  revert s; induction p as [|a p IH]; intros s; simpl.
  - split; intros H; [now inversion H | now subst].
  - destruct s as [|b s]; [split; [discriminate | rewrite append_cons; discriminate]|].
    destruct (Ascii.eqb_spec a b) as [->|Hab].
    + rewrite IH, append_cons. split; intros H; [now subst | now inversion H].
    + split; [discriminate | intros H; rewrite append_cons in H; congruence].
Qed.

Lemma strip_prefix_None (p s : string) :
  strip_prefix p s = None -> forall t, s <> p +:+ t.
Proof.
  intros H t Heq. apply strip_prefix_Some in Heq. congruence.
Qed.

(** [find_first] returns the first occurrence. *)
Lemma find_first_sound (p s pre post : string) :
  find_first p s = Some (pre, post) -> first_occurrence p s pre post.
Proof.
  revert pre post; induction s as [|c s IH]; intros pre post; simpl.
  - destruct (strip_prefix p EmptyString) as [t|] eqn:Hp; [|discriminate].
    intros [= <- <-]. apply strip_prefix_Some in Hp.
    split; [exact Hp | intros; simpl; lia].
  - destruct (strip_prefix p (String c s)) as [t|] eqn:Hp.
    + intros [= <- <-]. apply strip_prefix_Some in Hp.
      split; [exact Hp | intros; simpl; lia].
    + destruct (find_first p s) as [[pre0 post0]|] eqn:Hf; [|discriminate].
      intros [= <- <-]. destruct (IH _ _ eq_refl) as [Heq Hmin].
      split; [rewrite append_cons; now rewrite <- Heq|].
      intros pre' post' H'. destruct pre' as [|c' pre'].
      * exfalso. exact (strip_prefix_None _ _ Hp _ H').
      * rewrite append_cons in H'. injection H' as _ H'. simpl.
        specialize (Hmin _ _ H'). lia.
Qed.

Lemma find_first_None (p s : string) :
  find_first p s = None -> no_occurrence p s.
Proof.
  induction s as [|c s IH]; simpl.
  - destruct (strip_prefix p EmptyString) eqn:Hp; [discriminate|].
    intros _ pre post H. destruct pre.
    + exact (strip_prefix_None _ _ Hp _ H).
    + rewrite append_cons in H. discriminate.
  - destruct (strip_prefix p (String c s)) eqn:Hp; [discriminate|].
    destruct (find_first p s) as [[? ?]|] eqn:Hf; [discriminate|].
    intros _ pre post H. destruct pre as [|c' pre].
    + exact (strip_prefix_None _ _ Hp _ H).
    + rewrite append_cons in H. injection H as _ H. exact (IH eq_refl _ _ H).
Qed.

(** A template without [$] is inserted as it is. *)
Lemma getSubstitution_plain (matched before after tpl : string) :
  includes tpl "$" = false -> getSubstitution matched before after tpl = tpl.
Proof.
  unfold includes. induction tpl as [|a t IH]; [reflexivity|].
  cbn [find_first strip_prefix].
  destruct (Ascii.eqb_spec "$"%char a) as [<-|Hne]; [discriminate|].
  intros H. cbn [getSubstitution].
  destruct (Ascii.eqb_spec a "$"%char) as [->|_]; [contradiction|].
  f_equal. apply IH. destruct (find_first "$" t) as [[? ?]|]; [discriminate|reflexivity].
Qed.

End JsStringFacts.

(** ** The inference pipeline *)

Module InferenceFacts.
Import JsString JsStringFacts Effects JsValue Inference Examples.

Lemma fillInVariables_snoc (text : string) (vars : list (string * string))
    (key value : string) :
  fillInVariables text (vars ++ [(key, value)])
  = replace (fillInVariables text vars) (placeholder key) value.
Proof. unfold fillInVariables. now rewrite fold_left_app. Qed.

(** C10 as stated fails: two keys with the same upper-case form share one
    placeholder, and each of them replaces one occurrence, so the second
    occurrence of [<|A|>] does not stay. *)
Lemma fillInVariables_second_occurrence_replaced :
  let text := "<|A|><|A|>" in
  let variables := [("a", "1"); ("A", "2")] in
  occurrences (placeholder "a") text = 2%nat /\
  placeholder "A" = placeholder "a" /\
  fillInVariables text variables = "12" /\
  occurrences (placeholder "a") (fillInVariables text variables) = 0%nat.
Proof. repeat split; reflexivity. Qed.

(** C10, amended: the entries are processed in order; the entry
    [(key, value)] either finds no occurrence of [<|KEY|>] in the text
    processed so far and leaves it unchanged, or it replaces exactly the
    first occurrence by the value with the [$] patterns of JavaScript's
    [replace] expanded, leaving what precedes and what follows that
    occurrence (so every later occurrence) unchanged; a value without [$]
    is inserted verbatim. *)
Theorem fillInVariables_replaces_first_occurrence
    (text : string) (vars : list (string * string)) (key value : string) :
  let current := fillInVariables text vars in
  let out := fillInVariables text (vars ++ [(key, value)]) in
  (no_occurrence (placeholder key) current /\ out = current)
  \/
  (exists pre post,
      first_occurrence (placeholder key) current pre post /\
      out = pre +:+ getSubstitution (placeholder key) pre post value +:+ post /\
      (includes value "$" = false -> out = pre +:+ value +:+ post)).
Proof.
  intros current out. subst out. rewrite fillInVariables_snoc. fold current.
  unfold replace. destruct (find_first (placeholder key) current) as [[pre post]|] eqn:Hf.
  - right. exists pre, post. split; [now apply find_first_sound|].
    split; [reflexivity|]. intros Hplain. now rewrite getSubstitution_plain.
  - left. split; [now apply find_first_None | reflexivity].
Qed.

Lemma get_set_field (k k' : string) (v : JSValue) (o : list (string * JSValue)) :
  get_field k (set_field k' v o) = if String.eqb k k' then v else get_field k o.
Proof.
  induction o as [|[k0 v0] o IH]; simpl.
  - destruct (String.eqb k k'); reflexivity.
  - destruct (String.eqb_spec k' k0) as [->|Hne]; simpl.
    + destruct (String.eqb k k0); reflexivity.
    + destruct (String.eqb_spec k k0) as [->|Hne'].
      * destruct (String.eqb_spec k0 k'); [congruence | reflexivity].
      * exact IH.
Qed.

(** The pieces of a staged call. *)
Lemma timed_call_run (w : World) (logToFile : bool) (dir pre : string) (st : St) :
  exists st',
    timed_call w logToFile dir pre st
    = (Ok (responses w (calls st),
           clock w (S (ticks st)) - clock w (ticks st)), st')
    /\ calls st' = S (calls st) /\ ticks st' = S (S (ticks st)).
Proof.
  unfold timed_call, mbind, M_bind, bind, when, emit, Date_now, createChatCompletion,
    mret, M_ret, ret.
  destruct logToFile; simpl; eexists; repeat split; reflexivity.
Qed.

Lemma act_call_run (w : World) (p : ActParams) (st : St) :
  exists st',
    act_call w p st = (Ok (responses w (calls st)), st')
    /\ calls st' = S (calls st).
Proof.
  unfold act_call.
  destruct (timed_call_run w (logInferenceToFile p) "act_summary" "act_call" st)
    as (st1 & Ht & Hc & _).
  unfold mbind, M_bind, bind at 1. rewrite Ht.
  unfold mbind, bind, when, emit, mret, M_ret, ret.
  destruct (logInferenceToFile p), (onActMetrics p); simpl;
    eexists; split; reflexivity || exact Hc.
Qed.

(** One invocation of [act]. *)
Lemma act_unfold (w : World) (parse : string -> option JSValue) (p : ActParams)
    (retries : nat) (st : St) :
  act w parse p retries st =
  match act_call w p st with
  | (Throw e, st1) => (Throw e, st1)
  | (Ok rawResponse, st1) =>
      match first_tool_calls rawResponse with
      | Some (tc :: _) =>
          if String.eqb (function_name tc) "skipSection" then (Ok JNull, st1)
          else match parse (function_arguments tc) with
               | Some v => (Ok v, st1)
               | None => (Throw "SyntaxError", st1)
               end
      | _ =>
          if le_lt_dec 2 retries then
            (emit (EvLog "Act" "No tool calls found in response after multiple retries.");;
             mret JNull) st1
          else act w parse p (S retries) st1
      end
  end.
Proof.
  simp act.
  destruct (act_call w p st) as [[r|e] st1]; simp act; [|reflexivity].
  destruct (first_tool_calls r) as [[|tc l]|]; simp act; try reflexivity;
    destruct (le_lt_dec 2 retries); simp act; reflexivity.
Qed.

Lemma act_on_tool_call (w : World) (parse : string -> option JSValue) (p : ActParams)
    (retries : nat) (st : St) (tc : ToolCall) (rest : list ToolCall) :
  first_tool_calls (responses w (calls st)) = Some (tc :: rest) ->
  exists st1,
    calls st1 = S (calls st) /\
    act w parse p retries st =
    (if String.eqb (function_name tc) "skipSection" then Ok JNull
     else match parse (function_arguments tc) with
          | Some v => Ok v
          | None => Throw "SyntaxError"
          end, st1).
Proof.
  intros Htc. rewrite act_unfold.
  destruct (act_call_run w p st) as (st1 & -> & Hc). rewrite Htc.
  exists st1. split; [exact Hc|].
  destruct (String.eqb _ _); [reflexivity|].
  destruct (parse _); reflexivity.
Qed.

Lemma act_retry (w : World) (parse : string -> option JSValue) (p : ActParams)
    (retries : nat) (st : St) :
  no_tool_calls (responses w (calls st)) = true ->
  (retries < 2)%nat ->
  exists st1,
    calls st1 = S (calls st) /\
    act w parse p retries st = act w parse p (S retries) st1.
Proof.
  intros Hno Hlt. rewrite act_unfold.
  destruct (act_call_run w p st) as (st1 & -> & Hc).
  exists st1. split; [exact Hc|].
  unfold no_tool_calls in Hno.
  destruct (first_tool_calls (responses w (calls st))) as [[|tc l]|];
    try discriminate; destruct (le_lt_dec 2 retries); try lia; reflexivity.
Qed.

Lemma act_give_up (w : World) (parse : string -> option JSValue) (p : ActParams)
    (retries : nat) (st : St) :
  no_tool_calls (responses w (calls st)) = true ->
  (2 <= retries)%nat ->
  exists st1,
    calls st1 = S (calls st) /\
    act w parse p retries st = (Ok JNull, st1).
Proof.
  intros Hno Hge. rewrite act_unfold.
  destruct (act_call_run w p st) as (st1 & -> & Hc).
  unfold no_tool_calls in Hno.
  destruct (first_tool_calls (responses w (calls st))) as [[|tc l]|];
    try discriminate; destruct (le_lt_dec 2 retries); try lia;
    (eexists; split; [|reflexivity]; exact Hc).
Qed.

(** C4: with no tool call in the first and second response, [act] makes a
    third call and returns the parsed arguments of its first tool call
    when that one is not the skip sentinel, and [null] when the third
    response has no tool call either; a first tool call named
    [skipSection] makes [act] return [null] after that single call,
    whatever the retry counter. *)
Theorem act_retries_twice_then_gives_up
    (w : World) (parse : string -> option JSValue) (p : ActParams) (st : St) :
  (forall tc rest v,
      no_tool_calls (responses w (calls st)) = true ->
      no_tool_calls (responses w (S (calls st))) = true ->
      first_tool_calls (responses w (S (S (calls st)))) = Some (tc :: rest) ->
      function_name tc <> "skipSection" ->
      parse (function_arguments tc) = Some v ->
      (act w parse p 0 st).1 = Ok v /\
      calls (act w parse p 0 st).2 = (3 + calls st)%nat)
  /\
  (no_tool_calls (responses w (calls st)) = true ->
   no_tool_calls (responses w (S (calls st))) = true ->
   no_tool_calls (responses w (S (S (calls st)))) = true ->
   (act w parse p 0 st).1 = Ok JNull /\
   calls (act w parse p 0 st).2 = (3 + calls st)%nat)
  /\
  (forall retries tc rest,
      first_tool_calls (responses w (calls st)) = Some (tc :: rest) ->
      function_name tc = "skipSection" ->
      (act w parse p retries st).1 = Ok JNull /\
      calls (act w parse p retries st).2 = S (calls st)).
Proof.
  split; [|split].
  - intros tc rest v H0 H1 H2 Hname Hparse.
    destruct (act_retry w parse p 0 st H0) as (st1 & Hc1 & ->); [lia|].
    rewrite <- Hc1 in H1, H2.
    destruct (act_retry w parse p 1 st1 H1) as (st2 & Hc2 & ->); [lia|].
    rewrite <- Hc2 in H2.
    destruct (act_on_tool_call w parse p 2 st2 tc rest H2) as (st3 & Hc3 & ->).
    apply String.eqb_neq in Hname. rewrite Hname, Hparse. simpl. split; [reflexivity | lia].
  - intros H0 H1 H2.
    destruct (act_retry w parse p 0 st H0) as (st1 & Hc1 & ->); [lia|].
    rewrite <- Hc1 in H1, H2.
    destruct (act_retry w parse p 1 st1 H1) as (st2 & Hc2 & ->); [lia|].
    rewrite <- Hc2 in H2.
    destruct (act_give_up w parse p 2 st2 H2) as (st3 & Hc3 & ->); [lia|].
    simpl. split; [reflexivity | lia].
  - intros retries tc rest Htc Hname.
    destruct (act_on_tool_call w parse p retries st tc rest Htc) as (st1 & Hc1 & ->).
    rewrite Hname. simpl. split; [reflexivity | exact Hc1].
Qed.

Lemma bind_ok {S A B : Type} (m : Effects.M S A) (k : A -> Effects.M S B)
    (st st' : S) (a : A) :
  m st = (Ok a, st') -> (m ≫= k) st = k a st'.
Proof. intros H. unfold mbind, M_bind, bind. now rewrite H. Qed.

Lemma bind_throw {S A B : Type} (m : Effects.M S A) (k : A -> Effects.M S B)
    (st st' : S) (e : string) :
  m st = (Throw e, st') -> (m ≫= k) st = (Throw e, st').
Proof. intros H. unfold mbind, M_bind, bind. now rewrite H. Qed.

Lemma emit_quiet (e : Event) : quiet (emit e).
Proof. intros s. eexists; repeat split; reflexivity. Qed.

Lemma seq_quiet (m1 m2 : Effects.M St unit) :
  quiet m1 -> quiet m2 -> quiet (m1;; m2).
Proof.
  intros H1 H2 s. destruct (H1 s) as (s1 & E1 & C1 & T1).
  destruct (H2 s1) as (s2 & E2 & C2 & T2).
  exists s2. erewrite bind_ok by exact E1. repeat split; congruence.
Qed.

Lemma when_quiet (b : bool) (m : Effects.M St unit) : quiet m -> quiet (when b m).
Proof.
  intros H. destruct b; [exact H|]. intros s. eexists; repeat split; reflexivity.
Qed.

(** C6: when the payload of the response is the empty object, or is not an
    object at all, [verifyActCompletion] returns a result whose
    [completed] is [false]; it does not raise. *)
Theorem verifyActCompletion_defaults_to_false
    (w : World) (stringify : LLMResponse -> string) (logToFile : bool) (st : St) :
  data (responses w (calls st)) = JObj []
  \/ is_object (data (responses w (calls st))) = false ->
  exists r st',
    verifyActCompletion w stringify logToFile st = (Ok r, st')
    /\ v_completed r = JBool false.
Proof.
  intros Hpayload. unfold verifyActCompletion.
  destruct (timed_call_run w logToFile "act_summary" "verify_call" st)
    as (st1 & Ht & _ & _).
  erewrite bind_ok by exact Ht. cbv beta iota zeta.
  match goal with
  | |- context [when logToFile ?m] =>
      destruct (when_quiet logToFile m
                  (seq_quiet _ _ (emit_quiet _) (emit_quiet _)) st1) as (st2 & Hw & _ & _)
  end.
  erewrite bind_ok by exact Hw.
  destruct Hpayload as [Hempty | Hnot].
  - rewrite Hempty. cbn [truthy typeof_object negb orb own_entries get_field].
    erewrite bind_ok by reflexivity. eexists; eexists; split; reflexivity.
  - destruct (data (responses w (calls st))); try discriminate;
      cbn [truthy typeof_object negb orb]; rewrite ?orb_true_r;
      erewrite bind_ok by reflexivity; eexists; eexists; split; reflexivity.
Qed.

Lemma object_literal_totals (spread m a b c : JSValue) :
  let result :=
    object_literal spread
      [("metadata", m); ("prompt_tokens", a); ("completion_tokens", b);
       ("inference_time_ms", c)] in
  get_field "prompt_tokens" result = a /\
  get_field "completion_tokens" result = b /\
  get_field "inference_time_ms" result = c.
Proof.
  unfold object_literal. rewrite fold_left_app. cbn [fold_left].
  rewrite !get_set_field. repeat split.
Qed.

(** C5: whenever the metadata stage returns a payload that can be
    destructured, [extract] returns an object whose [prompt_tokens] and
    [completion_tokens] are the sums over the three staged calls (a
    missing usage counting as 0) and whose [inference_time_ms] is the sum
    of the three elapsed times, also when the refined data carries
    properties of those names. *)
Theorem extract_totals_are_sums (w : World) (logToFile : bool) (st : St) :
  let u k := usage (responses w (k + calls st)%nat) in
  let t k := clock w (S (2 * k + ticks st))%nat - clock w (2 * k + ticks st)%nat in
  data (responses w (2 + calls st)%nat) <> JUndefined ->
  data (responses w (2 + calls st)%nat) <> JNull ->
  exists result st',
    extract w logToFile st = (Ok result, st') /\
    get_field "prompt_tokens" result
    = JNum (prompt_or_0 (u 0%nat) + prompt_or_0 (u 1%nat) + prompt_or_0 (u 2%nat)) /\
    get_field "completion_tokens" result
    = JNum (completion_or_0 (u 0%nat) + completion_or_0 (u 1%nat)
            + completion_or_0 (u 2%nat)) /\
    get_field "inference_time_ms" result = JNum (t 0%nat + t 1%nat + t 2%nat).
Proof.
  intros u t Hundef Hnull. unfold extract.
  destruct (timed_call_run w logToFile "extract_summary" "extract_call" st)
    as (s1 & Ht1 & Hc1 & Hk1).
  erewrite bind_ok by exact Ht1. cbv beta iota zeta.
  match goal with
  | |- context [when logToFile ?m ≫= _] =>
      destruct (when_quiet logToFile m
                  (seq_quiet _ _ (emit_quiet _) (emit_quiet _)) s1) as (s2 & Hw2 & Hc2 & Hk2)
  end.
  erewrite bind_ok by exact Hw2.
  destruct (timed_call_run w logToFile "extract_summary" "refine_call" s2)
    as (s3 & Ht3 & Hc3 & Hk3).
  erewrite bind_ok by exact Ht3. cbv beta iota zeta.
  match goal with
  | |- context [when logToFile ?m ≫= _] =>
      destruct (when_quiet logToFile m
                  (seq_quiet _ _ (emit_quiet _) (emit_quiet _)) s3) as (s4 & Hw4 & Hc4 & Hk4)
  end.
  erewrite bind_ok by exact Hw4.
  destruct (timed_call_run w logToFile "extract_summary" "metadata_call" s4)
    as (s5 & Ht5 & Hc5 & Hk5).
  erewrite bind_ok by exact Ht5. cbv beta iota zeta.
  assert (E2 : calls s2 = (1 + calls st)%nat) by lia.
  assert (E4 : calls s4 = (2 + calls st)%nat) by lia.
  assert (K2 : ticks s2 = (2 * 1 + ticks st)%nat) by lia.
  assert (K4 : ticks s4 = (2 * 2 + ticks st)%nat) by lia.
  rewrite E2, E4, K2, K4.
  destruct (data (responses w (2 + calls st)%nat)) eqn:Hm; try congruence;
    change (calls st) with (0 + calls st)%nat;
    change (ticks st) with (2 * 0 + ticks st)%nat;
    fold (u 0%nat) (u 1%nat) (u 2%nat) (t 0%nat) (t 1%nat) (t 2%nat);
    (match goal with
     | |- context [when logToFile ?m ≫= _] =>
         destruct (when_quiet logToFile m
                     (seq_quiet _ _ (emit_quiet _) (emit_quiet _)) s5) as (s6 & Hw6 & _ & _)
     end;
     erewrite bind_ok by exact Hw6;
     eexists; eexists; split; [reflexivity|];
     apply object_literal_totals).
Qed.

(** The mocked clients of the specification's examples. *)

Lemma act_retries_twice_then_gives_up_witness :
  (act answers_third mock_parse act_params 0 st0).1 = Ok (JObj [("method", JStr "click")])
  /\ (act never_answers mock_parse act_params 0 st0).1 = Ok JNull
  /\ (act skips mock_parse act_params 1 st0).1 = Ok JNull.
Proof.
  split; [|split].
  - apply (proj1 (act_retries_twice_then_gives_up answers_third mock_parse act_params st0)
             click_call [] (JObj [("method", JStr "click")]));
      [reflexivity | reflexivity | reflexivity | discriminate | reflexivity].
  - apply (proj1 (proj2 (act_retries_twice_then_gives_up never_answers mock_parse
                           act_params st0))); reflexivity.
  - apply (proj2 (proj2 (act_retries_twice_then_gives_up skips mock_parse act_params st0))
             1%nat skip_call []); reflexivity.
Defined.

Lemma verifyActCompletion_defaults_to_false_witness :
  exists r st',
    verifyActCompletion empty_payload (fun _ => "{}") false st0 = (Ok r, st')
    /\ v_completed r = JBool false.
Proof.
  apply verifyActCompletion_defaults_to_false. left. reflexivity.
Defined.

Lemma extract_totals_are_sums_witness :
  exists result st',
    extract staged true st0 = (Ok result, st') /\
    get_field "prompt_tokens" result = JNum 30 /\
    get_field "completion_tokens" result = JNum 15 /\
    get_field "inference_time_ms" result = JNum 300.
Proof.
  apply (extract_totals_are_sums staged true st0); discriminate.
Defined.

End InferenceFacts.

(** ** The accessibility-tree builder *)

Module A11yFacts.
Import JsString A11y Examples.

Lemma cleanStructuralNodes_unfold (n : AccessibilityNode) (children : option (list TreeNode)) :
  cleanStructuralNodes (Node n children) =
  if negb (String.eqb (nodeId n) EmptyString) && is_negative (parseInt (nodeId n) None)
  then None
  else
    match children with
    | None => if is_structural (role n) then None else Some (Node n None)
    | Some cs =>
        let cleanedChildren := omap cleanStructuralNodes cs in
        if is_structural (role n) then
          match cleanedChildren with
          | [only] => Some only
          | _ :: _ :: _ => Some (Node n (Some cleanedChildren))
          | [] => None
          end
        else
          match cleanedChildren with
          | _ :: _ => Some (Node n (Some cleanedChildren))
          | [] => Some (Node n children)
          end
    end.
Proof.
  destruct children as [cs|]; [|reflexivity].
  cbn [cleanStructuralNodes].
  match goal with
  | |- context [?f cs] =>
      is_fix f;
      assert (E : forall l, f l = omap cleanStructuralNodes l)
        by (intros l; induction l as [|c r IH]; [reflexivity|];
            cbn [omap list_omap]; rewrite <- IH; reflexivity);
      rewrite !E
  end.
  reflexivity.
Qed.

(** Induction on a tree and the trees below it. *)
Lemma TreeNode_induction (P : TreeNode -> Prop) :
  (forall n, P (Node n None)) ->
  (forall n cs, Forall P cs -> P (Node n (Some cs))) ->
  forall t, P t.
Proof.
  intros Hleaf Hnode.
  fix IH 1. intros [n [cs|]]; [|apply Hleaf].
  apply Hnode. induction cs as [|c cs IHcs]; constructor; [apply IH | exact IHcs].
Qed.

Lemma anywhere_unfold (P : TreeNode -> bool) (n : AccessibilityNode)
    (children : option (list TreeNode)) :
  anywhere P (Node n children)
  = P (Node n children)
    || match children with
       | Some cs => existsb (anywhere P) cs
       | None => false
       end.
Proof.
  destruct children as [cs|]; reflexivity.
Qed.

Lemma first_pass_step_ok m node : stored_ok m -> stored_ok (first_pass_step m node).
Proof.
  intros Hm. unfold first_pass_step.
  destruct (is_negative (parseInt (nodeId node) (Some 10))) eqn:Hneg; [exact Hm|].
  match goal with |- context [if ?b then _ else _] => destruct b end; [exact Hm|].
  intros k n ch Hk. apply lookup_insert_Some in Hk as [[_ Hk]|[_ Hk]].
  - injection Hk as <- _. exact Hneg.
  - eapply Hm, Hk.
Qed.

Lemma second_pass_step_ok m node : stored_ok m -> stored_ok (second_pass_step m node).
Proof.
  intros Hm. unfold second_pass_step.
  destruct (truthy_string (parentId node)) as [pid|]; [|exact Hm].
  destruct (m !! nodeId node); [|exact Hm].
  destruct (m !! pid) as [[pn pch]|] eqn:Hp; [|exact Hm].
  intros k n ch Hk. apply lookup_insert_Some in Hk as [[_ Hk]|[_ Hk]].
  - injection Hk as <- _. eapply Hm, Hp.
  - eapply Hm, Hk.
Qed.

Lemma fold_left_ok (step : gmap string Stored -> AccessibilityNode -> gmap string Stored)
    (nodes : list AccessibilityNode) (m : gmap string Stored) :
  (forall m node, stored_ok m -> stored_ok (step m node)) ->
  stored_ok m -> stored_ok (fold_left step nodes m).
Proof.
  intros Hstep. revert m. induction nodes as [|x l IH]; intros m Hm; simpl; auto.
Qed.

Lemma tree_of_ok (fuel : nat) (m : gmap string Stored) (k : string) (t : TreeNode) :
  stored_ok m -> tree_of fuel m k = Some t -> anywhere negative_id t = false.
Proof.
  intros Hm. revert k t. induction fuel as [|fuel IH]; intros k t; [discriminate|].
  cbn [tree_of]. destruct (m !! k) as [[n ch]|] eqn:Hk; [|discriminate].
  cbn [mbind option_bind]. destruct ch as [ids|].
  - destruct (mapM (tree_of fuel m) ids) as [cs|] eqn:Hcs; [|discriminate].
    cbn [mbind option_bind]. intros [= <-]. rewrite anywhere_unfold.
    unfold negative_id at 1. cbn [node_of]. rewrite (Hm _ _ _ Hk). cbn [orb].
    apply mapM_Some_1 in Hcs. clear Hk.
    induction Hcs as [|id c ids cs Hc _ IHcs]; [reflexivity|].
    cbn [existsb]. rewrite (IH _ _ Hc). exact IHcs.
  - intros [= <-]. rewrite anywhere_unfold. unfold negative_id. cbn [node_of].
    rewrite (Hm _ _ _ Hk). reflexivity.
Qed.

Lemma existsb_omap_false {A B : Type} (f : A -> option B) (p : A -> bool) (q : B -> bool)
    (l : list A) :
  Forall (fun a => p a = false -> forall b, f a = Some b -> q b = false) l ->
  existsb p l = false -> existsb q (omap f l) = false.
Proof.
  induction 1 as [|a l Ha _ IH]; [reflexivity|].
  cbn [existsb omap list_omap]. intros Hor. apply orb_false_elim in Hor as [Hp Hl].
  destruct (f a) as [b|] eqn:Hf; cbn [existsb]; [rewrite (Ha Hp b eq_refl)|]; auto.
Qed.

Lemma cleanStructuralNodes_ok (t t' : TreeNode) :
  anywhere negative_id t = false ->
  cleanStructuralNodes t = Some t' ->
  anywhere negative_id t' = false.
Proof.
  revert t'. induction t as [n|n cs IH] using TreeNode_induction; intros t' Ht;
    rewrite cleanStructuralNodes_unfold;
    destruct (negb _ && is_negative _); try discriminate.
  - destruct (is_structural (role n)); [discriminate|]. now intros [= <-].
  - cbv zeta. rewrite anywhere_unfold in Ht. apply orb_false_elim in Ht as [Hn Hcs].
    assert (Hclean : existsb (anywhere negative_id) (omap cleanStructuralNodes cs) = false).
    { eapply existsb_omap_false; [|exact Hcs].
      eapply Forall_impl; [exact IH|]. cbv beta. intros c Hc Hneg b Hb. eauto. }
    destruct (is_structural (role n)).
    + destruct (omap cleanStructuralNodes cs) as [|c1 [|c2 l]]; try discriminate.
      * intros [= <-]. cbn [existsb] in Hclean. now rewrite orb_false_r in Hclean.
      * intros [= <-]. rewrite anywhere_unfold.
        change (negative_id (Node n (Some (c1 :: c2 :: l)))) with (negative_id (Node n (Some cs))).
        now rewrite Hn.
    + destruct (omap cleanStructuralNodes cs) as [|c1 l].
      * intros [= <-]. rewrite anywhere_unfold. now rewrite Hn, Hcs.
      * intros [= <-]. rewrite anywhere_unfold.
        change (negative_id (Node n (Some (c1 :: l)))) with (negative_id (Node n (Some cs))).
        now rewrite Hn.
Qed.

(** The half of C2 that holds: no node of the result, at any depth, has an
    id that reads as a negative integer (in base 10, as the first pass
    reads it). *)
Lemma buildHierarchicalTree_no_negative_id (nodes : list AccessibilityNode)
    (result : TreeResult) :
  buildHierarchicalTree nodes = Some result ->
  existsb (anywhere negative_id) (tree result) = false.
Proof.
  unfold buildHierarchicalTree, linked_roots.
  set (m := fold_left second_pass_step nodes (fold_left first_pass_step nodes ∅)).
  assert (Hm : stored_ok m).
  { apply fold_left_ok; [apply second_pass_step_ok|].
    apply fold_left_ok; [apply first_pass_step_ok|].
    intros k n ch Hk. now rewrite lookup_empty in Hk. }
  destruct (mapM _ _) as [roots|] eqn:Hroots; [|discriminate].
  cbn [mbind option_bind]. intros [= <-]. cbn [tree].
  apply mapM_Some_1 in Hroots.
  eapply existsb_omap_false with (p := anywhere negative_id).
  - apply Forall_forall. intros t _ Hneg b Hb. eapply cleanStructuralNodes_ok; eauto.
  - induction Hroots as [|x t xs ts Ht _ IH]; [reflexivity|].
    cbn [existsb]. rewrite (tree_of_ok _ _ _ _ Hm Ht). exact IH.
Qed.

(** C2: the snapshot of an icon button.  The innermost generic node is
    dropped by the first pass, the generic node above it is left without
    children and does not survive cleaning, and the button is then
    returned as it was, with its uncleaned [children]: the result holds a
    generic node with zero children. *)
Theorem buildHierarchicalTree_keeps_childless_generic :
  exists result button,
    buildHierarchicalTree button_over_generic = Some result /\
    tree result = [Node button (Some [Node (ax "2" "generic" None None None) None])] /\
    role button = "button" /\
    existsb (anywhere childless_structural) (tree result) = true.
Proof. eexists; eexists. repeat split; vm_compute; reflexivity. Qed.

(** C9 as stated fails: the generic root collapses to its only child, the
    button, but the button's children in the output are its cleaned
    children, not the children it has in the input. *)
Lemma collapsed_child_is_cleaned :
  exists g rawButton cleanButton,
    linked_roots generic_over_button = Some [Node g (Some [rawButton])] /\
    is_structural (role g) = true /\
    tree <$> buildHierarchicalTree generic_over_button = Some [cleanButton] /\
    node_of cleanButton = node_of rawButton /\
    (length <$> children_of rawButton) = Some 2%nat /\
    (length <$> children_of cleanButton) = Some 1%nat /\
    children_of cleanButton <> children_of rawButton.
Proof.
  eexists; eexists; eexists.
  split; [vm_compute; reflexivity|].
  split; [reflexivity|].
  split; [vm_compute; reflexivity|].
  split; [reflexivity|].
  split; [reflexivity|].
  split; [reflexivity|].
  discriminate.
Qed.

(** C9, amended: a generic/none node that is not dropped for its id and
    whose children clean to exactly one survivor is replaced by that
    survivor, which is the cleaned form of one of its children.  When
    that child is not itself generic/none, the survivor keeps the child's
    own entry (role, id, name, ...); a child without children is kept
    unchanged, and a child with at least one surviving child of its own
    carries exactly its cleaned children. *)
Theorem cleanStructuralNodes_collapses_to_cleaned_child
    (n : AccessibilityNode) (cs : list TreeNode) (only : TreeNode) :
  is_structural (role n) = true ->
  negb (String.eqb (nodeId n) EmptyString) && is_negative (parseInt (nodeId n) None) = false ->
  omap cleanStructuralNodes cs = [only] ->
  cleanStructuralNodes (Node n (Some cs)) = Some only /\
  exists c,
    c ∈ cs /\ cleanStructuralNodes c = Some only /\
    (is_structural (role (node_of c)) = false ->
     node_of only = node_of c /\
     (children_of c = None -> only = c) /\
     (forall gcs, children_of c = Some gcs ->
                  omap cleanStructuralNodes gcs <> [] ->
                  children_of only = Some (omap cleanStructuralNodes gcs))).
Proof.
  intros Hrole Hid Hone. split.
  - rewrite cleanStructuralNodes_unfold, Hid, Hrole. cbv zeta. now rewrite Hone.
  - assert (Hin : only ∈ omap cleanStructuralNodes cs) by (rewrite Hone; set_solver).
    apply list_elem_of_omap in Hin as (c & Hc & Hclean).
    exists c. split; [exact Hc|]. split; [exact Hclean|].
    intros Hnot. destruct c as [m ch]. cbn [node_of children_of] in *.
    rewrite cleanStructuralNodes_unfold in Hclean.
    destruct (negb (String.eqb (nodeId m) EmptyString) && is_negative (parseInt (nodeId m) None));
      [discriminate|].
    destruct ch as [gcs|].
    + cbv zeta in Hclean. rewrite Hnot in Hclean.
      destruct (omap cleanStructuralNodes gcs) as [|g1 gr] eqn:Hg;
        injection Hclean as <-; cbn [node_of children_of];
        (split; [reflexivity|]); (split; [discriminate|]);
        intros gcs' [= <-] Hne; congruence.
    + rewrite Hnot in Hclean. injection Hclean as <-. cbn [node_of children_of].
      split; [reflexivity|]. split; [reflexivity|]. discriminate.
Qed.

Lemma cleanStructuralNodes_collapses_to_cleaned_child_witness :
  cleanStructuralNodes generic_over_link
  = Some (Node (ax "2" "link" (Some "home") None None) None).
Proof.
  apply (cleanStructuralNodes_collapses_to_cleaned_child
           (ax "1" "generic" None None None)
           [Node (ax "2" "link" (Some "home") None None) None]);
    reflexivity.
Defined.

End A11yFacts.

(** ** The agent handler: executing and recording *)

Module AgentFacts.
Import JsString Effects JsValue Agent Examples InferenceFacts.

Lemma prop_not_nullish (v : JSValue) (k : string) :
  nullish v = false -> prop v k = Ok (get_field k (own_entries v)).
Proof. destruct v; simpl; congruence. Qed.

(** [record_entry] leaves the session alone, only adds to the trace, and
    produces an entry unless the action is a screenshot or the body
    raises. *)
Lemma record_entry_spec (drv : Driver) (action : AgentAction)
    (result : ActionExecutionResult) (sel : option string) (st : AgentState) :
  exists r st',
    record_entry drv action result sel st = (r, st') /\
    recordedActions st' = recordedActions st /\
    (forall e, e ∈ trace st -> e ∈ trace st') /\
    (action_type action <> "screenshot" ->
     recording_raises drv action = false ->
     exists entry, r = Ok (Some entry) /\ r_success entry = success result).
Proof.
  assert (Hdone : forall (m : Res (option RecordedAction) * AgentState) r st',
             m = (r, st') ->
             recordedActions st' = recordedActions st ->
             (forall e, e ∈ trace st -> e ∈ trace st') ->
             (action_type action <> "screenshot" ->
              recording_raises drv action = false ->
              exists entry, r = Ok (Some entry) /\ r_success entry = success result) ->
             exists r0 st0,
               m = (r0, st0) /\
               recordedActions st0 = recordedActions st /\
               (forall e, e ∈ trace st -> e ∈ trace st0) /\
               (action_type action <> "screenshot" ->
                recording_raises drv action = false ->
                exists entry, r0 = Ok (Some entry) /\ r_success entry = success result)).
  { intros m r st' -> H1 H2 H3. eauto 10. }
  unfold record_entry.
  destruct (bool_decide (action_type action ∈ ["click"; "double_click"; "doubleClick"])).
  { eapply Hdone; [reflexivity|reflexivity| |]; simpl; eauto; set_solver. }
  destruct (String.eqb (action_type action) "type").
  { eapply Hdone; [reflexivity|reflexivity| |]; simpl; eauto. }
  destruct (bool_decide (action_type action ∈ ["keypress"; "key"])).
  { eapply Hdone; [reflexivity|reflexivity| |]; simpl; eauto. }
  destruct (String.eqb (action_type action) "scroll") eqn:Escroll.
  { destruct (cursor_position drv) as [[cx cy]|e] eqn:Ecur;
      (eapply Hdone; [reflexivity|reflexivity| |]; simpl; eauto).
    intros _ Hr. unfold recording_raises in Hr. rewrite Escroll, Ecur in Hr.
    discriminate. }
  destruct (String.eqb (action_type action) "drag") eqn:Edrag.
  { destruct (get_field "path" (action_fields action)) as [| | | | |[|p0 [|p1 ps]]|] eqn:Epath;
      try (eapply Hdone; [reflexivity|reflexivity| |]; simpl; now eauto).
    unfold mbind, M_bind, bind, lift, prop.
    destruct p0;
      try match goal with
          | |- context [List.last ?l JUndefined] =>
              destruct (List.last l JUndefined) eqn:E1
          end;
      (eapply Hdone; [reflexivity|reflexivity| |]; simpl; eauto;
       intros _ Hr; unfold recording_raises in Hr;
       rewrite Escroll, Edrag, Epath, ?E1 in Hr; discriminate). }
  destruct (String.eqb (action_type action) "move").
  { eapply Hdone; [reflexivity|reflexivity| |]; simpl; eauto. }
  destruct (String.eqb (action_type action) "wait").
  { eapply Hdone; [reflexivity|reflexivity| |]; simpl; eauto. }
  destruct (String.eqb (action_type action) "function").
  { repeat match goal with
           | |- context [if ?b then _ else _] => destruct b
           end; (eapply Hdone; [reflexivity|reflexivity| |]; simpl; eauto). }
  destruct (String.eqb_spec (action_type action) "screenshot").
  { eapply Hdone; [reflexivity|reflexivity| |]; simpl; eauto; contradiction. }
  eapply Hdone; [reflexivity|reflexivity| |]; simpl; eauto.
Qed.

(** [recordAction] is total and only ever appends. *)
Lemma recordAction_runs (drv : Driver) (action : AgentAction)
    (result : ActionExecutionResult) (captured sel : option string) (st : AgentState) :
  exists st',
    recordAction drv action result captured sel st = (Ok tt, st') /\
    EvRecord (action_type action) ∈ trace st' /\
    (action_type action <> "screenshot" ->
     recording_raises drv action = false ->
     exists entry,
       recordedActions st' = recordedActions st ++ [entry] /\
       r_success entry = success result).
Proof.
  unfold recordAction.
  erewrite bind_ok by reflexivity.
  set (st1 := {| recordedActions := recordedActions st;
                 trace := trace st ++ [EvRecord (action_type action)] |}).
  assert (Hin : EvRecord (action_type action) ∈ trace st1) by (simpl; set_solver).
  destruct (record_entry_spec drv action result sel st1) as (r & st2 & Hr & Hrec & Htr & Hentry).
  unfold try_catch, mbind, M_bind, bind. rewrite Hr.
  destruct r as [[entry|]|e].
  - eexists; split; [reflexivity|]. simpl. split; [auto|].
    intros Hs Hraise. destruct (Hentry Hs Hraise) as (entry' & [= <-] & Hsucc).
    exists entry. rewrite Hrec. auto.
  - eexists; split; [reflexivity|]. split; [auto|].
    intros Hs Hraise. destruct (Hentry Hs Hraise) as (entry' & [=] & _).
  - eexists; split; [reflexivity|]. simpl. split.
    + apply elem_of_app. left. auto.
    + intros Hs Hraise. destruct (Hentry Hs Hraise) as (entry' & [=] & _).
Qed.

(** C8: a click on a page whose screenshot capture fails.  Both
    captures of [executeAction] are made outside the [try] block, where
    the captures of the callers are guarded.  When the capture before
    the action fails, its error comes out of [executeAction]: the click
    is not dispatched, the recorder is not invoked and the session is
    left as it was.  When the capture after the action fails, the click
    has been dispatched and has succeeded; the error replaces its result,
    and again the recorder is not invoked. *)
Theorem executeAction_screenshot_failure_propagates :
  executeAction (driver (Some "Target closed") succeeds) click_action fresh_session
  = (Throw "Target closed", fresh_session)
  /\
  executeAction (driver_without_after succeeds) click_action fresh_session
  = (Throw "Target closed",
     {| recordedActions := [];
        trace := [EvScreenshot "before.png"; EvDispatch "click"] |}).
Proof. split; reflexivity. Qed.

(** X30: when creating the directory and both captures succeed,
    [executeAction] does not propagate an error of the dispatched action;
    it returns the outcome ([success = false] with the message when the
    dispatch raised), invokes the recorder with that outcome on every
    path, and the session gains one entry with that [success] value for
    every action type but [screenshot], provided recording itself does not
    raise. *)
Theorem executeAction_records_outcome
    (drv : Driver) (action : AgentAction) (st : AgentState) :
  mkdir_error drv = None ->
  before_screenshot_error drv = None ->
  after_screenshot_error drv = None ->
  let performed := dispatch drv action in
  let result :=
    match p_outcome performed with
    | Ok r => r
    | Throw e => {| success := false; error := Some e |}
    end in
  exists st1 st2,
    recordAction drv action result (p_targetElement performed) (p_selector performed) st1
    = (Ok tt, st2) /\
    executeAction drv action st = (Ok result, st2) /\
    EvRecord (action_type action) ∈ trace st2 /\
    (action_type action <> "screenshot" ->
     recording_raises drv action = false ->
     exists entry,
       recordedActions st2 = recordedActions st ++ [entry] /\
       r_success entry = success result).
Proof.
  intros Hmk Hbefore Hafter performed result.
  unfold executeAction. rewrite Hmk, Hbefore, Hafter. cbn [raise_if].
  erewrite bind_ok by reflexivity. erewrite bind_ok by reflexivity.
  erewrite bind_ok by reflexivity.
  fold performed.
  assert (Hrun : exists st1,
             finally
               (try_catch
                  (emit (EvDispatch (action_type action));; lift (p_outcome performed))
                  (fun errorMessage =>
                     emit (EvLog ("Error executing action " +:+ action_type action +:+ ": "
                                  +:+ errorMessage));;
                     mret {| success := false; error := Some errorMessage |}))
               (ret tt;; emit (EvScreenshot "after.png"))
               {| recordedActions := recordedActions st;
                  trace := trace st ++ [EvScreenshot "before.png"] |}
             = (Ok result, st1) /\ recordedActions st1 = recordedActions st).
  { unfold finally, try_catch, mbind, M_bind, bind, lift, emit, ret, mret, M_ret. simpl.
    subst result. destruct (p_outcome performed); simpl; eexists; split; reflexivity. }
  destruct Hrun as (st1 & Hrun & Hrec1).
  erewrite bind_ok by exact Hrun.
  destruct (recordAction_runs drv action result (p_targetElement performed)
              (p_selector performed) st1) as (st2 & Hrecord & Hin & Hentry).
  exists st1, st2. split; [exact Hrecord|].
  split; [erewrite bind_ok by exact Hrecord; reflexivity|].
  split; [exact Hin|].
  intros Hs Hraise. destruct (Hentry Hs Hraise) as (entry & Happ & Hsucc).
  exists entry. rewrite Happ, Hrec1. auto.
Qed.

Lemma executeAction_records_outcome_witness :
  exists st1 st2,
    recordAction (driver None fails) click_action
      {| success := false; error := Some "Target closed" |} None None st1 = (Ok tt, st2) /\
    executeAction (driver None fails) click_action fresh_session
    = (Ok {| success := false; error := Some "Target closed" |}, st2) /\
    EvRecord "click" ∈ trace st2 /\
    ("click" <> "screenshot" ->
     recording_raises (driver None fails) click_action = false ->
     exists entry,
       recordedActions st2 = [] ++ [entry] /\ r_success entry = false).
Proof.
  apply (executeAction_records_outcome (driver None fails) click_action fresh_session);
    reflexivity.
Defined.

End AgentFacts.

(** ** The agent handler: selector synthesis *)

Module SelectorFacts.
Import JsString Effects Selector Dom Examples.

Section Generic.
Context {Elem : Type} `{EqDecision Elem}.
Variable doc : Document Elem.
Variable element : Elem.

Lemma isSelectorUnique_true (sel : string) :
  isSelectorUnique doc element sel = true ->
  querySelectorAll doc sel = Some [element].
Proof.
  unfold isSelectorUnique.
  destruct (querySelectorAll doc sel) as [[|e [|e' l]]|]; try discriminate.
  intros H. apply bool_decide_eq_true in H. now subst.
Qed.

(** The id tier never answers with a dynamic id. *)
Lemma id_tier_rejects_dynamic_id (sel : string) :
  id_tier doc element = Some sel ->
  isLikelyDynamicId (id doc element) = false /\
  sel = "#" +:+ css_escape (id doc element).
Proof.
  unfold id_tier.
  destruct (isLikelyDynamicId (id doc element)); [now rewrite andb_false_r|].
  destruct (negb _ && negb false); [|discriminate].
  destruct (isSelectorUnique doc element _); [|discriminate].
  now intros [= <-].
Qed.

Lemma find_unique (cands : list string) (sel : string) :
  List.find (isSelectorUnique doc element) cands = Some sel ->
  isSelectorUnique doc element sel = true.
Proof. intros H. now apply find_some in H. Qed.

Lemma id_tier_unique (sel : string) :
  id_tier doc element = Some sel -> isSelectorUnique doc element sel = true.
Proof.
  unfold id_tier.
  destruct (negb _ && negb _); [|discriminate].
  destruct (isSelectorUnique doc element _) eqn:Hu; [|discriminate].
  now intros [= <-].
Qed.

Lemma class_tier_unique (sel : string) :
  class_tier doc element = Some sel -> isSelectorUnique doc element sel = true.
Proof.
  unfold class_tier.
  destruct (nonempty (className doc element)) as [cn|]; [|discriminate].
  destruct (List.filter _ (words cn)) as [|c l]; [discriminate|].
  destruct (isSelectorUnique doc element _) eqn:Hu.
  - now intros [= <-].
  - apply find_unique.
Qed.

Lemma css_path_loop_unique (up : list Elem) (cur : Elem) (path : list string)
    (sel : string) :
  css_path_loop doc element cur up path = Some sel ->
  isSelectorUnique doc element sel = true.
Proof.
  revert cur path. induction up as [|parent up IH]; intros cur path; simpl.
  - destruct (decide (Some cur = body doc)); discriminate.
  - destruct (decide (Some cur = body doc)); [discriminate|].
    destruct (isSelectorUnique doc element (join " > " path)) eqn:Hu.
    + now intros [= <-].
    + destruct ((1 <? length (children doc parent))%nat); simpl.
      * match goal with
        | |- context [if isSelectorUnique doc element ?s then _ else _] =>
            destruct (isSelectorUnique doc element s) eqn:Hu'
        end.
        -- now intros [= <-].
        -- apply IH.
      * apply IH.
Qed.

End Generic.

(** The guaranteed path for the root element, which lies under the point
    in the margin around the body: no loop runs for it, the fallback
    answers [body], and that selector resolves to the body element. *)
Lemma guaranteed_path_misses_root_element :
  let document := form_page html_element in
  elementFromPoint document 2 2 = Some html_element /\
  generateSelector document 2 2 = Some "body" /\
  querySelectorAll document "body" = Some [body_element] /\
  body_element <> html_element.
Proof. repeat split; try reflexivity. discriminate. Qed.

(** C1: the target is the first [div] of
    [<div><span>Hello</span></div><div>Hello</div>].  Its text content is
    [Hello], the sections before the text section find no selector for
    it, and the XPath of the text section selects the [div] elements with
    a text child [Hello]: there is one, the second [div].  The text
    section only counts the matches, where every CSS section compares
    the single match with the target ([isSelectorUnique]): the selector
    that [generateSelector] returns resolves to exactly one element, and
    that element is not the target. *)
Theorem text_xpath_resolves_to_another_element :
  let sel := "//div[text()=" +:+ dq +:+ "Hello" +:+ dq +:+ "]" in
  elementFromPoint text_page 2 2 = Some outer_div /\
  textContent text_page outer_div = "Hello" /\
  generateSelector_tier text_page 2 2 = Some (TextTier, sel) /\
  generateSelector text_page 2 2 = Some sel /\
  evaluate text_page sel = Some [plain_div] /\
  plain_div <> outer_div.
Proof. repeat split; try reflexivity. discriminate. Qed.

Lemma text_tier_single_match {Elem : Type} `{EqDecision Elem}
    (document : Document Elem) (element : Elem) (sel : string) :
  text_tier document element = Ok (Some sel) ->
  exists found, evaluate document sel = Some [found].
Proof.
  unfold text_tier.
  destruct (negb _ && _ && _); [|discriminate].
  match goal with
  | |- context [evaluate document ?e] => destruct (evaluate document e) as [l|] eqn:He
  end; [|discriminate].
  destruct (length l =? 1)%nat eqn:Hl.
  - intros [= <-]. destruct l as [|f [|f' l]]; try discriminate. now exists f.
  - match goal with
    | |- context [evaluate document ?e] => destruct (evaluate document e) as [l'|] eqn:He'
    end; [|discriminate].
    destruct (length l' =? 1)%nat eqn:Hl'; [|discriminate].
    intros [= <-]. destruct l' as [|f [|f' l']]; try discriminate. now exists f.
Qed.

(** The selector of [generateSelector] is the one of
    [generateSelector_tier]. *)
Lemma generateSelector_of_tier {Elem : Type} `{EqDecision Elem}
    (document : Document Elem) (x y : Z) :
  generateSelector document x y = snd <$> generateSelector_tier document x y.
Proof.
  unfold generateSelector, generateSelector_tier.
  destruct (elementFromPoint document x y) as [element|]; [|reflexivity].
  destruct (selector_for_element document element) as [[t s]|e]; reflexivity.
Qed.

(** What the tiers check: a selector that [generateSelector] returns from
    one of the tiers that accept a candidate through [isSelectorUnique]
    (id, data attributes, aria attributes, form attributes, classes, css
    path) resolves, on the same document, to exactly one element, the
    target; of a selector of the text tier it is only known that it has
    exactly one match. *)
Lemma verified_selector_resolves_to_target
    {Elem : Type} `{EqDecision Elem} (document : Document Elem) (x y : Z)
    (element : Elem) (tier : Tier) (sel : string) :
  elementFromPoint document x y = Some element ->
  generateSelector_tier document x y = Some (tier, sel) ->
  generateSelector document x y = Some sel /\
  (verified tier = true -> querySelectorAll document sel = Some [element]) /\
  (tier = TextTier -> exists found, evaluate document sel = Some [found]).
Proof.
  intros Hel Hgen. unfold generateSelector, generateSelector_tier in *.
  rewrite Hel in *.
  destruct (selector_for_element document element) as [[t s]|e] eqn:Hsel;
    [|discriminate].
  injection Hgen as -> ->. split; [reflexivity|].
  unfold selector_for_element in Hsel.
  destruct (id_tier document element) as [s1|] eqn:H1.
  { injection Hsel as <- <-. split; [|discriminate].
    intros _. apply isSelectorUnique_true. now apply id_tier_unique. }
  destruct (data_tier document element) as [s2|] eqn:H2.
  { injection Hsel as <- <-. split; [|discriminate].
    intros _. apply isSelectorUnique_true. now apply find_unique in H2. }
  destruct (aria_tier document element) as [s3|] eqn:H3.
  { injection Hsel as <- <-. split; [|discriminate].
    intros _. apply isSelectorUnique_true. now apply find_unique in H3. }
  destruct (form_tier document element) as [s4|] eqn:H4.
  { injection Hsel as <- <-. split; [|discriminate].
    intros _. apply isSelectorUnique_true. now apply find_unique in H4. }
  destruct (class_tier document element) as [s5|] eqn:H5.
  { injection Hsel as <- <-. split; [|discriminate].
    intros _. apply isSelectorUnique_true. now apply class_tier_unique. }
  destruct (text_tier document element) as [[s6|]|e6] eqn:H6; try discriminate.
  { injection Hsel as <- <-. split; [discriminate|].
    intros _. now apply (text_tier_single_match document element). }
  destruct (css_path_tier document element) as [s7|] eqn:H7.
  { injection Hsel as <- <-. split; [|discriminate].
    intros _. apply isSelectorUnique_true. now apply css_path_loop_unique in H7. }
  injection Hsel as <- <-. split; discriminate.
Qed.

Lemma verified_selector_resolves_to_target_witness :
  generateSelector (form_page save_button) 2 2 = Some "#save" /\
  querySelectorAll (form_page save_button) "#save" = Some [save_button].
Proof.
  destruct (verified_selector_resolves_to_target (form_page save_button) 2 2
              save_button IdTier "#save") as (Hsel & Hquery & _);
    [reflexivity | reflexivity |].
  split; [exact Hsel | apply Hquery; reflexivity].
Defined.

(** C3: the button [<button id="save" data-testid="save-btn">] is under
    the point and in focus.  Its test attribute selector is unique, and
    so is the selector of its id, which is not dynamic.
    [generateSelector] runs the id section before the section of the
    test attributes and returns [#save]; [getActiveElementSelector], for
    which the test attributes come first, returns the test attribute
    selector for the same element. *)
Theorem id_selector_returned_despite_test_attribute :
  let document := form_page save_button in
  let testSel := "[data-testid=" +:+ dq +:+ "save-btn" +:+ dq +:+ "]" in
  elementFromPoint document 2 2 = Some save_button /\
  activeElement document = Some save_button /\
  getAttribute document save_button "data-testid" = Some "save-btn" /\
  querySelectorAll document testSel = Some [save_button] /\
  isLikelyDynamicId (id document save_button) = false /\
  generateSelector_tier document 2 2 = Some (IdTier, "#save") /\
  generateSelector document 2 2 = Some "#save" /\
  getActiveElementSelector document = testSel /\
  "#save" <> testSel.
Proof. repeat split; try reflexivity. discriminate. Qed.

(** C7: the focused element has the dynamic id [radix-:r3:] and no test
    attribute.  [getActiveElementSelector] returns the raw id selector,
    where [generateSelector] rejects the id for the same element. *)
Theorem getActiveElementSelector_emits_dynamic_id :
  let document := form_page radix_input in
  activeElement document = Some radix_input /\
  id document radix_input = "radix-:r3:" /\
  isLikelyDynamicId "radix-:r3:" = true /\
  getActiveElementSelector document = "#radix-:r3:" /\
  generateSelector document 2 2 = Some "input".
Proof. repeat split; reflexivity. Qed.

End SelectorFacts.

(** ** Further functions: the inference pipeline *)

Module InferenceMoreFacts.
Import JsString JsStringFacts Effects JsValue Inference InferenceFacts Examples
       InferenceMoreExamples.

Lemma find_first_absent (p s : string) :
  no_occurrence p s -> find_first p s = None.
Proof.
  intros Hno. destruct (find_first p s) as [[pre post]|] eqn:Hf; [|reflexivity].
  apply find_first_sound in Hf as [Heq _]. now destruct (Hno pre post).
Qed.

(** X1: a text in which no placeholder [<|KEY|>] of the variables occurs
    comes back unchanged. *)
Theorem fillInVariables_without_placeholders
    (text : string) (vars : list (string * string)) :
  Forall (fun kv => no_occurrence (placeholder kv.1) text) vars ->
  fillInVariables text vars = text.
Proof.
  unfold fillInVariables. induction 1 as [|[k v] vars Hk _ IH]; [reflexivity|].
  cbn [fold_left]. unfold replace at 2. cbn [fst] in Hk.
  now rewrite (find_first_absent _ _ Hk).
Qed.

(** X2: when the verification payload is an object with a [completed]
    property, [verifyActCompletion] returns that property as it is,
    whatever its type, with the token counts of the usage (0 without one)
    and the elapsed time, after exactly one model call. *)
Theorem verifyActCompletion_returns_present_field
    (w : World) (stringify : LLMResponse -> string) (logToFile : bool) (st : St)
    (fields : list (string * JSValue)) :
  data (responses w (calls st)) = JObj fields ->
  get_field "completed" fields <> JUndefined ->
  exists st',
    verifyActCompletion w stringify logToFile st
    = (Ok {| v_completed := get_field "completed" fields;
             v_prompt_tokens := prompt_or_0 (usage (responses w (calls st)));
             v_completion_tokens := completion_or_0 (usage (responses w (calls st)));
             v_inference_time_ms := clock w (S (ticks st)) - clock w (ticks st) |}, st')
    /\ calls st' = S (calls st).
Proof.
  intros Hdata Hfield. unfold verifyActCompletion.
  destruct (timed_call_run w logToFile "act_summary" "verify_call" st)
    as (st1 & Ht & Hc & _).
  erewrite bind_ok by exact Ht. cbv beta iota zeta.
  match goal with
  | |- context [when logToFile ?m] =>
      destruct (when_quiet logToFile m
                  (seq_quiet _ _ (emit_quiet _) (emit_quiet _)) st1) as (st2 & Hw & Hc2 & _)
  end.
  erewrite bind_ok by exact Hw.
  rewrite Hdata. cbn [truthy typeof_object negb orb own_entries].
  exists st2. split; [|congruence].
  destruct (get_field "completed" fields); try reflexivity. congruence.
Qed.

(** X3: [act] makes at least one model call and at most three when it is
    entered with [retries = 0]; entered with [retries >= 2] it makes
    exactly one. *)
Theorem act_call_count (w : World) (parse : string -> option JSValue) (p : ActParams)
    (retries : nat) (st : St) :
  (calls st < calls (act w parse p retries st).2
   <= calls st + (3 - Nat.min retries 2))%nat.
Proof.
  remember (2 - retries)%nat as n eqn:Hn. revert retries st Hn.
  induction n as [|n IH]; intros retries st Hn.
  - destruct (no_tool_calls (responses w (calls st))) eqn:Hno.
    + destruct (act_give_up w parse p retries st Hno) as (st1 & Hc & ->); [lia|].
      cbn [snd]. lia.
    + unfold no_tool_calls in Hno.
      destruct (first_tool_calls (responses w (calls st))) as [[|tc rest]|] eqn:Htc;
        try discriminate.
      destruct (act_on_tool_call w parse p retries st tc rest Htc) as (st1 & Hc & ->).
      cbn [snd]. lia.
  - destruct (no_tool_calls (responses w (calls st))) eqn:Hno.
    + destruct (act_retry w parse p retries st Hno) as (st1 & Hc & ->); [lia|].
      specialize (IH (S retries) st1). lia.
    + unfold no_tool_calls in Hno.
      destruct (first_tool_calls (responses w (calls st))) as [[|tc rest]|] eqn:Htc;
        try discriminate.
      destruct (act_on_tool_call w parse p retries st tc rest Htc) as (st1 & Hc & ->).
      cbn [snd]. lia.
Qed.

(** X4: when the first tool call is not [skipSection] and its arguments
    are not valid JSON, the error of [JSON.parse] comes out of [act]
    after that one model call: there is no retry. *)
Theorem act_raises_on_unparseable_arguments
    (w : World) (parse : string -> option JSValue) (p : ActParams)
    (retries : nat) (st : St) (tc : ToolCall) (rest : list ToolCall) :
  first_tool_calls (responses w (calls st)) = Some (tc :: rest) ->
  function_name tc <> "skipSection" ->
  parse (function_arguments tc) = None ->
  (act w parse p retries st).1 = Throw "SyntaxError" /\
  calls (act w parse p retries st).2 = S (calls st).
Proof.
  intros Htc Hname Hparse.
  destruct (act_on_tool_call w parse p retries st tc rest Htc) as (st1 & Hc & ->).
  apply String.eqb_neq in Hname. rewrite Hname, Hparse. split; [reflexivity | exact Hc].
Qed.

Ltac run_stage :=
  match goal with
  | |- context [timed_call ?w ?l ?d ?c ≫= _] =>
      match goal with
      | |- context [(_ ≫= _) ?s] =>
          let s' := fresh "s" in
          let Ht := fresh "Ht" in
          let Hc := fresh "Hc" in
          let Hk := fresh "Hk" in
          destruct (timed_call_run w l d c s) as (s' & Ht & Hc & Hk);
          erewrite bind_ok by exact Ht; cbv beta iota zeta
      end
  end.

Ltac run_log :=
  match goal with
  | |- context [(when ?l ?m ≫= _) ?s] =>
      let s' := fresh "s" in
      let Hw := fresh "Hw" in
      let Hc := fresh "Hc" in
      let Hk := fresh "Hk" in
      destruct (when_quiet l m (seq_quiet _ _ (emit_quiet _) (emit_quiet _)) s)
        as (s' & Hw & Hc & Hk);
      erewrite bind_ok by exact Hw
  end.

(** X5: when the metadata stage answers with [null] or [undefined] as its
    payload, destructuring it raises a [TypeError] out of [extract], after
    all three model calls have been made. *)
Theorem extract_raises_without_metadata (w : World) (logToFile : bool) (st : St) :
  nullish (data (responses w (2 + calls st)%nat)) = true ->
  exists st',
    extract w logToFile st = (Throw "TypeError", st') /\
    calls st' = (3 + calls st)%nat.
Proof.
  intros Hnull. unfold extract.
  run_stage. run_log. run_stage. run_log. run_stage.
  replace (calls s2) with (2 + calls st)%nat by lia.
  destruct (data (responses w (2 + calls st)%nat)); try discriminate;
    (eexists; split; [reflexivity | lia]).
Qed.

Lemma get_field_absent (k : string) (fields : list (string * JSValue)) :
  k ∉ map fst fields -> get_field k fields = JUndefined.
Proof.
  induction fields as [|[k' v] fields IH]; [reflexivity|].
  cbn [map fst get_field]. intros Hk.
  apply not_elem_of_cons in Hk as [Hne Hk].
  apply String.eqb_neq in Hne. rewrite Hne. now apply IH.
Qed.

Lemma get_field_assigned (k : string) (fields acc : list (string * JSValue)) :
  NoDup (map fst fields) ->
  get_field k (fold_left (fun o '(k, v) => set_field k v o) fields acc)
  = if decide (k ∈ map fst fields) then get_field k fields else get_field k acc.
Proof.
  revert acc. induction fields as [|[k' v] fields IH]; intros acc Hnd.
  - cbn. now rewrite decide_False by apply not_elem_of_nil.
  - cbn [map fst] in Hnd. apply NoDup_cons in Hnd as [Hk' Hnd].
    cbn [fold_left map fst get_field]. rewrite (IH _ Hnd), get_set_field.
    destruct (String.eqb_spec k k') as [->|Hne].
    + rewrite decide_False by exact Hk'.
      rewrite decide_True by apply list_elem_of_here. reflexivity.
    + destruct (decide (k ∈ map fst fields)) as [Hin|Hin].
      * rewrite decide_True by now apply list_elem_of_further. reflexivity.
      * rewrite decide_False; [reflexivity|].
        intros [?|?]%elem_of_cons; congruence.
Qed.

(** X6: every property of the refined data other than [metadata],
    [prompt_tokens], [completion_tokens] and [inference_time_ms] is in
    the result of [extract] with the value it has in the refined data. *)
Theorem extract_passes_refined_properties
    (w : World) (logToFile : bool) (st : St)
    (fields : list (string * JSValue)) (k : string) :
  data (responses w (1 + calls st)%nat) = JObj fields ->
  NoDup (map fst fields) ->
  nullish (data (responses w (2 + calls st)%nat)) = false ->
  k ∉ ["metadata"; "prompt_tokens"; "completion_tokens"; "inference_time_ms"] ->
  exists result st',
    extract w logToFile st = (Ok result, st') /\
    get_field k result = get_field k fields.
Proof.
  intros Hrefined Hnd Hmeta Hk. unfold extract.
  run_stage. run_log. run_stage. run_log. run_stage.
  replace (calls s0) with (1 + calls st)%nat by lia.
  replace (calls s2) with (2 + calls st)%nat by lia.
  rewrite Hrefined.
  assert (Hget : forall m a b c,
             get_field k (object_literal (JObj fields)
                            [("metadata", m); ("prompt_tokens", a);
                             ("completion_tokens", b); ("inference_time_ms", c)])
             = get_field k fields).
  { intros m a b c. unfold object_literal. rewrite fold_left_app. cbn [fold_left].
    rewrite !get_set_field.
    repeat match goal with
           | |- context [String.eqb k ?x] =>
               destruct (String.eqb_spec k x) as [->|_];
               [exfalso; apply Hk;
                repeat first [apply list_elem_of_here | apply list_elem_of_further]|]
           end.
    cbn [own_entries]. rewrite get_field_assigned by exact Hnd.
    destruct (decide (k ∈ map fst fields)) as [_|Hout]; [reflexivity|].
    now rewrite (get_field_absent k fields). }
  destruct (data (responses w (2 + calls st)%nat)); try discriminate;
    run_log; (eexists; eexists; split; [reflexivity | apply Hget]).
Qed.

Lemma fillInVariables_without_placeholders_witness :
  fillInVariables "Hello, world" [("name", "Ada")] = "Hello, world".
Proof.
  apply (fillInVariables_without_placeholders "Hello, world" [("name", "Ada")]).
  constructor; [|constructor]. apply find_first_None. reflexivity.
Defined.

Lemma verifyActCompletion_returns_present_field_witness :
  exists st',
    verifyActCompletion completed_text (fun _ => "{}") false st0
    = (Ok {| v_completed := JStr "yes"; v_prompt_tokens := 0;
             v_completion_tokens := 0; v_inference_time_ms := 100 |}, st')
    /\ calls st' = 1%nat.
Proof.
  apply (verifyActCompletion_returns_present_field completed_text (fun _ => "{}") false
           st0 [("completed", JStr "yes")]); [reflexivity | discriminate].
Defined.

Lemma act_raises_on_unparseable_arguments_witness :
  (act garbled mock_parse act_params 0 st0).1 = Throw "SyntaxError" /\
  calls (act garbled mock_parse act_params 0 st0).2 = 1%nat.
Proof.
  apply (act_raises_on_unparseable_arguments garbled mock_parse act_params 0 st0
           garbled_call []); [reflexivity | discriminate | reflexivity].
Defined.

Lemma extract_raises_without_metadata_witness :
  exists st',
    extract never_answers false st0 = (Throw "TypeError", st') /\
    calls st' = 3%nat.
Proof.
  apply (extract_raises_without_metadata never_answers false st0). reflexivity.
Defined.

Lemma extract_passes_refined_properties_witness :
  exists result st',
    extract staged false st0 = (Ok result, st') /\
    get_field "title" result
    = get_field "title" [("title", JStr "x"); ("prompt_tokens", JNum 7)].
Proof.
  apply (extract_passes_refined_properties staged false st0
           [("title", JStr "x"); ("prompt_tokens", JNum 7)] "title");
    [reflexivity | | reflexivity |].
  - repeat constructor.
    + intros [=]%list_elem_of_singleton.
    + apply not_elem_of_nil.
  - intros Hin. repeat (apply elem_of_cons in Hin as [Hin|Hin]; [discriminate|]).
    now apply elem_of_nil in Hin.
Defined.

End InferenceMoreFacts.

Module ObserveFacts.
Import JsString Effects JsValue JsConvert Inference InferenceFacts Observe ObserveExamples
       Examples.

Lemma map_elements_spec (Number : JSValue -> JSValue) (returnAction : bool)
    (elements : list JSValue) :
  Forall (fun el => nullish el = false) elements ->
  exists parsed,
    map_elements Number returnAction elements = Ok parsed /\
    Forall2 (parsed_from Number returnAction) elements parsed.
Proof.
  induction 1 as [|el rest Hel _ (others & Hrest & IH)]; [exists []; split; constructor|].
  cbn [map_elements]. unfold parsed_element. rewrite Hel, Hrest.
  destruct returnAction; eexists; (split; [reflexivity|]);
    (constructor; [reflexivity | exact IH]).
Qed.

Ltac run_observe st :=
  unfold observe;
  let s1 := fresh "s" in
  let s2 := fresh "s" in
  let Ht := fresh "Ht" in
  let Hc := fresh "Hc" in
  let Hw := fresh "Hw" in
  let Hc2 := fresh "Hc" in
  match goal with
  | |- context [timed_call ?w ?l ?d ?c] =>
      destruct (timed_call_run w l d c st) as (s1 & Ht & Hc & _);
      erewrite bind_ok by exact Ht; cbv beta iota zeta;
      match goal with
      | |- context [when l ?m] =>
          destruct (when_quiet l m (seq_quiet _ _ (emit_quiet _) (emit_quiet _)) s1)
            as (s2 & Hw & Hc2 & _);
          erewrite bind_ok by exact Hw
      end
  end.

(** X7: one output element for each element of the answer, in order; the
    method and the arguments of the answer are kept only when
    [returnAction] is set. *)
Theorem observe_parses_each_element
    (w : World) (Number : JSValue -> JSValue) (returnAction logToFile : bool) (st : St)
    (fields : list (string * JSValue)) (elements : list JSValue) :
  data (responses w (calls st)) = JObj fields ->
  get_field "elements" fields = JArr elements ->
  Forall (fun el => nullish el = false) elements ->
  exists parsed st',
    observe w Number returnAction logToFile st
    = (Ok [("elements", JArr parsed);
           ("prompt_tokens", JNum (prompt_or_0 (usage (responses w (calls st)))));
           ("completion_tokens", JNum (completion_or_0 (usage (responses w (calls st)))));
           ("inference_time_ms", JNum (clock w (S (ticks st)) - clock w (ticks st)))],
       st') /\
    Forall2 (parsed_from Number returnAction) elements parsed /\
    calls st' = S (calls st).
Proof.
  intros Hdata Hels Hall. run_observe st.
  destruct (map_elements_spec Number returnAction elements Hall) as (parsed & Hmap & Hrel).
  erewrite bind_ok
    by (unfold lift, parsed_elements; rewrite Hdata; cbn [nullish own_entries];
        rewrite Hels, Hmap; reflexivity).
  exists parsed. eexists. split; [reflexivity|]. split; [exact Hrel | congruence].
Qed.

Lemma observe_parses_each_element_witness :
  exists parsed st',
    observe two_elements number_of false true st0
    = (Ok [("elements", JArr parsed); ("prompt_tokens", JNum 10);
           ("completion_tokens", JNum 5); ("inference_time_ms", JNum 100)], st') /\
    Forall2 (parsed_from number_of false)
      [JObj [("elementId", JNum 12); ("description", JStr "Sign in");
             ("method", JStr "click"); ("arguments", JArr [])];
       JObj [("elementId", JNum 40); ("description", JStr "Search");
             ("method", JStr "fill"); ("arguments", JArr [JStr "tea"])]]
      parsed /\
    calls st' = 1%nat.
Proof.
  apply (observe_parses_each_element two_elements number_of false true st0
           [("elements",
             JArr [JObj [("elementId", JNum 12); ("description", JStr "Sign in");
                         ("method", JStr "click"); ("arguments", JArr [])];
                   JObj [("elementId", JNum 40); ("description", JStr "Search");
                         ("method", JStr "fill"); ("arguments", JArr [JStr "tea"])]])]);
    [reflexivity | reflexivity | repeat constructor].
Defined.

(** X8: an answer without [elements] gives the empty list; an [elements]
    that is present and not an array raises, after the model call has
    been made. *)
Theorem observe_without_element_array
    (w : World) (Number : JSValue -> JSValue) (returnAction logToFile : bool) (st : St) :
  let answer := responses w (calls st) in
  let elements := get_field "elements" (own_entries (data answer)) in
  nullish (data answer) = false ->
  (forall items, elements <> JArr items) ->
  exists st',
    observe w Number returnAction logToFile st
    = (if nullish elements
       then Ok [("elements", JArr []);
                ("prompt_tokens", JNum (prompt_or_0 (usage answer)));
                ("completion_tokens", JNum (completion_or_0 (usage answer)));
                ("inference_time_ms", JNum (clock w (S (ticks st)) - clock w (ticks st)))]
       else Throw "TypeError", st') /\
    calls st' = S (calls st).
Proof.
  intros answer elements Hdata Hnot. run_observe st.
  fold answer. unfold mbind, M_bind, bind, lift, parsed_elements. rewrite Hdata.
  fold elements. destruct elements eqn:He; cbn [nullish];
    try (eexists; split; [reflexivity | congruence]).
  now destruct (Hnot items).
Qed.

Lemma observe_without_element_array_witness :
  exists st',
    observe empty_payload number_of true false st0
    = (Ok [("elements", JArr []); ("prompt_tokens", JNum 0);
           ("completion_tokens", JNum 0); ("inference_time_ms", JNum 100)], st') /\
    calls st' = 1%nat.
Proof.
  apply (observe_without_element_array empty_payload number_of true false st0);
    [reflexivity | discriminate].
Defined.

End ObserveFacts.

(** ** Further functions: the accessibility tree *)

Module A11yMoreFacts.
Import JsString JsStringFacts A11y A11yViews A11yFacts Examples A11yMoreExamples.

Lemma entries_unfold (n : AccessibilityNode) (children : option (list TreeNode)) :
  entries (Node n children)
  = n :: match children with
         | Some cs => concat (map entries cs)
         | None => []
         end.
Proof.
  destruct children as [cs|]; [|reflexivity]. cbn [entries]. f_equal.
  induction cs as [|c r IH]; [reflexivity|]. cbn [map concat]. now rewrite <- IH.
Qed.

Lemma omap_fixed (cs : list TreeNode) :
  Forall (fun c => forall c', cleanStructuralNodes c = Some c' ->
                              cleanStructuralNodes c' = Some c') cs ->
  omap cleanStructuralNodes (omap cleanStructuralNodes cs) = omap cleanStructuralNodes cs.
Proof.
  induction 1 as [|c cs Hc _ IH]; [reflexivity|].
  cbn [omap list_omap]. destruct (cleanStructuralNodes c) as [c'|] eqn:E; [|exact IH].
  cbn [omap list_omap]. now rewrite (Hc c' eq_refl), IH.
Qed.

(** X9: cleaning a cleaned tree changes nothing: every result of
    [cleanStructuralNodes] is a fixed point of it. *)
Theorem cleanStructuralNodes_idempotent (t t' : TreeNode) :
  cleanStructuralNodes t = Some t' -> cleanStructuralNodes t' = Some t'.
Proof.
  revert t'. induction t as [n|n cs IH] using TreeNode_induction; intros t';
    rewrite cleanStructuralNodes_unfold;
    destruct (negb _ && is_negative _) eqn:Hid; try discriminate.
  - destruct (is_structural (role n)) eqn:Hr; [discriminate|]. intros [= <-].
    now rewrite cleanStructuralNodes_unfold, Hid, Hr.
  - cbv zeta. pose proof (omap_fixed cs IH) as Hfix.
    destruct (is_structural (role n)) eqn:Hr.
    + destruct (omap cleanStructuralNodes cs) as [|c1 [|c2 l]] eqn:Hcs; try discriminate.
      * intros [= <-].
        assert (Hin : c1 ∈ omap cleanStructuralNodes cs) by (rewrite Hcs; apply list_elem_of_here).
        apply list_elem_of_omap in Hin as (c & Hc & Hclean).
        rewrite Forall_forall in IH. eapply IH; eauto.
      * intros [= <-]. rewrite cleanStructuralNodes_unfold, Hid, Hr. cbv zeta.
        now rewrite Hfix.
    + destruct (omap cleanStructuralNodes cs) as [|c1 l] eqn:Hcs.
      * intros [= <-]. rewrite cleanStructuralNodes_unfold, Hid, Hr. cbv zeta.
        now rewrite Hcs.
      * intros [= <-]. rewrite cleanStructuralNodes_unfold, Hid, Hr. cbv zeta.
        now rewrite Hfix.
Qed.

Lemma cleanStructuralNodes_idempotent_witness :
  cleanStructuralNodes (Node (ax "2" "link" (Some "home") None None) None)
  = Some (Node (ax "2" "link" (Some "home") None None) None).
Proof.
  apply (cleanStructuralNodes_idempotent generic_over_link). reflexivity.
Defined.

(** A generic/none node that cleaning returns has at least two children. *)
Lemma cleaned_structural_has_two (t t' : TreeNode) :
  cleanStructuralNodes t = Some t' ->
  is_structural (role (node_of t')) = true ->
  exists c1 c2 l, children_of t' = Some (c1 :: c2 :: l).
Proof.
  revert t'. induction t as [n|n cs IH] using TreeNode_induction; intros t';
    rewrite cleanStructuralNodes_unfold;
    destruct (negb _ && is_negative _) eqn:Hid; try discriminate.
  - destruct (is_structural (role n)) eqn:Hr; [discriminate|]. intros [= <-].
    cbn [node_of]. congruence.
  - cbv zeta. destruct (is_structural (role n)) eqn:Hr.
    + destruct (omap cleanStructuralNodes cs) as [|c1 [|c2 l]] eqn:Hcs; try discriminate.
      * intros [= <-].
        assert (Hin : c1 ∈ omap cleanStructuralNodes cs) by (rewrite Hcs; apply list_elem_of_here).
        apply list_elem_of_omap in Hin as (c & Hc & Hclean).
        rewrite Forall_forall in IH. eapply IH; eauto.
      * intros [= <-] _. cbn [children_of]. eauto.
    + destruct (omap cleanStructuralNodes cs) as [|c1 l] eqn:Hcs;
        intros [= <-]; cbn [node_of]; congruence.
Qed.

(** X10: a root of the final tree that is a generic or none node has at
    least two children: cleaning never returns such a node with fewer. *)
Theorem buildHierarchicalTree_roots_not_childless
    (nodes : list AccessibilityNode) (trees : list TreeNode) (t : TreeNode) :
  tree <$> buildHierarchicalTree nodes = Some trees ->
  t ∈ trees ->
  is_structural (role (node_of t)) = true ->
  exists c1 c2 l, children_of t = Some (c1 :: c2 :: l).
Proof.
  unfold buildHierarchicalTree.
  destruct (linked_roots nodes) as [roots|]; [|discriminate].
  cbn [mbind option_bind fmap option_fmap option_map tree]. intros [= <-].
  intros (r & _ & Hclean)%list_elem_of_omap. now apply (cleaned_structural_has_two r).
Qed.

(** Cleaning only removes: every entry of the result is an entry of the
    tree that was cleaned. *)
Lemma cleanStructuralNodes_entries (t t' : TreeNode) (x : AccessibilityNode) :
  cleanStructuralNodes t = Some t' -> x ∈ entries t' -> x ∈ entries t.
Proof.
  revert t'. induction t as [n|n cs IH] using TreeNode_induction; intros t';
    rewrite cleanStructuralNodes_unfold;
    destruct (negb _ && is_negative _) eqn:Hid; try discriminate.
  - destruct (is_structural (role n)); [discriminate|]. now intros [= <-].
  - cbv zeta.
    assert (Hsub : x ∈ concat (map entries (omap cleanStructuralNodes cs)) ->
                   x ∈ concat (map entries cs)).
    { clear Hid. induction IH as [|c cs Hc _ IHcs]; [auto|].
      cbn [omap list_omap map concat].
      destruct (cleanStructuralNodes c) as [c'|]; cbn [map concat];
        rewrite ?elem_of_app; intuition eauto. }
    rewrite entries_unfold.
    destruct (is_structural (role n)).
    + destruct (omap cleanStructuralNodes cs) as [|c1 [|c2 l]] eqn:Hcs; try discriminate.
      * intros [= <-] Hx. apply list_elem_of_further, Hsub.
        cbn [map concat]. now rewrite app_nil_r.
      * intros [= <-]. rewrite entries_unfold, !elem_of_cons. intuition.
    + destruct (omap cleanStructuralNodes cs) as [|c1 l] eqn:Hcs.
      * intros [= <-]. now rewrite entries_unfold.
      * intros [= <-]. rewrite entries_unfold, !elem_of_cons. intuition.
Qed.

Lemma first_pass_step_from_input nodes m node :
  node ∈ nodes -> from_input nodes m -> from_input nodes (first_pass_step m node).
Proof.
  intros Hin Hm. unfold first_pass_step.
  destruct (is_negative (parseInt (nodeId node) (Some 10))); [exact Hm|].
  match goal with |- context [if ?b then _ else _] => destruct b end; [exact Hm|].
  intros k n ch Hk. apply lookup_insert_Some in Hk as [[_ Hk]|[_ Hk]].
  - injection Hk as <- _. exists node. split; [exact Hin|].
    unfold stored_from. cbn. repeat split; try reflexivity.
    match goal with |- context [if ?b then _ else _] => destruct b end; auto.
  - eapply Hm, Hk.
Qed.

Lemma second_pass_step_from_input nodes m node :
  from_input nodes m -> from_input nodes (second_pass_step m node).
Proof.
  intros Hm. unfold second_pass_step.
  destruct (truthy_string (parentId node)) as [pid|]; [|exact Hm].
  destruct (m !! nodeId node); [|exact Hm].
  destruct (m !! pid) as [[pn pch]|] eqn:Hp; [|exact Hm].
  intros k n ch Hk. apply lookup_insert_Some in Hk as [[_ Hk]|[_ Hk]].
  - injection Hk as <- _. eapply Hm, Hp.
  - eapply Hm, Hk.
Qed.

Lemma fold_left_from_input
    (step : gmap string Stored -> AccessibilityNode -> gmap string Stored)
    (nodes l : list AccessibilityNode) (m : gmap string Stored) :
  (forall m node, node ∈ nodes -> from_input nodes m -> from_input nodes (step m node)) ->
  l ⊆ nodes -> from_input nodes m -> from_input nodes (fold_left step l m).
Proof.
  intros Hstep. revert m. induction l as [|x l IH]; intros m Hl Hm; [exact Hm|].
  cbn [fold_left]. apply IH.
  - intros y Hy. apply Hl. now apply list_elem_of_further.
  - apply Hstep; [apply Hl, list_elem_of_here | exact Hm].
Qed.

Lemma tree_of_from_input (nodes : list AccessibilityNode) (fuel : nat)
    (m : gmap string Stored) (k : string) (t : TreeNode) :
  from_input nodes m -> tree_of fuel m k = Some t ->
  forall n, n ∈ entries t -> exists x, x ∈ nodes /\ stored_from x n.
Proof.
  intros Hm. revert k t. induction fuel as [|fuel IH]; intros k t; [discriminate|].
  cbn [tree_of]. destruct (m !! k) as [[n0 ch]|] eqn:Hk; [|discriminate].
  cbn [mbind option_bind]. destruct ch as [ids|].
  - destruct (mapM (tree_of fuel m) ids) as [cs|] eqn:Hcs; [|discriminate].
    cbn [mbind option_bind]. intros [= <-] n. rewrite entries_unfold.
    intros [->|Hn]%elem_of_cons; [eapply Hm, Hk|].
    apply mapM_Some_1 in Hcs. clear Hk.
    induction Hcs as [|id c ids cs Hc _ IHcs]; [now apply elem_of_nil in Hn|].
    cbn [map concat] in Hn. apply elem_of_app in Hn as [Hn|Hn]; eauto.
  - intros [= <-] n. rewrite entries_unfold.
    intros [->|Hn]%elem_of_cons; [eapply Hm, Hk | now apply elem_of_nil in Hn].
Qed.

(** X12: the builder invents nothing: every entry of the result, at any depth,
    is what the first pass stores of some entry of the input. *)
Theorem buildHierarchicalTree_entries_from_input
    (nodes : list AccessibilityNode) (trees : list TreeNode)
    (t : TreeNode) (n : AccessibilityNode) :
  tree <$> buildHierarchicalTree nodes = Some trees ->
  t ∈ trees -> n ∈ entries t ->
  exists x, x ∈ nodes /\ stored_from x n.
Proof.
  unfold buildHierarchicalTree, linked_roots.
  set (m := fold_left second_pass_step nodes (fold_left first_pass_step nodes ∅)).
  assert (Hm : from_input nodes m).
  { apply fold_left_from_input;
      [intros; now apply second_pass_step_from_input | reflexivity |].
    apply fold_left_from_input;
      [intros; now apply first_pass_step_from_input | reflexivity |].
    intros k n0 ch Hk. now rewrite lookup_empty in Hk. }
  destruct (mapM _ _) as [roots|] eqn:Hroots; [|discriminate].
  cbn [mbind option_bind fmap option_fmap option_map tree]. intros [= <-].
  intros (r & Hr & Hclean)%list_elem_of_omap Hn.
  apply (cleanStructuralNodes_entries _ _ _ Hclean) in Hn.
  apply mapM_Some_1 in Hroots.
  induction Hroots as [|x r' xs rs Hx _ IH]; [now apply elem_of_nil in Hr|].
  apply elem_of_cons in Hr as [->|Hr]; [|now apply IH].
  eapply tree_of_from_input; eauto.
Qed.

Lemma buildHierarchicalTree_no_negative_id_witness :
  existsb (anywhere negative_id)
    [Node (ax "1" "button" None None None)
       (Some [Node (ax "2" "generic" None None None) None])] = false.
Proof.
  destruct (buildHierarchicalTree button_over_generic) as [result|] eqn:Hbuild;
    [|vm_compute in Hbuild; discriminate].
  pose proof (buildHierarchicalTree_no_negative_id button_over_generic result Hbuild)
    as Hneg.
  vm_compute in Hbuild. injection Hbuild as <-. exact Hneg.
Defined.

Lemma buildHierarchicalTree_roots_not_childless_witness :
  exists c1 c2 l,
    children_of (Node (ax "1" "generic" None None None)
                   (Some [Node (ax "2" "button" (Some "a") None None) None;
                          Node (ax "3" "link" (Some "b") None None) None]))
    = Some (c1 :: c2 :: l).
Proof.
  apply (buildHierarchicalTree_roots_not_childless generic_over_two
           [Node (ax "1" "generic" None None None)
              (Some [Node (ax "2" "button" (Some "a") None None) None;
                     Node (ax "3" "link" (Some "b") None None) None])]);
    [vm_compute; reflexivity | apply list_elem_of_here | reflexivity].
Defined.

Lemma buildHierarchicalTree_entries_from_input_witness :
  exists x, x ∈ generic_over_two /\ stored_from x (ax "3" "link" (Some "b") None None).
Proof.
  apply (buildHierarchicalTree_entries_from_input generic_over_two
           [Node (ax "1" "generic" None None None)
              (Some [Node (ax "2" "button" (Some "a") None None) None;
                     Node (ax "3" "link" (Some "b") None None) None])]
           (Node (ax "1" "generic" None None None)
              (Some [Node (ax "2" "button" (Some "a") None None) None;
                     Node (ax "3" "link" (Some "b") None None) None])));
    [vm_compute; reflexivity | apply list_elem_of_here |].
  cbn. apply list_elem_of_further, list_elem_of_further, list_elem_of_here.
Defined.

End A11yMoreFacts.

Module AxTreeFacts.
Import JsString JsStringFacts Effects A11y AxTree AxTreeExamples InferenceFacts.

Lemma same_links_refl (node : AXNode) : same_links node node.
Proof. repeat split. Qed.

Lemma resolve_node_runs (browser : Browser) (role : option string) (id : Z)
    (node : AXNode) (events : list Event) :
  exists node' logs,
    resolve_node browser role id node events = (Ok node', events ++ logs) /\
    same_links node node' /\ Forall is_log logs.
Proof.
  assert (Hnil : forall n, same_links node n ->
             exists node' logs,
               (Ok n, events) = (Ok node', events ++ logs) /\
               same_links node node' /\ Forall is_log logs).
  { intros n Hn. exists n, []. rewrite app_nil_r. auto. }
  assert (Hone : forall n msg, same_links node n ->
             exists node' logs,
               (Ok n, events ++ [Log msg 2]) = (Ok node', events ++ logs) /\
               same_links node node' /\ Forall is_log logs).
  { intros n msg Hn. exists n, [Log msg 2]. repeat split; try apply Hn.
    repeat constructor. }
  unfold resolve_node, try_catch, mbind, M_bind, bind, lift, logger, emit, mret, M_ret, ret,
    getXPathByResolvedObjectId.
  destruct (resolveNode browser id) as [object|e]; [|apply Hone, same_links_refl].
  destruct (truthy_string object) as [objectId|]; [|apply Hnil, same_links_refl].
  destruct (node_path browser objectId) as [value|e];
    (destruct (bool_decide _); [destruct (tag_name browser objectId) as [result|e'];
                                [destruct (truthy_string result)|]|]);
    first [apply Hnil | apply Hone | idtac]; try (repeat split; fail).
  all: eexists; exists [Log ("Error fetching XPath for node " +:+ pretty id) 2;
                        Log ("Could not fetch tagName for node " +:+ pretty id) 2].
  all: rewrite <- app_assoc; split; [reflexivity|].
  all: split; [repeat split | repeat constructor].
Qed.

Lemma label_scrollable_links (ids : gset Z) (node : AXNode) :
  same_links node (label_scrollable ids node).
Proof.
  unfold label_scrollable. destruct (ax_backendDOMNodeId node) as [id|] eqn:E;
    [|apply same_links_refl].
  destruct (negb _ && _); [|apply same_links_refl]. repeat split.
Qed.

Lemma same_links_trans (a b c : AXNode) :
  same_links a b -> same_links b c -> same_links a c.
Proof. unfold same_links. intuition congruence. Qed.

Lemma enrich_runs (browser : Browser) (ids : gset Z) (node : AXNode)
    (events : list Event) :
  exists node' logs,
    enrich browser ids node events = (Ok node', events ++ logs) /\
    same_links node node' /\ Forall is_log logs.
Proof.
  unfold enrich. destruct (ax_backendDOMNodeId node) as [id|].
  - destruct (resolve_node_runs browser (ax_role node) id node events)
      as (n1 & logs & Hrun & Hlinks & Hlogs).
    erewrite bind_ok by exact Hrun. exists (label_scrollable ids n1), logs.
    split; [reflexivity|]. split; [|exact Hlogs].
    eapply same_links_trans; [exact Hlinks | apply label_scrollable_links].
  - erewrite bind_ok by reflexivity. exists (label_scrollable ids node), [].
    rewrite app_nil_r. split; [reflexivity|]. split; [|constructor].
    apply label_scrollable_links.
Qed.

Lemma enrich_all_runs (browser : Browser) (ids : gset Z) (nodes : list AXNode)
    (events : list Event) :
  exists nodes' logs,
    enrich_all browser ids nodes events = (Ok nodes', events ++ logs) /\
    Forall2 same_links nodes nodes' /\ Forall is_log logs.
Proof.
  revert events. induction nodes as [|node rest IH]; intros events.
  - exists [], []. rewrite app_nil_r. repeat split; constructor.
  - cbn [enrich_all].
    destruct (enrich_runs browser ids node events) as (n1 & l1 & H1 & Hn1 & Hl1).
    destruct (IH (events ++ l1)) as (r1 & l2 & H2 & Hr1 & Hl2).
    erewrite bind_ok by exact H1. erewrite bind_ok by exact H2.
    exists (n1 :: r1), (l1 ++ l2). rewrite app_assoc. split; [reflexivity|].
    split; [now constructor | now apply Forall_app].
Qed.

(** X13: the per-node lookups are best effort: when the scrollable elements
    and the snapshot are obtained, the tree is built from all the nodes
    of the snapshot, whatever fails while resolving a node, fetching its
    XPath or its tag name.  Only roles and XPaths differ from the
    snapshot, and the accessibility domain is switched off at the end. *)
Theorem getAccessibilityTree_lookups_are_best_effort
    (browser : Browser) (ids : gset Z) (nodes : list AXNode) (events : list Event) :
  enableCDP browser = Ok tt ->
  disableCDP browser = Ok tt ->
  findScrollableElementIds browser = Ok ids ->
  getFullAXTree browser = Ok nodes ->
  exists nodes' logs,
    getAccessibilityTree browser events
    = (Ok (buildHierarchicalTree (map source nodes')),
       events ++ [EnableCDP] ++ logs ++ [DisableCDP]) /\
    Forall2 same_links nodes nodes' /\
    Forall is_log logs.
Proof.
  intros Hen Hdis Hids Hnodes. unfold getAccessibilityTree.
  erewrite bind_ok by reflexivity. rewrite Hen. erewrite bind_ok by reflexivity.
  destruct (enrich_all_runs browser ids nodes (events ++ [EnableCDP]))
    as (nodes' & logs & Hrun & Hlinks & Hlogs).
  exists nodes', logs. split; [|auto].
  unfold finally, try_catch. rewrite Hids, Hnodes, Hdis.
  erewrite bind_ok by reflexivity. erewrite bind_ok by reflexivity.
  erewrite bind_ok by exact Hrun.
  unfold mret, M_ret, ret, mbind, M_bind, bind, emit, lift.
  now rewrite <- !app_assoc.
Qed.

Lemma getAccessibilityTree_lookups_are_best_effort_witness :
  exists nodes' logs,
    getAccessibilityTree unresolved_page []
    = (Ok (buildHierarchicalTree (map source nodes')),
       [] ++ [EnableCDP] ++ logs ++ [DisableCDP]) /\
    Forall2 same_links
      [ax_node "1" "generic" 7 None (Some ["2"]); ax_node "2" "button" 8 (Some "1") None]
      nodes' /\
    Forall is_log logs.
Proof.
  apply (getAccessibilityTree_lookups_are_best_effort unresolved_page {[ 7 ]});
    reflexivity.
Defined.

(** X14: once the accessibility domain has been switched on, it is switched
    off again on every path: the call that disables it is the last event,
    whether the tree is returned or an error is raised. *)
Theorem getAccessibilityTree_always_disables
    (browser : Browser) (events : list Event) :
  enableCDP browser = Ok tt ->
  exists between,
    (getAccessibilityTree browser events).2
    = events ++ [EnableCDP] ++ between ++ [DisableCDP] /\
    Forall is_log between.
Proof.
  intros Hen. unfold getAccessibilityTree.
  erewrite bind_ok by reflexivity. rewrite Hen. erewrite bind_ok by reflexivity.
  set (ev0 := events ++ [EnableCDP]).
  assert (Hbody : exists r between,
             try_catch
               (scrollableBackendIds ← lift (findScrollableElementIds browser);
                nodes ← lift (getFullAXTree browser);
                nodes0 ← enrich_all browser scrollableBackendIds nodes;
                mret (buildHierarchicalTree (map source nodes0)))
               (fun error => logger "Error getting accessibility tree" 1;; throw error)
               ev0
             = (r, ev0 ++ between) /\ Forall is_log between).
  { unfold try_catch.
    assert (Hfail : forall e,
               exists r between,
                 (logger "Error getting accessibility tree" 1;; throw e) ev0
                 = (r : Res (option TreeResult), ev0 ++ between)
                 /\ Forall is_log between).
    { intros e. eexists; exists [Log "Error getting accessibility tree" 1].
      split; [reflexivity | repeat constructor]. }
    destruct (findScrollableElementIds browser) as [ids|e] eqn:Hids;
      [|unfold mbind at 1, M_bind, bind, lift; apply Hfail].
    erewrite bind_ok by reflexivity.
    destruct (getFullAXTree browser) as [nodes|e] eqn:Hnodes;
      [|unfold mbind at 1, M_bind, bind, lift; apply Hfail].
    erewrite bind_ok by reflexivity.
    destruct (enrich_all_runs browser ids nodes ev0) as (nodes' & logs & Hrun & _ & Hlogs).
    erewrite bind_ok by exact Hrun. eexists; exists logs. split; [reflexivity | exact Hlogs]. }
  destruct Hbody as (r & between & Hbody & Hlogs).
  exists between. split; [|exact Hlogs].
  unfold finally. rewrite Hbody. subst ev0.
  unfold mbind, M_bind, bind, emit, lift.
  destruct (disableCDP browser) as [[]|e]; cbn [snd]; now rewrite <- !app_assoc.
Qed.

Lemma getAccessibilityTree_always_disables_witness :
  exists between,
    (getAccessibilityTree unresolved_page []).2
    = [] ++ [EnableCDP] ++ between ++ [DisableCDP] /\
    Forall is_log between.
Proof.
  apply (getAccessibilityTree_always_disables unresolved_page []). reflexivity.
Defined.



End AxTreeFacts.

Module NodePathFacts.
Import JsString Dom NodePath NodePathExamples.

Lemma lower_upper_char (c : ascii) : lower_char (upper_char c) = lower_char c.
Proof. destruct c as [[] [] [] [] [] [] [] []]; reflexivity. Qed.

Lemma upper_lower_char (c : ascii) : upper_char (lower_char c) = upper_char c.
Proof. destruct c as [[] [] [] [] [] [] [] []]; reflexivity. Qed.

Lemma toLowerCase_toUpperCase (s : string) : toLowerCase (toUpperCase s) = toLowerCase s.
Proof.
  induction s as [|c s IH]; [reflexivity|].
  cbn [toLowerCase toUpperCase map_string]. f_equal; [apply lower_upper_char | exact IH].
Qed.

Lemma toUpperCase_toLowerCase (s : string) : toUpperCase (toLowerCase s) = toUpperCase s.
Proof.
  induction s as [|c s IH]; [reflexivity|].
  cbn [toLowerCase toUpperCase map_string]. f_equal; [apply upper_lower_char | exact IH].
Qed.

Lemma same_type_named (sibling : DomNode) (t : string) (attrs : list (string * string))
    (kids : list DomNode) :
  same_type sibling (Element t attrs kids)
  = named (toLowerCase (nodeName (Element t attrs kids))) sibling.
Proof.
  destruct sibling as [d|u a k]; [reflexivity|]. cbn [same_type named nodeName].
  rewrite toLowerCase_toUpperCase.
  destruct (String.eqb_spec (toUpperCase u) (toUpperCase t)) as [He|Hne].
  - symmetry. apply String.eqb_eq.
    now rewrite <- (toLowerCase_toUpperCase u), He, toLowerCase_toUpperCase.
  - symmetry. apply String.eqb_neq. intros He. apply Hne.
    now rewrite <- (toUpperCase_toLowerCase u), He, toUpperCase_toLowerCase.
Qed.

(** The index that the loop computes selects the node back. *)
Lemma sibling_index_selects (current : DomNode) (siblings : list DomNode)
    (target pos index : nat) :
  (exists t a k, current = Element t a k) ->
  (pos <= target)%nat ->
  siblings !! (target - pos)%nat = Some current ->
  let found := sibling_index current target pos siblings index in
  (index < found)%nat /\
  nth_named (toLowerCase (nodeName current)) (found - index - 1) pos siblings = Some target.
Proof.
  intros (t & a & k & ->). revert pos index.
  induction siblings as [|sibling rest IH]; intros pos index Hle Hat; [discriminate|].
  cbn [sibling_index nth_named]. rewrite <- same_type_named.
  destruct (Nat.eqb_spec pos target) as [->|Hne].
  - rewrite Nat.sub_diag in Hat. injection Hat as ->.
    assert (Hself : same_type (Element t a k) (Element t a k) = true)
      by apply String.eqb_refl.
    rewrite Hself. cbv zeta. split; [lia|].
    now replace (S index - index - 1)%nat with 0%nat by lia.
  - assert (Hat' : rest !! (target - S pos)%nat = Some (Element t a k)).
    { replace (target - pos)%nat with (S (target - S pos)) in Hat by lia. exact Hat. }
    destruct (same_type sibling (Element t a k)).
    + destruct (IH (S pos) (S index)) as [Hlt Hnth]; [lia | exact Hat'|].
      cbv zeta. split; [lia|].
      set (found := sibling_index _ _ _ _ _) in *.
      replace (found - index - 1)%nat with (S (found - S index - 1)) by lia.
      exact Hnth.
    + destruct (IH (S pos) index) as [Hlt Hnth]; [lia | exact Hat'|].
      cbv zeta. split; [lia | exact Hnth].
Qed.

Lemma node_at_snoc (root : DomNode) (q : Path) (i : nat) (n : DomNode) :
  node_at root (q ++ [i]) = Some n ->
  exists parent, node_at root q = Some parent /\ childNodes parent !! i = Some n.
Proof.
  revert root. induction q as [|j q IH]; intros root.
  - cbn [app node_at]. destruct root as [d|t a kids]; [discriminate|].
    destruct (kids !! i) as [kid|] eqn:Hi; [|discriminate].
    cbn. intros [= <-]. eauto.
  - cbn [app node_at]. destruct root as [d|t a kids]; [discriminate|].
    destruct (kids !! j) as [kid|]; [|discriminate]. cbn. apply IH.
Qed.

Lemma has_child_is_element (parent n : DomNode) (i : nat) :
  childNodes parent !! i = Some n -> exists t a k, parent = Element t a k.
Proof. destruct parent; [discriminate | eauto]. Qed.

Lemma named_html (t : string) (a : list (string * string)) (k : list DomNode) :
  named (if String.eqb (toLowerCase (nodeName (Element t a k))) "html"
         then "html" else toLowerCase (nodeName (Element t a k)))
    (Element t a k) = true.
Proof.
  cbn [nodeName named]. rewrite toLowerCase_toUpperCase.
  destruct (String.eqb_spec (toLowerCase t) "html") as [He|_];
    [now apply String.eqb_eq | apply String.eqb_refl].
Qed.

Lemma parts_from_follow (root : DomNode) (up : list nat) (acc : list Part)
    (n : DomNode) :
  node_at root (rev up) = Some n ->
  (exists t a k, n = Element t a k) ->
  (forall pre i above m,
      up = pre ++ i :: above -> node_at root (rev (i :: above)) = Some m ->
      toLowerCase (nodeName m) <> "html") ->
  follow root (parts_from root up acc) = (p ← descend n acc; Some (rev up ++ p)).
Proof.
  revert acc n. induction up as [|i above IH]; intros acc n Hat Hel Hhtml.
  - cbn [rev node_at] in Hat. injection Hat as ->. destruct Hel as (t & a & k & ->).
    cbn [parts_from rev node_at]. pose proof (named_html t a k) as Hnamed.
    destruct (String.eqb (toLowerCase (nodeName (Element t a k))) "html");
      cbn [follow]; rewrite Hnamed; cbn [andb Nat.leb];
      destruct (descend (Element t a k) acc); reflexivity.
  - cbn [parts_from]. rewrite Hat.
    assert (Hnot : String.eqb (toLowerCase (nodeName n)) "html" = false).
    { apply String.eqb_neq. apply (Hhtml [] i above n); [reflexivity | exact Hat]. }
    rewrite Hnot. cbn [rev] in Hat.
    destruct (node_at_snoc _ _ _ _ Hat) as (parent & Hparent & Hchild).
    rewrite Hparent. destruct Hel as (t & a & k & ->).
    rewrite (IH _ parent Hparent (has_child_is_element _ _ _ Hchild)).
    + cbn [descend].
      destruct (sibling_index_selects (Element t a k) (childNodes parent) i 0 0)
        as [Hpos Hnth]; [eauto | lia | now rewrite Nat.sub_0_r|].
      replace (pred (sibling_index (Element t a k) i 0 (childNodes parent) 0))
        with (sibling_index (Element t a k) i 0 (childNodes parent) 0 - 0 - 1)%nat by lia.
      rewrite Hnth. cbn [mbind option_bind]. rewrite Hchild. cbn [mbind option_bind].
      destruct (descend (Element t a k) acc) as [p|]; [|reflexivity].
      cbn [mbind option_bind rev]. now rewrite <- app_assoc.
    + intros pre j above' m Hup. apply (Hhtml (i :: pre) j above' m). now rewrite Hup.
Qed.

(** X16: the path that [getNodePath] computes for an element leads back to
    that element: each part names the element's tag and its index among
    the siblings with that tag.  (No element below the root is an [html]
    element, as in every document.) *)
Theorem getNodePath_leads_back (root : DomNode) (el : Path)
    (t : string) (a : list (string * string)) (k : list DomNode) :
  node_at root el = Some (Element t a k) ->
  (forall q i rest m,
      el = q ++ i :: rest -> node_at root (q ++ [i]) = Some m ->
      toLowerCase (nodeName m) <> "html") ->
  follow root (getNodePath_parts root el) = Some el /\
  getNodePath root el
  = "/" +:+ join "/" (map segment (getNodePath_parts root el)).
Proof.
  intros Hat Hhtml.
  assert (Hfollow : follow root (getNodePath_parts root el) = Some el).
  { unfold getNodePath_parts. rewrite Hat.
    rewrite (parts_from_follow root (rev el) [] (Element t a k)).
    - cbn [descend mbind option_bind]. now rewrite rev_involutive, app_nil_r.
    - now rewrite rev_involutive.
    - eauto.
    - intros pre i above m Hup Hm. cbn [rev] in Hm.
      apply (Hhtml (rev above) i (rev pre) m); [|exact Hm].
      rewrite <- (rev_involutive el), Hup, rev_app_distr. cbn [rev].
      now rewrite <- app_assoc. }
  split; [exact Hfollow|].
  unfold getNodePath. destruct (getNodePath_parts root el); [discriminate | reflexivity].
Qed.

Lemma getNodePath_leads_back_witness :
  follow two_divs (getNodePath_parts two_divs [1; 2; 0]%nat) = Some [1; 2; 0]%nat /\
  getNodePath two_divs [1; 2; 0]%nat
  = "/" +:+ join "/" (map segment (getNodePath_parts two_divs [1; 2; 0]%nat)).
Proof.
  apply (getNodePath_leads_back two_divs [1; 2; 0]%nat "p" [] []); [reflexivity|].
  intros q i rest m Hel Hm E.
  destruct q as [|? [|? [|? q]]]; simplify_eq/=; try discriminate.
  now destruct q.
Defined.

End NodePathFacts.

(** ** Further functions: acting on the page *)

Module KeysFacts.
Import JsString JsStringFacts Effects Keys.

Lemma upper_char_idempotent (c : ascii) : upper_char (upper_char c) = upper_char c.
Proof. destruct c as [[] [] [] [] [] [] [] []]; reflexivity. Qed.

Lemma toUpperCase_idempotent (s : string) : toUpperCase (toUpperCase s) = toUpperCase s.
Proof.
  induction s as [|c s IH]; [reflexivity|].
  cbn [toUpperCase map_string]. f_equal; [apply upper_char_idempotent | exact IH].
Qed.

Lemma entry_elem (k v : string) (table : list (string * string)) :
  entry k table = Some v -> (k, v) ∈ table.
Proof.
  induction table as [|[k' v'] table IH]; [discriminate|]. cbn [entry].
  destruct (String.eqb_spec k k') as [->|_].
  - intros [= ->]. apply list_elem_of_here.
  - intros H. apply list_elem_of_further, IH, H.
Qed.

Lemma keyMap_values_fixed (darwin : bool) (k v : string) :
  (k, v) ∈ keyMap darwin -> v <> EmptyString /\ convertKeyName darwin v = v.
Proof.
  assert (H : forallb (fun kv => negb (String.eqb kv.2 EmptyString)
                                 && String.eqb (convertKeyName darwin kv.2) kv.2)
                (keyMap darwin) = true) by (destruct darwin; vm_compute; reflexivity).
  rewrite forallb_forall in H. intros Hin.
  apply list_elem_of_In, H, andb_true_iff in Hin as [Hne Heq]. cbn [snd] in *.
  apply negb_true_iff, String.eqb_neq in Hne. apply String.eqb_eq in Heq. auto.
Qed.

(** X17: converting a converted key changes nothing, on either platform:
    every key that [convertKeyName] returns is one it returns unchanged. *)
Theorem convertKeyName_idempotent (darwin : bool) (key : string) :
  convertKeyName darwin (convertKeyName darwin key) = convertKeyName darwin key.
Proof.
  unfold convertKeyName at 2 3.
  destruct (entry (toUpperCase key) (keyMap darwin)) as [v|] eqn:He.
  - apply entry_elem, keyMap_values_fixed in He as [Hne Hfix].
    apply String.eqb_neq in Hne. rewrite Hne. exact Hfix.
  - unfold convertKeyName. now rewrite He.
Qed.

(** X18: two spellings of one name that differ only in case convert to
    the same key; a name that the table does not hold is returned as it
    is spelled. *)
Theorem convertKeyName_ignores_case (darwin : bool) (key key' : string) :
  toUpperCase key = toUpperCase key' ->
  convertKeyName darwin key = convertKeyName darwin key'
  \/ (convertKeyName darwin key = key /\ convertKeyName darwin key' = key').
Proof.
  intros Heq. unfold convertKeyName. rewrite <- Heq.
  destruct (entry (toUpperCase key) (keyMap darwin)) as [v|] eqn:He; [|now right].
  apply entry_elem, keyMap_values_fixed in He as [Hne _].
  apply String.eqb_neq in Hne. rewrite Hne. now left.
Qed.

Lemma convertKeyName_ignores_case_witness :
  convertKeyName false "enter" = convertKeyName false "Enter"
  \/ (convertKeyName false "enter" = "enter" /\ convertKeyName false "Enter" = "Enter").
Proof. apply (convertKeyName_ignores_case false "enter" "Enter"). reflexivity. Defined.

Lemma for_each_steady (mk : string -> KeyEvent) (l : list string)
    (sent : list KeyEvent) :
  for_each (fun key => send steady (mk key)) l sent = (Ok tt, sent ++ map mk l).
Proof.
  revert sent. induction l as [|x l IH]; intros sent.
  - cbn. now rewrite app_nil_r.
  - cbn [for_each map]. erewrite InferenceFacts.bind_ok by reflexivity.
    rewrite IH. now rewrite <- app_assoc.
Qed.

Lemma held_downs (ks : list string) (rest : list KeyEvent) (down : list string) :
  held (map KeyDown ks ++ rest) down = held rest (rev ks ++ down).
Proof.
  revert down. induction ks as [|k ks IH]; intros down; [reflexivity|].
  cbn [map app held rev]. rewrite IH. now rewrite <- app_assoc.
Qed.

Lemma held_ups (ks down : list string) :
  held (map KeyUp ks) (ks ++ down) = Some down.
Proof.
  induction ks as [|k ks IH]; [reflexivity|].
  cbn [map app held]. now rewrite String.eqb_refl.
Qed.

(** X19: a combination on a keyboard that takes every call: the keys go down
    in the order of the action and come up in the reverse order, so that
    each release is of the key pressed last among those still held, and
    nothing is held in the end. *)
Theorem keypress_combination_releases_in_reverse
    (darwin : bool) (keys : list string) (sent : list KeyEvent) :
  hasModifier keys = true ->
  let playwrightKeys := map (combination_key darwin) keys in
  let calls := map KeyDown playwrightKeys ++ map KeyUp (rev playwrightKeys) in
  keypress_case darwin steady (Some keys) sent = (Ok tt, sent ++ calls) /\
  held calls [] = Some [].
Proof.
  intros Hmod playwrightKeys calls. split.
  - unfold keypress_case. rewrite Hmod. fold playwrightKeys.
    erewrite InferenceFacts.bind_ok by apply for_each_steady.
    rewrite for_each_steady. now rewrite <- app_assoc.
  - subst calls. rewrite held_downs, app_nil_r. rewrite <- (app_nil_r (rev _)) at 2.
    apply held_ups.
Qed.

Lemma keypress_combination_releases_in_reverse_witness :
  keypress_case false steady (Some ["CTRL"; "SHIFT"; "a"]) []
  = (Ok tt, [KeyDown "Meta"; KeyDown "Control"; KeyDown "a";
             KeyUp "a"; KeyUp "Control"; KeyUp "Meta"]).
Proof.
  apply (keypress_combination_releases_in_reverse false ["CTRL"; "SHIFT"; "a"] []).
  reflexivity.
Defined.

Lemma includes_true (s p : string) :
  includes s p = true <-> exists pre post, s = pre +:+ p +:+ post.
Proof.
  unfold includes. destruct (find_first p s) as [[pre post]|] eqn:Hf.
  - apply find_first_sound in Hf as [Heq _]. split; eauto.
  - apply find_first_None in Hf. split; [discriminate|].
    intros (pre & post & Heq). now destruct (Hf pre post).
Qed.

(** X20: a key whose name contains [BACKSPACE] contains [SPACE]: without a
    modifier it is pressed as Enter or as the space bar, never as
    Backspace. *)
Theorem keypress_backspace_presses_space (darwin : bool) (key : string) :
  includes key "BACKSPACE" = true ->
  individual_key darwin key = "Enter" \/ individual_key darwin key = " ".
Proof.
  intros (pre & post & ->)%includes_true.
  assert (Hsp : includes (pre +:+ "BACKSPACE" +:+ post) "SPACE" = true).
  { apply includes_true. exists (pre +:+ "BACK"), post.
    rewrite !append_assoc. reflexivity. }
  unfold individual_key. rewrite Hsp.
  destruct (includes _ "ENTER"); auto.
Qed.

Lemma keypress_backspace_presses_space_witness :
  individual_key false "BACKSPACE" = "Enter" \/ individual_key false "BACKSPACE" = " ".
Proof. apply (keypress_backspace_presses_space false "BACKSPACE"). reflexivity. Defined.

End KeysFacts.

Module PlaywrightFacts.
Import JsString JsStringFacts JsValue JsConvert Playwright PlaywrightExamples.

Lemma bind_done {A B} (m : P A) (k : A -> P B) (a : A) (events events' : list Event) :
  m events = (Done a, events') -> (m ≫= k) events = k a events'.
Proof. intros H. unfold mbind, P_bind. now rewrite H. Qed.

Lemma bind_raise {A B} (m : P A) (k : A -> P B) (e : Exception)
    (events events' : list Event) :
  m events = (Raise e, events') -> (m ≫= k) events = (Raise e, events').
Proof. intros H. unfold mbind, P_bind. now rewrite H. Qed.

Lemma bind_inv {A B} (m : P A) (k : A -> P B) (r : Outcome B)
    (events events' : list Event) :
  (m ≫= k) events = (r, events') ->
  (exists a mid, m events = (Done a, mid) /\ k a mid = (r, events'))
  \/ (exists e, m events = (Raise e, events') /\ r = Raise e).
Proof.
  unfold mbind, P_bind. destruct (m events) as [[a|e] mid].
  - intros H. left. eauto.
  - intros [= <- <-]. right. eauto.
Qed.

Lemma characters_join (text : string) : join EmptyString (characters text) = text.
Proof.
  induction text as [|c text IH]; [reflexivity|].
  cbn [characters join]. destruct (characters text) as [|x l] eqn:E.
  - destruct text; [reflexivity | discriminate].
  - rewrite IH. reflexivity.
Qed.

Lemma calls_of_app (a b : list Event) : calls_of (a ++ b) = calls_of a ++ calls_of b.
Proof. apply omap_app. Qed.

(** X21: a method that is none of the four special ones and that the locator
    does not have is refused before any call is made. *)
Theorem performPlaywrightMethod_refuses_unknown_method
    (page : Page) (method : string) (args : list JSValue) (events : list Event) :
  method ∉ ["scrollIntoView"; "fill"; "type"; "press"] ->
  has_method page method = false ->
  performPlaywrightMethod page method args events
  = (Raise (PlaywrightCommandMethodNotSupportedException
              ("Method " +:+ method +:+ " not supported")),
     events ++ [Log "performing playwright method" 2; Log "chosen method is invalid" 1]).
Proof.
  intros Hm Hhas. unfold performPlaywrightMethod.
  repeat (apply not_elem_of_cons in Hm as [?%String.eqb_neq Hm]).
  erewrite bind_done by reflexivity. erewrite bind_done by reflexivity.
  repeat match goal with H : String.eqb _ _ = false |- _ => rewrite H; clear H end.
  cbn [orb]. rewrite Hhas. erewrite bind_done by reflexivity.
  unfold raise. now rewrite <- app_assoc.
Qed.

Lemma performPlaywrightMethod_refuses_unknown_method_witness :
  performPlaywrightMethod calm_page "selectOption" [JStr "b"] []
  = (Raise (PlaywrightCommandMethodNotSupportedException
              "Method selectOption not supported"),
     [Log "performing playwright method" 2; Log "chosen method is invalid" 1]).
Proof.
  apply (performPlaywrightMethod_refuses_unknown_method calm_page "selectOption"
           [JStr "b"] []); [|reflexivity].
  intros H. repeat (apply elem_of_cons in H as [H|H]; [discriminate|]).
  now apply elem_of_nil in H.
Defined.

(** X22: scrolling into view never raises: a failure of the call is logged and
    the function returns. *)
Theorem performPlaywrightMethod_scroll_never_raises
    (page : Page) (args : list JSValue) (events : list Event) :
  exists events',
    performPlaywrightMethod page "scrollIntoView" args events = (Done tt, events') /\
    calls_of events' = calls_of events ++ [ScrollIntoView].
Proof.
  unfold performPlaywrightMethod.
  erewrite bind_done by reflexivity. erewrite bind_done by reflexivity.
  cbn [String.eqb Ascii.eqb Bool.eqb]. erewrite bind_done by reflexivity.
  unfold guarded, try_catch, call, logger.
  destruct (rejects page _ ScrollIntoView); eexists; (split; [reflexivity|]);
    rewrite !calls_of_app; cbn; now rewrite ?app_nil_r.
Qed.

Lemma type_each_calm (page : Page) (chars : list string) (events : list Event) :
  (forall evs c, rejects page evs c = None) ->
  type_each page chars events
  = (Done tt, events ++ map (fun c => Call (KeyboardType c)) chars).
Proof.
  intros Hcalm. revert events. induction chars as [|c chars IH]; intros events.
  - cbn. now rewrite app_nil_r.
  - cbn [type_each map]. erewrite bind_done
      by (unfold call; rewrite Hcalm; reflexivity).
    rewrite IH. now rewrite <- app_assoc.
Qed.

Lemma calls_of_calls (cs : list PageCall) : calls_of (map Call cs) = cs.
Proof. induction cs as [|c cs IH]; [reflexivity|]. cbn. now f_equal. Qed.

(** X23: filling (or typing into) an element on a page that takes every call:
    the field is cleared and clicked, and then the text is typed one
    character at a time, in order. *)
Theorem performPlaywrightMethod_fill_types_each_character
    (page : Page) (method : string) (args : list JSValue) (text : string)
    (events : list Event) :
  method = "fill" \/ method = "type" ->
  (forall evs c, rejects page evs c = None) ->
  head args ≫= toString_opt = Some text ->
  exists events',
    performPlaywrightMethod page method args events = (Done tt, events') /\
    calls_of events'
    = calls_of events ++ Fill EmptyString :: Click :: map KeyboardType (characters text) /\
    join EmptyString (characters text) = text.
Proof.
  intros Hm Hcalm Htext. unfold performPlaywrightMethod.
  erewrite bind_done by reflexivity. erewrite bind_done by reflexivity.
  assert (Hb : String.eqb method "scrollIntoView" = false
               /\ String.eqb method "fill" || String.eqb method "type" = true)
    by (destruct Hm as [-> | ->]; split; reflexivity).
  destruct Hb as [-> ->]. rewrite Htext.
  unfold guarded, try_catch.
  erewrite bind_done by (unfold call; rewrite Hcalm; reflexivity).
  erewrite bind_done by (unfold call; rewrite Hcalm; reflexivity).
  rewrite type_each_calm by exact Hcalm.
  eexists. split; [reflexivity|]. split; [|apply characters_join].
  rewrite !calls_of_app. cbn [calls_of omap list_omap app].
  rewrite <- !app_assoc. cbn [app]. do 3 f_equal.
  rewrite <- (calls_of_calls (map KeyboardType (characters text))).
  now rewrite map_map.
Qed.

Lemma performPlaywrightMethod_fill_types_each_character_witness :
  exists events',
    performPlaywrightMethod calm_page "fill" [JStr "hi"] [] = (Done tt, events') /\
    calls_of events'
    = [Fill EmptyString; Click; KeyboardType "h"; KeyboardType "i"] /\
    join EmptyString (characters "hi") = "hi".
Proof.
  apply (performPlaywrightMethod_fill_types_each_character calm_page "fill"
           [JStr "hi"] "hi" []); [now left | reflexivity | reflexivity].
Defined.

(** X24: filling without a text: the field is cleared and clicked before the
    missing text is noticed, and the engine's error is rethrown as a
    [PlaywrightCommandException]. *)
Theorem performPlaywrightMethod_fill_without_text
    (page : Page) (method : string) (args : list JSValue) (events : list Event) :
  method = "fill" \/ method = "type" ->
  (forall evs, rejects page evs (Fill EmptyString) = None) ->
  (forall evs, rejects page evs Click = None) ->
  head args ≫= toString_opt = None ->
  exists events',
    performPlaywrightMethod page method args events
    = (Raise (PlaywrightCommandException (not_iterable page)), events') /\
    calls_of events' = calls_of events ++ [Fill EmptyString; Click].
Proof.
  intros Hm Hfill Hclick Htext. unfold performPlaywrightMethod.
  erewrite bind_done by reflexivity. erewrite bind_done by reflexivity.
  assert (Hb : String.eqb method "scrollIntoView" = false
               /\ String.eqb method "fill" || String.eqb method "type" = true)
    by (destruct Hm as [-> | ->]; split; reflexivity).
  destruct Hb as [-> ->]. rewrite Htext.
  unfold guarded, try_catch.
  erewrite bind_done by (unfold call; rewrite Hfill; reflexivity).
  erewrite bind_done by (unfold call; rewrite Hclick; reflexivity).
  unfold raise at 1. erewrite bind_done by reflexivity. unfold raise.
  eexists. split; [reflexivity|].
  rewrite !calls_of_app. cbn. now rewrite <- !app_assoc, ?app_nil_r.
Qed.

Lemma performPlaywrightMethod_fill_without_text_witness :
  exists events',
    performPlaywrightMethod calm_page "fill" [] []
    = (Raise (PlaywrightCommandException "text is not iterable"), events') /\
    calls_of events' = [Fill EmptyString; Click].
Proof.
  apply (performPlaywrightMethod_fill_without_text calm_page "fill" [] []);
    [now left | reflexivity | reflexivity | reflexivity].
Defined.














Lemma guarded_raises (label : string) (m : P unit) (e : Exception)
    (events events' : list Event) :
  guarded label m events = (Raise e, events') ->
  exists msg, e = PlaywrightCommandException msg.
Proof.
  unfold guarded, try_catch. destruct (m events) as [[a|e0] mid]; [discriminate|].
  unfold mbind, P_bind, logger, raise. intros [= <- _]. eauto.
Qed.

(** X26: whatever the page does, an error of a call is rethrown as a
    [PlaywrightCommandException]; the only errors that come out as they
    were raised are those of closing a new tab and of navigating to its
    URL after a click. *)
Theorem performPlaywrightMethod_rethrows_as_command_exception
    (page : Page) (method : string) (args : list JSValue)
    (events events' : list Event) (e : Exception) :
  performPlaywrightMethod page method args events = (Raise e, events') ->
  match e with
  | PlaywrightCommandException _ => True
  | PlaywrightCommandMethodNotSupportedException msg =>
      msg = "Method " +:+ method +:+ " not supported" /\ has_method page method = false
  | Error _ => method = "click" /\ Call CloseTab ∈ events'
  end.
Proof.
  unfold performPlaywrightMethod.
  erewrite bind_done by reflexivity. erewrite bind_done by reflexivity.
  set (ev0 := events ++ [Log "performing playwright method" 2]).
  destruct (String.eqb method "scrollIntoView").
  { erewrite bind_done by reflexivity. now intros (msg & ->)%guarded_raises. }
  destruct (String.eqb method "fill" || String.eqb method "type").
  { now intros (msg & ->)%guarded_raises. }
  destruct (String.eqb method "press").
  { now intros (msg & ->)%guarded_raises. }
  destruct (has_method page method) eqn:Hhas.
  - erewrite bind_done by reflexivity.
    intros [(a & mid & H1 & H2)|(e0 & H1 & [= <-])]%bind_inv;
      [|now apply guarded_raises in H1 as (msg & ->)].
    destruct (String.eqb_spec method "click") as [Hclick|_]; [|discriminate].
    revert H2. clear H1.
    unfold mbind, P_bind, logger, opened_tab, call, try_catch, page_url, mret, P_ret.
    destruct (new_tab page _) as [tabUrl|];
      repeat match goal with
             | |- context [rejects page ?a ?b] => destruct (rejects page a b)
             | |- context [String.eqb ?a ?b] => destruct (String.eqb a b)
             end;
      intros [= <- <-]; (split; [exact Hclick|]);
      rewrite ?elem_of_app, ?elem_of_cons; auto 20.
  - erewrite bind_done by reflexivity. unfold raise. intros [= <- _]. auto.
Qed.

Lemma performPlaywrightMethod_rethrows_as_command_exception_witness :
  "click" = "click"
  /\ Call CloseTab ∈ (performPlaywrightMethod offline_page "click" [] []).2.
Proof.
  apply (performPlaywrightMethod_rethrows_as_command_exception offline_page "click" [] []
           (performPlaywrightMethod offline_page "click" [] []).2
           (Error "net::ERR_INTERNET_DISCONNECTED")).
  vm_compute. reflexivity.
Defined.

End PlaywrightFacts.

Module AgentMoreFacts.
Import JsString Effects JsValue Agent Examples InferenceFacts AgentFacts.

Lemma recordAction_appends (drv : Driver) (action : AgentAction)
    (result : ActionExecutionResult) (captured sel : option string) (st : AgentState) :
  exists st' added,
    recordAction drv action result captured sel st = (Ok tt, st') /\
    recordedActions st' = recordedActions st ++ added /\
    (length added <= 1)%nat.
Proof.
  unfold recordAction. erewrite bind_ok by reflexivity.
  set (st1 := {| recordedActions := recordedActions st;
                 trace := trace st ++ [EvRecord (action_type action)] |}).
  destruct (record_entry_spec drv action result sel st1) as (r & st2 & Hr & Hrec & _ & _).
  unfold try_catch, mbind, M_bind, bind. rewrite Hr.
  destruct r as [[entry|]|e].
  - eexists; exists [entry]. split; [reflexivity|]. cbn. rewrite Hrec. auto.
  - eexists; exists []. split; [reflexivity|]. rewrite app_nil_r. auto.
  - eexists; exists []. split; [reflexivity|]. cbn. rewrite app_nil_r. auto.
Qed.

(** X27: the session only grows: whatever the driver does and however
    [executeAction] ends, the entries recorded before are still there, in
    order, followed by at most one new entry. *)
Theorem executeAction_appends_at_most_one
    (drv : Driver) (action : AgentAction) (st : AgentState) :
  exists added,
    recordedActions (executeAction drv action st).2 = recordedActions st ++ added /\
    (length added <= 1)%nat.
Proof.
  assert (Hsame : forall r (st' : AgentState),
             recordedActions st' = recordedActions st ->
             exists added,
               recordedActions (r : Res ActionExecutionResult, st').2
               = recordedActions st ++ added /\ (length added <= 1)%nat).
  { intros r st' H. exists []. cbn. rewrite app_nil_r. auto. }
  unfold executeAction.
  destruct (mkdir_error drv) as [e|]; [now apply Hsame|].
  erewrite bind_ok by reflexivity.
  destruct (before_screenshot_error drv) as [e|]; [now apply Hsame|].
  erewrite bind_ok by reflexivity. erewrite bind_ok by reflexivity.
  set (performed := dispatch drv action).
  match goal with
  | |- context [(finally ?m ?f ≫= ?k) ?s] =>
      change ((finally m f ≫= k) s)
        with (match finally m f s with
              | (Ok a, s') => k a s'
              | (Throw e, s') => (Throw e, s')
              end);
      assert (Hrun : exists r st2, finally m f s = (r, st2)
                                   /\ recordedActions st2 = recordedActions st)
  end.
  { unfold finally, try_catch, mbind, M_bind, bind, lift, emit, raise_if, ret, mret, M_ret,
      throw.
    cbn. destruct (p_outcome performed); destruct (after_screenshot_error drv);
      cbn; eauto. }
  destruct Hrun as (r & st2 & Hrun & Hrec). rewrite Hrun.
  destruct r as [result|e]; [|now apply Hsame].
  destruct (recordAction_appends drv action result (p_targetElement performed)
              (p_selector performed) st2) as (st3 & added & Hrecord & Happ & Hlen).
  erewrite bind_ok by exact Hrecord. exists added. cbn. rewrite Happ, Hrec. auto.
Qed.

(** X28: when the capture after the action fails, its error comes out of
    [executeAction]: the action has been dispatched, but its result is
    lost and the recorder is not invoked. *)
Theorem executeAction_after_screenshot_failure
    (drv : Driver) (action : AgentAction) (st : AgentState) (e : string) :
  mkdir_error drv = None ->
  before_screenshot_error drv = None ->
  after_screenshot_error drv = Some e ->
  exists log,
    executeAction drv action st
    = (Throw e,
       {| recordedActions := recordedActions st;
          trace := trace st ++ [EvScreenshot "before.png";
                                EvDispatch (action_type action)] ++ log |}) /\
    Forall (fun ev => exists msg, ev = EvLog msg) log.
Proof.
  intros Hmk Hbefore Hafter. unfold executeAction. rewrite Hmk, Hbefore, Hafter.
  erewrite bind_ok by reflexivity. erewrite bind_ok by reflexivity.
  erewrite bind_ok by reflexivity.
  unfold finally, try_catch, mbind, M_bind, bind, lift, emit, raise_if, ret, mret, M_ret,
    throw.
  cbn. destruct (p_outcome (dispatch drv action)) as [r|err]; cbn.
  - exists []. rewrite <- app_assoc. split; [reflexivity | constructor].
  - eexists [_]. rewrite <- !app_assoc. split; [reflexivity|].
    repeat constructor. eauto.
Qed.

(** X29: an action of a type that the handler does not know is not passed to
    the page; it is answered with [success = false] and the message, and
    recorded under its own type name, without selector or details. *)
Theorem executeAction_unsupported_type
    (drv : Driver) (action : AgentAction) (st : AgentState) :
  action_type action ∉ supported_types ->
  mkdir_error drv = None ->
  before_screenshot_error drv = None ->
  after_screenshot_error drv = None ->
  exists st',
    executeAction drv action st
    = (Ok {| success := false;
             error := Some ("Unsupported action type: " +:+ action_type action) |}, st') /\
    recordedActions st'
    = recordedActions st ++ [{| r_action := action_type action;
                                r_timestamp := timestamp drv;
                                r_success := false;
                                r_selector := None;
                                r_details := [] |}].
Proof.
  intros Hty Hmk Hbefore Hafter. unfold executeAction. rewrite Hmk, Hbefore, Hafter.
  erewrite bind_ok by reflexivity. erewrite bind_ok by reflexivity.
  erewrite bind_ok by reflexivity.
  unfold dispatch. rewrite (bool_decide_eq_false_2 (_ ∈ supported_types)) by exact Hty.
  unfold supported_types in Hty.
  repeat (apply not_elem_of_cons in Hty as [?%String.eqb_neq Hty]).
  rewrite bool_decide_eq_false_2
    by (intros Hin; repeat (apply elem_of_cons in Hin as [Hin|Hin];
                            [apply String.eqb_eq in Hin; congruence|]);
        now apply elem_of_nil in Hin).
  cbn [p_outcome p_targetElement p_selector].
  erewrite bind_ok by reflexivity.
  unfold recordAction, record_entry. cbn [action_type success].
  rewrite !bool_decide_eq_false_2
    by (intros Hin; repeat (apply elem_of_cons in Hin as [Hin|Hin];
                            [apply String.eqb_eq in Hin; congruence|]);
        now apply elem_of_nil in Hin).
  repeat match goal with H : String.eqb _ _ = false |- _ => rewrite H; clear H end.
  eexists. split; reflexivity.
Qed.

Lemma executeAction_after_screenshot_failure_witness :
  exists log,
    executeAction
      {| mkdir_error := None; before_screenshot_error := None;
         after_screenshot_error := Some "Target closed";
         perform := fun _ => succeeds; timestamp := "2025-01-01T00:00:00.000Z";
         active_selector := Some "body"; selector_at := fun _ _ => Some "#save";
         cursor_position := Ok (JNum 0, JNum 0) |}
      click_action fresh_session
    = (Throw "Target closed",
       {| recordedActions := [];
          trace := [] ++ [EvScreenshot "before.png"; EvDispatch "click"] ++ log |}) /\
    Forall (fun ev => exists msg, ev = EvLog msg) log.
Proof.
  apply (executeAction_after_screenshot_failure
           {| mkdir_error := None; before_screenshot_error := None;
              after_screenshot_error := Some "Target closed";
              perform := fun _ => succeeds; timestamp := "2025-01-01T00:00:00.000Z";
              active_selector := Some "body"; selector_at := fun _ _ => Some "#save";
              cursor_position := Ok (JNum 0, JNum 0) |}
           click_action fresh_session "Target closed"); reflexivity.
Defined.

Lemma executeAction_unsupported_type_witness :
  exists st',
    executeAction (driver None succeeds)
      {| action_type := "zoom"; action_fields := [] |} fresh_session
    = (Ok {| success := false; error := Some "Unsupported action type: zoom" |}, st') /\
    recordedActions st'
    = [] ++ [{| r_action := "zoom"; r_timestamp := "2025-01-01T00:00:00.000Z";
                r_success := false; r_selector := None; r_details := [] |}].
Proof.
  apply (executeAction_unsupported_type (driver None succeeds)
           {| action_type := "zoom"; action_fields := [] |} fresh_session);
    [|reflexivity|reflexivity|reflexivity].
  intros Hin. unfold supported_types in Hin. cbn [action_type] in Hin.
  repeat (apply elem_of_cons in Hin as [Hin|Hin]; [discriminate|]).
  now apply elem_of_nil in Hin.
Defined.

End AgentMoreFacts.
